(** * Disposition tables: validator and aggregator

    A shallow embedding of the table-detection, classification and
    aggregation code of

      - [plan-incorporate/validate-dispositions.py]  (module [Validator])
      - [plan-summarize/aggregate-dispositions.py]   (module [Aggregator])

    The parsing functions are duplicated verbatim in the two scripts; they are
    embedded once, in the part shared by both modules.

    Text.  A Python [str] is modelled as a [string] of 8-bit characters.
    Whitespace ([str.strip], [\s]) is the set of characters below 128 for
    which [str.isspace] holds; [str.lower] and [re.IGNORECASE] fold the
    letters [A-Z]; [\d] is [0-9].  A character outside that range is carried
    as the bytes of its UTF-8 encoding and is neither trimmed nor folded.

    Integers are unbounded ([Z], [nat] for lengths and indices); a Python
    [float] is a binary64 primitive float. *)

From Stdlib Require Import ZArith String Ascii List Bool Lia Arith.
From Stdlib Require Import Sorting.Sorted.
From Stdlib Require Import Floats.PrimFloat Floats.FloatOps Floats.SpecFloat.
From Stdlib Require Import Numbers.DecimalString.
Import ListNotations.

Local Open Scope list_scope.
Local Open Scope string_scope.

(** ** Python string primitives *)

Module Str.

(** [c.isspace()] for a character below 128: TAB, LF, VT, FF, CR, the four
    separators FS, GS, RS, US, and the space. *)
Definition is_space (c : ascii) : bool :=
  let n := nat_of_ascii c in
  (Nat.leb 9 n && Nat.leb n 13) || (Nat.leb 28 n && Nat.leb n 32).

Definition is_digit (c : ascii) : bool :=
  let n := nat_of_ascii c in Nat.leb 48 n && Nat.leb n 57.

Definition is_upper (c : ascii) : bool :=
  let n := nat_of_ascii c in Nat.leb 65 n && Nat.leb n 90.

Definition is_lower (c : ascii) : bool :=
  let n := nat_of_ascii c in Nat.leb 97 n && Nat.leb n 122.

Definition lower_char (c : ascii) : ascii :=
  if is_upper c then ascii_of_nat (nat_of_ascii c + 32) else c.

(** [s.lower()] *)
Fixpoint lower (s : string) : string :=
  match s with
  | EmptyString => EmptyString
  | String c s' => String (lower_char c) (lower s')
  end.

(** [s.lstrip()] *)
Fixpoint lstrip (s : string) : string :=
  match s with
  | EmptyString => EmptyString
  | String c s' => if is_space c then lstrip s' else s
  end.

(** [s.rstrip()] *)
Fixpoint rstrip (s : string) : string :=
  match s with
  | EmptyString => EmptyString
  | String c s' =>
      match rstrip s' with
      | EmptyString => if is_space c then EmptyString else String c EmptyString
      | r => String c r
      end
  end.

(** [s.strip()] *)
Definition strip (s : string) : string := rstrip (lstrip s).

(** [s == ""] *)
Definition is_empty (s : string) : bool :=
  match s with EmptyString => true | _ => false end.

(** [s.startswith(p)] *)
Definition startswith (p s : string) : bool := String.prefix p s.

(** [s.split(d)] for a one-character delimiter, which is also
    [re.split] on a character class: every occurrence splits, so the result
    has one more element than there are delimiters. *)
Fixpoint split_by (d : ascii -> bool) (s : string) : list string :=
  match s with
  | EmptyString => [EmptyString]
  | String c s' =>
      if d c then EmptyString :: split_by d s'
      else match split_by d s' with
           | h :: t => String c h :: t
           | [] => [String c EmptyString]
           end
  end.

Definition split (d : ascii) (s : string) : list string :=
  split_by (Ascii.eqb d) s.

(** [d.join(l)] *)
Fixpoint join (d : string) (l : list string) : string :=
  match l with
  | [] => EmptyString
  | [x] => x
  | x :: rest => x ++ d ++ join d rest
  end.

(** [x in l] for a set or tuple of string literals *)
Definition mem (x : string) (l : list string) : bool :=
  existsb (String.eqb x) l.

(** [int(s)] on a string of decimal digits: the value of the digits.
    CPython from version 3.11 on refuses, with [ValueError], a string of
    more than 4300 digits (the default of [sys.set_int_max_str_digits]);
    the value is what [int] returns on the strings it accepts. *)
Definition digit_val (c : ascii) : Z := Z.of_nat (nat_of_ascii c - 48).

Fixpoint int_acc (acc : Z) (s : string) : Z :=
  match s with
  | EmptyString => acc
  | String c s' => int_acc (10 * acc + digit_val c)%Z s'
  end.

Definition int (s : string) : Z := int_acc 0%Z s.

(** [s] holds no character of the class [d]. *)
Fixpoint free_of (d : ascii -> bool) (s : string) : bool :=
  match s with
  | EmptyString => true
  | String c s' => negb (d c) && free_of d s'
  end.

End Str.

(** ** Python list primitives *)

(** [l[:-1]] *)
Definition drop_last {A} (l : list A) : list A := removelast l.

(** [l[-1]] on a non-empty list *)
Definition last_elt (l : list string) : string := last l EmptyString.

(** ** Row parser *)

Definition pipe : ascii := "|"%char.

(** [parse_table_row(line)]: [None] is Python's [None]. *)
Definition parse_table_row (line : string) : option (list string) :=
  let line := Str.strip line in
  if negb (Str.startswith "|" line) then None
  else
    let parts := Str.split pipe line in
    let parts :=
      match parts with
      | p0 :: tl => if Str.is_empty (Str.strip p0) then tl else parts
      | [] => parts
      end in
    let parts :=
      match parts with
      | _ :: _ =>
          if Str.is_empty (Str.strip (last_elt parts)) then drop_last parts
          else parts
      | [] => parts
      end in
    Some (map Str.strip parts).

(** The line rebuilt from a cell list: the cells joined with the delimiter
    and wrapped in outer pipes. *)
Definition rejoin_row (cells : list string) : string :=
  "|" ++ Str.join "|" cells ++ "|".

(** ** Regular expressions

    The two patterns of the scripts are kept as data and run by a
    backtracking matcher with the semantics of Python's [re]: greedy
    quantifiers, ordered alternation, numbered capturing groups, and [$]
    matching at the end of the text or before a final newline. *)

Module Re.

Inductive re : Type :=
| Eps
| Chr (p : ascii -> bool)
| Seq (r1 r2 : re)
| Alt (r1 r2 : re)
| Opt (r : re)
| Star (r : re)
| Group (n : nat) (r : re)
| Eos.

Definition Plus (r : re) : re := Seq r (Star r).

Fixpoint seqs (rs : list re) : re :=
  match rs with
  | [] => Eps
  | [r] => r
  | r :: rest => Seq r (seqs rest)
  end.

(** A literal character; under [re.IGNORECASE] it is compared after case
    folding. *)
Definition chr (c : ascii) : re := Chr (Ascii.eqb c).
Definition chr_i (c : ascii) : re :=
  Chr (fun a => Ascii.eqb (Str.lower_char a) (Str.lower_char c)).

Fixpoint lit_i (s : string) : re :=
  match s with
  | EmptyString => Eps
  | String c EmptyString => chr_i c
  | String c s' => Seq (chr_i c) (lit_i s')
  end.

(** [\s], [\d], and [[a-z]] under [re.IGNORECASE] *)
Definition space : re := Chr Str.is_space.
Definition digit : re := Chr Str.is_digit.
Definition letter_i : re := Chr (fun a => Str.is_lower (Str.lower_char a)).

(** The groups of a match object: [groups n] is [m.group(n)]. *)
Definition groups : Type := nat -> option string.
Definition no_groups : groups := fun _ => None.
Definition set_group (n : nat) (v : string) (g : groups) : groups :=
  fun k => if Nat.eqb k n then Some v else g k.

(** The text consumed between a position [s] and a later position [s1],
    both given as the remaining suffix. *)
Definition consumed (s s1 : string) : string :=
  String.substring 0 (String.length s - String.length s1) s.

Fixpoint run (r : re) (s : string) (k : string -> groups -> option groups)
         (g : groups) {struct r} : option groups :=
  match r with
  | Eps => k s g
  | Chr p =>
      match s with
      | String a s' => if p a then k s' g else None
      | EmptyString => None
      end
  | Seq r1 r2 => run r1 s (fun s1 g1 => run r2 s1 k g1) g
  | Alt r1 r2 =>
      match run r1 s k g with
      | Some m => Some m
      | None => run r2 s k g
      end
  | Opt r1 =>
      match run r1 s k g with
      | Some m => Some m
      | None => k s g
      end
  | Star r1 =>
      (fix star (n : nat) (s : string) (g : groups) {struct n} : option groups :=
         match n with
         | O => k s g
         | S n' =>
             match run r1 s
                     (fun s1 g1 =>
                        if Nat.ltb (String.length s1) (String.length s)
                        then star n' s1 g1 else None) g with
             | Some m => Some m
             | None => k s g
             end
         end) (String.length s) s g
  | Group n r1 => run r1 s (fun s1 g1 => k s1 (set_group n (consumed s s1) g1)) g
  | Eos =>
      match s with
      | EmptyString => k s g
      | String a EmptyString => if Ascii.eqb a "010"%char then k s g else None
      | _ => None
      end
  end.

(** [pattern.match(s)]: anchored at the start of [s]. *)
Definition match_ (r : re) (s : string) : option groups :=
  run r s (fun _ g => Some g) no_groups.

End Re.

(** ** Header matcher *)

(** [DISPOSITION_HEADER_RE], compiled with [re.IGNORECASE]. *)
Definition review_disposition : Re.re :=
  Re.seqs [Re.lit_i "Review"; Re.Plus Re.space; Re.lit_i "Disposition"].

Definition DISPOSITION_HEADER_RE : Re.re :=
  Re.seqs
    [ Re.lit_i "##"; Re.Plus Re.space;
      Re.Opt (Re.seqs [ Re.Plus Re.digit; Re.Opt Re.letter_i;
                        Re.Chr (fun a => Ascii.eqb a "."%char || Ascii.eqb a ")"%char);
                        Re.Star Re.space ]);
      Re.Alt
        (Re.Seq
           (Re.Opt (Re.seqs [ Re.lit_i "Round"; Re.Plus Re.space;
                              Re.Group 1 (Re.Plus Re.digit); Re.Plus Re.space ]))
           review_disposition)
        (Re.seqs [ Re.lit_i "R"; Re.Group 2 (Re.Plus Re.digit);
                   Re.Plus Re.space; review_disposition ]);
      Re.Star Re.space; Re.Eos ].

(** [^:?-+:?$] *)
Definition SEPARATOR_CELL_RE : Re.re :=
  Re.seqs [ Re.Opt (Re.chr ":"%char); Re.Plus (Re.chr "-"%char);
            Re.Opt (Re.chr ":"%char); Re.Eos ].

(** A group is truthy when it took part in the match and is not empty. *)
Definition group_truthy (g : option string) : option string :=
  match g with
  | Some EmptyString => None
  | other => other
  end.

(** [extract_round_number(match)] *)
Definition extract_round_number (m : Re.groups) : option Z :=
  match group_truthy (m 1) with
  | Some d => Some (Str.int d)
  | None =>
      match group_truthy (m 2) with
      | Some d => Some (Str.int d)
      | None => None
      end
  end.

(** [is_separator_row(cells)] *)
Definition is_separator_row (cells : list string) : bool :=
  forallb (fun c => match Re.match_ SEPARATOR_CELL_RE c with
                    | Some _ => true
                    | None => false
                    end) cells.

(** *** Direct readings of the patterns *)

(** The loop of a starred pattern in [Re.run], on its own: [body] matches
    the starred pattern once and [k] is what follows the star. *)
Definition star_loop
           (body : string -> (string -> Re.groups -> option Re.groups) ->
                   Re.groups -> option Re.groups)
           (k : string -> Re.groups -> option Re.groups)
  : nat -> string -> Re.groups -> option Re.groups :=
  fix star (n : nat) (s : string) (g : Re.groups) {struct n} :=
    match n with
    | O => k s g
    | S n' =>
        match body s
                (fun s1 g1 =>
                   if Nat.ltb (String.length s1) (String.length s)
                   then star n' s1 g1 else None) g with
        | Some m => Some m
        | None => k s g
        end
    end.

(** [s] without its leading characters of the class [p]. *)
Fixpoint drop_while (p : ascii -> bool) (s : string) : string :=
  match s with
  | EmptyString => EmptyString
  | String a s' => if p a then drop_while p s' else s
  end.

(** Every character of [s] is of the class [p]. *)
Fixpoint all_of (p : ascii -> bool) (s : string) : bool :=
  match s with
  | EmptyString => true
  | String a s' => p a && all_of p s'
  end.

(** [s] without a leading colon. *)
Definition drop_colon (s : string) : string :=
  match s with
  | String a s' => if Ascii.eqb ":" a then s' else s
  | EmptyString => s
  end.

(** [s] is empty or a single newline: where [$] matches. *)
Definition at_end (s : string) : bool :=
  match s with
  | EmptyString => true
  | String a EmptyString => Ascii.eqb a "010"%char
  | _ => false
  end.

(** The shape [:?-+:?] read from left to right: an optional colon, one dash
    or more, an optional colon, the end. *)
Definition separator_shape (c : string) : bool :=
  match drop_colon c with
  | String a s =>
      Ascii.eqb "-" a && at_end (drop_colon (drop_while (Ascii.eqb "-") s))
  | EmptyString => false
  end.

(** The heading of round [digits], in its two spellings. *)
Definition round_heading (digits : string) : string :=
  "## Round " ++ digits ++ " Review Disposition".
Definition short_round_heading (digits : string) : string :=
  "## R" ++ digits ++ " Review Disposition".

(** ** Column resolver *)

(** [normalize_col_name(name)] *)
Definition normalize_col_name (name : string) : string :=
  Str.lower (Str.strip name).

(** [find_column_index(headers, candidates)]: the loop over
    [enumerate(headers)], [i] being the index of the head of [headers]. *)
Fixpoint find_column_index_from (i : nat) (headers candidates : list string)
  : option nat :=
  match headers with
  | [] => None
  | h :: rest =>
      if Str.mem (normalize_col_name h) candidates then Some i
      else find_column_index_from (S i) rest candidates
  end.

Definition find_column_index (headers candidates : list string) : option nat :=
  find_column_index_from 0 headers candidates.

(** ** Value classifier *)

(** U+2014, the em-dash, as the bytes of its UTF-8 encoding. *)
Definition em_dash : string :=
  String (ascii_of_nat 226) (String (ascii_of_nat 128)
    (String (ascii_of_nat 148) EmptyString)).

Definition RECOGNIZED_SEVERITIES : list string :=
  [ "p0"; "p1"; "p2"; "p3";
    "critical"; "blocker"; "blocking";
    "high"; "medium"; "low";
    "info"; "informational";
    "non-blocking"; "nonblocking";
    "note"; "question"; "gap";
    "n/a"; "none"; em_dash ].

Definition RECOGNIZED_DISPOSITIONS : list string :=
  [ "incorporated"; "incorporate";
    "not incorporated";
    "deferred";
    "already present";
    "acknowledged";
    "n/a" ].

Definition DISPOSITION_PREFIXES : list string :=
  [ "incorporated"; "incorporate"; "not incorporated" ].

(** [re.split(r"[/,]", v)] *)
Definition split_compound (v : string) : list string :=
  Str.split_by (fun c => Ascii.eqb c "/"%char || Ascii.eqb c ","%char) v.

(** The loop [for p in parts: p = p.strip(); if p in S: return True, p]. *)
Fixpoint first_recognized (parts : list string) : option string :=
  match parts with
  | [] => None
  | p :: rest =>
      let p := Str.strip p in
      if Str.mem p RECOGNIZED_SEVERITIES then Some p
      else first_recognized rest
  end.

(** [classify_severity(val)] *)
Definition classify_severity (val : string) : bool * string :=
  let v := Str.lower (Str.strip val) in
  if Str.mem v RECOGNIZED_SEVERITIES then (true, v)
  else
    match first_recognized (split_compound v) with
    | Some p => (true, p)
    | None => (false, v)
    end.

(** The loop [for prefix in DISPOSITION_PREFIXES: if v.startswith(prefix)]. *)
Fixpoint first_prefix (prefixes : list string) (v : string) : option string :=
  match prefixes with
  | [] => None
  | prefix :: rest =>
      if Str.startswith prefix v then Some prefix else first_prefix rest v
  end.

(** [classify_disposition(val)] *)
Definition classify_disposition (val : string) : bool * string :=
  let v := Str.lower (Str.strip val) in
  if Str.mem v RECOGNIZED_DISPOSITIONS then (true, v)
  else
    match first_prefix DISPOSITION_PREFIXES v with
    | Some prefix => (true, prefix)
    | None => (false, v)
    end.

(** ** Table locator *)

Record Row : Type := mkRow {
  line : nat;
  cells : list string
}.

Record Table : Type := mkTable {
  round : option Z;
  header_line : nat;
  section_header_line : nat;
  header_cells : list string;
  separator_line : option nat;
  rows : list Row;
  col_count : nat
}.

(** The table recorded for a heading under which no table was found. *)
Definition headerless_table (round_num : option Z) (section_start : nat) : Table :=
  {| round := round_num;
     header_line := section_start;
     section_header_line := section_start;
     header_cells := [];
     separator_line := None;
     rows := [];
     col_count := 0 |}.

(** The table [table] with other rows. *)
Definition with_rows (table : Table) (rs : list Row) : Table :=
  {| round := round table;
     header_line := header_line table;
     section_header_line := section_header_line table;
     header_cells := header_cells table;
     separator_line := separator_line table;
     rows := rs;
     col_count := col_count table |}.

(** [while i < len(lines) and lines[i].strip() == "": i += 1], run on the
    lines from index [i] on; the result is the number of lines skipped. *)
Fixpoint count_blank (ls : list string) : nat :=
  match ls with
  | [] => 0
  | l :: rest => if Str.is_empty (Str.strip l) then S (count_blank rest) else 0
  end.

Definition skip_blank (lines : list string) (i : nat) : nat :=
  i + count_blank (skipn i lines).

(** The data-row loop, run on the lines [ls] from index [i] on; it returns
    the rows and the index of the line at which it stopped. *)
Fixpoint data_rows (i : nat) (ls : list string) : list Row * nat :=
  match ls with
  | [] => ([], i)
  | l :: rest =>
      match parse_table_row l with
      | None => ([], i)
      | Some row_cells =>
          if is_separator_row row_cells then data_rows (S i) rest
          else
            let (rows, j) := data_rows (S i) rest in
            ({| line := i; cells := row_cells |} :: rows, j)
      end
  end.

(** The body of [if m:], for a heading matched at line [section_start]
    with round number [round_num]: the table it appends and the index [i] at
    which the outer loop resumes.  The fall-through path appends the
    headerless table and ends with [i += 1]; the path that found a table
    ends with [continue]. *)
Definition heading_table (lines : list string) (round_num : option Z)
           (section_start : nat) : Table * nat :=
  let i := skip_blank lines (S section_start) in
  let no_table (i : nat) := (headerless_table round_num section_start, S i) in
  match nth_error lines i with
  | None => no_table i
  | Some hl =>
      match parse_table_row hl with
      | Some ((_ :: _) as header_cells) =>
          let header_line := i in
          let i := S i in
          match nth_error lines i with
          | None => no_table i
          | Some sl =>
              match parse_table_row sl with
              | Some ((_ :: _) as sep_cells) =>
                  if is_separator_row sep_cells then
                    let sep_line := i in
                    let i := S i in
                    let (rows, i) := data_rows i (skipn i lines) in
                    ({| round := round_num;
                        header_line := header_line;
                        section_header_line := section_start;
                        header_cells := header_cells;
                        separator_line := Some sep_line;
                        rows := rows;
                        col_count := List.length header_cells |}, i)
                  else no_table i
              | _ => no_table i
              end
          end
      | _ => no_table i
      end
  end.

(** The outer [while i < len(lines)] loop of [find_disposition_tables],
    started at index [i].  Every iteration advances [i], so [fuel] bounds the
    number of iterations. *)
Fixpoint tables_from (fuel : nat) (lines : list string) (i : nat) : list Table :=
  match fuel with
  | O => []
  | S fuel' =>
      match nth_error lines i with
      | None => []
      | Some l =>
          match Re.match_ DISPOSITION_HEADER_RE l with
          | None => tables_from fuel' lines (S i)
          | Some m =>
              let (table, i) :=
                heading_table lines (extract_round_number m) i in
              table :: tables_from fuel' lines i
          end
      end
  end.

(** [find_disposition_tables(lines)] *)
Definition find_disposition_tables (lines : list string) : list Table :=
  tables_from (List.length lines) lines 0.

(** One iteration of the outer loop at index [i]: the index with which the
    next iteration starts, [None] when [i] is past the last line and the
    loop ends.  A line that is not a heading gives [i += 1]; a heading
    gives the index at which the body of [if m:] leaves the loop variable. *)
Definition next_scanned (lines : list string) (i : nat) : option nat :=
  match nth_error lines i with
  | None => None
  | Some l =>
      match Re.match_ DISPOSITION_HEADER_RE l with
      | None => Some (S i)
      | Some m => Some (snd (heading_table lines (extract_round_number m) i))
      end
  end.

(** The values of [i] at the head of the outer loop of
    [find_disposition_tables]: the indices of the lines that the loop
    matches against [DISPOSITION_HEADER_RE], and the index at which it
    ends. *)
Inductive scanned (lines : list string) : nat -> Prop :=
| scanned_start : scanned lines 0
| scanned_step (i j : nat) :
    scanned lines i -> next_scanned lines i = Some j -> scanned lines j.

(** Line [i] of [lines] is a disposition heading with round number
    [round_num]. *)
Definition heading_at (lines : list string) (i : nat) (round_num : option Z)
  : Prop :=
  exists l m, nth_error lines i = Some l /\
              Re.match_ DISPOSITION_HEADER_RE l = Some m /\
              extract_round_number m = round_num.

(** The row [r] is the parse of line [line r] of [lines], and its cells
    are not those of a separator. *)
Definition row_at (lines : list string) (r : Row) : Prop :=
  exists l, nth_error lines (line r) = Some l /\
            parse_table_row l = Some (cells r) /\
            is_separator_row (cells r) = false.

(** The layout of a table with header cells in [lines]: blank lines
    between the heading and the header row, the separator row on the next
    line, and the data rows below it in ascending line order. *)
Definition table_layout (lines : list string) (t : Table) : Prop :=
  section_header_line t < header_line t /\
  (forall k l, section_header_line t < k < header_line t ->
               nth_error lines k = Some l -> Str.strip l = "") /\
  (exists hl, nth_error lines (header_line t) = Some hl /\
              parse_table_row hl = Some (header_cells t)) /\
  separator_line t = Some (S (header_line t)) /\
  (exists sl sep_cells,
     nth_error lines (S (header_line t)) = Some sl /\
     parse_table_row sl = Some sep_cells /\ sep_cells <> [] /\
     is_separator_row sep_cells = true) /\
  Forall (fun r => S (header_line t) < line r /\ row_at lines r) (rows t) /\
  StronglySorted lt (map line (rows t)).

(** ** Results of code that can raise

    [cells[idx]] raises [IndexError] when [idx] is out of range; a function
    that evaluates it returns an [option], [None] being the exception. *)

Definition bind {A B} (x : option A) (k : A -> option B) : option B :=
  match x with
  | Some a => k a
  | None => None
  end.

Notation "x <- e ;; k" := (bind e (fun x => k))
  (at level 61, e at next level, right associativity).

(** A loop [for x in xs] whose body appends to one result list; it stops at
    the first exception. *)
Fixpoint for_each {A B} (body : A -> option (list B)) (xs : list A)
  : option (list B) :=
  match xs with
  | [] => Some []
  | x :: rest =>
      out <- body x ;;
      more <- for_each body rest ;;
      Some (out ++ more)%list
  end.

(** [cells[idx] if idx is not None else dflt] *)
Definition cell_or (cells : list string) (idx : option nat) (dflt : string)
  : option string :=
  match idx with
  | Some i => nth_error cells i
  | None => Some dflt
  end.

(** ** Validator: [validate-dispositions.py] *)

Module Validator.

(** [f"Round {table['round']}" if table["round"] else "Review Disposition"];
    round [0] is falsy like [None]. *)
Inductive Label : Type :=
| Round_label (n : Z)
| Review_Disposition_label.

Definition round_label (table : Table) : Label :=
  match round table with
  | Some n => if Z.eqb n 0 then Review_Disposition_label else Round_label n
  | None => Review_Disposition_label
  end.

(** The error messages, each with the values its f-string interpolates;
    line numbers are 1-indexed as in the messages. *)
Inductive Error : Type :=
| Missing_Severity_column (label : Label) (line_prefix : nat) (found : list string)
| Missing_Disposition_column (label : Label) (line_prefix : nat) (found : list string)
| Expected_columns (label : Label) (row_line : nat) (expected got : nat) (row : string)
| Unrecognized_severity (label : Label) (row_line : nat) (sev_val : string)
| Unrecognized_disposition (label : Label) (row_line : nat) (disp_val : string).

(** The body of the loop [for row in table["rows"]]: the errors appended for
    one row. *)
Definition check_row (label : Label) (expected_cols sev_idx disp_idx : nat)
           (row : Row) : option (list Error) :=
  let row_line := line row + 1 in
  let cells := cells row in
  if negb (Nat.eqb (List.length cells) expected_cols) then
    Some [Expected_columns label row_line expected_cols (List.length cells)
            (Str.join "|" cells)]
  else
    sev_val <- nth_error cells sev_idx ;;
    let sev_errors :=
      if fst (classify_severity sev_val) then []
      else [Unrecognized_severity label row_line sev_val] in
    disp_val <- nth_error cells disp_idx ;;
    let disp_errors :=
      if fst (classify_disposition disp_val) then []
      else [Unrecognized_disposition label row_line disp_val] in
    Some (sev_errors ++ disp_errors)%list.

Definition check_rows (label : Label) (expected_cols sev_idx disp_idx : nat)
           (rows : list Row) : option (list Error) :=
  for_each (check_row label expected_cols sev_idx disp_idx) rows.

(** [validate_table(table)] *)
Definition validate_table (table : Table) : option (list Error) :=
  let label := round_label table in
  let line_prefix := section_header_line table + 1 in
  match header_cells table with
  | [] => Some []
  | _ :: _ =>
      let sev_idx := find_column_index (header_cells table) ["severity"] in
      let disp_idx := find_column_index (header_cells table) ["disposition"] in
      match sev_idx, disp_idx with
      | Some sev_idx, Some disp_idx =>
          check_rows label (col_count table) sev_idx disp_idx (rows table)
      | _, _ =>
          Some ((match sev_idx with
                 | None => [Missing_Severity_column label line_prefix
                              (header_cells table)]
                 | Some _ => []
                 end)
                ++
                (match disp_idx with
                 | None => [Missing_Disposition_column label line_prefix
                              (header_cells table)]
                 | Some _ => []
                 end))%list
      end
  end.

(** The loop [for table in tables: all_errors.extend(validate_table(table))]. *)
Definition validate_tables (tables : list Table) : option (list Error) :=
  for_each validate_table tables.

(** [validate_file(filepath)] on the lines read from the file:
    [(passed, tables_found, errors)]. *)
Definition validate_file (lines : list string)
  : option (bool * nat * list Error) :=
  let tables := find_disposition_tables lines in
  match tables with
  | [] => Some (true, 0, [])
  | _ :: _ =>
      all_errors <- validate_tables tables ;;
      Some (Nat.eqb (List.length all_errors) 0, List.length tables, all_errors)
  end.

(** A row that passes every check of the row loop: the right number of
    cells, a recognized severity and a recognized disposition. *)
Definition row_ok (expected_cols sev_idx disp_idx : nat) (row : Row) : Prop :=
  List.length (cells row) = expected_cols /\
  exists sev_val disp_val,
    nth_error (cells row) sev_idx = Some sev_val /\
    fst (classify_severity sev_val) = true /\
    nth_error (cells row) disp_idx = Some disp_val /\
    fst (classify_disposition disp_val) = true.

(** The label and the line number an error message names, and whether the
    message is about the table as a whole. *)
Definition error_label (e : Error) : Label :=
  match e with
  | Missing_Severity_column label _ _ => label
  | Missing_Disposition_column label _ _ => label
  | Expected_columns label _ _ _ _ => label
  | Unrecognized_severity label _ _ => label
  | Unrecognized_disposition label _ _ => label
  end.

Definition error_line (e : Error) : nat :=
  match e with
  | Missing_Severity_column _ n _ => n
  | Missing_Disposition_column _ n _ => n
  | Expected_columns _ n _ _ _ => n
  | Unrecognized_severity _ n _ => n
  | Unrecognized_disposition _ n _ => n
  end.

Definition structural (e : Error) : bool :=
  match e with
  | Missing_Severity_column _ _ _ => true
  | Missing_Disposition_column _ _ _ => true
  | _ => false
  end.

(** What [validate_file] meets at the path it is given: nothing
    ([path.exists()] is false), something that is not a regular file
    ([path.is_file()] is false), a path or file for which one of
    [exists], [is_file] and [read_text] raises (an [OSError] such as
    [PermissionError], or [UnicodeDecodeError] for bytes that are not
    UTF-8), or a file whose text [splitlines()] cuts into [lines]. *)
Inductive PathState : Type :=
| Missing
| Not_regular
| Unreadable
| Text_file (lines : list string).

(** The strings of the error list of [validate_file]. *)
Inductive Message : Type :=
| File_not_found (filepath : string)
| Not_a_file (filepath : string)
| Table_error (e : Error).

(** [validate_file(filepath)], from the test of the path on; [None] is an
    exception that leaves the function. *)
Definition validate_file_at (filepath : string) (st : PathState)
  : option (bool * nat * list Message) :=
  match st with
  | Missing => Some (false, 0, [File_not_found filepath])
  | Not_regular => Some (false, 0, [Not_a_file filepath])
  | Unreadable => None
  | Text_file lines =>
      r <- validate_file lines ;;
      let '(passed, tables_found, errors) := r in
      Some (passed, tables_found, map Table_error errors)
  end.

(** What [parser.parse_args()] makes of the command line: it reports a
    usage error and exits with status 2 (no argument, more than one, an
    unknown option), it prints the help and exits with status 0 ([-h] or
    [--help]), or it returns the one positional argument [file]. *)
Inductive CommandLine : Type :=
| Usage_error
| Help
| File_argument (filepath : string).

(** [main()]: the exit status of the process, for a command line and the
    state of the file system.  Nothing in [main] catches an exception, so
    one that leaves [validate_file] ends the process with a traceback and
    status 1.  The [print] calls are taken to succeed. *)
Definition main (cl : CommandLine) (fs : string -> PathState) : nat :=
  match cl with
  | Usage_error => 2
  | Help => 0
  | File_argument filepath =>
      match validate_file_at filepath (fs filepath) with
      | None => 1
      | Some (passed, table_count, errors) =>
          if Nat.eqb table_count 0 then 0
          else if passed then 0
          else 1
      end
  end.

End Validator.

(** ** Aggregator: [aggregate-dispositions.py] *)

Module Aggregator.

Definition SEVERITY_MAP : list (string * string) :=
  [ ("p0", "P0"); ("critical", "P0"); ("blocker", "P0"); ("blocking", "P0");
    ("p1", "P1"); ("high", "P1");
    ("p2", "P2"); ("medium", "P2");
    ("p3", "P3"); ("low", "P3");
    ("info", "Info"); ("informational", "Info");
    ("non-blocking", "Info"); ("nonblocking", "Info");
    ("note", "Info"); ("question", "Info"); ("gap", "Info");
    ("n/a", "N/A"); ("none", "N/A"); (em_dash, "N/A") ].

(** [SEVERITY_MAP[k]] guarded by [k in SEVERITY_MAP] *)
Fixpoint map_get (m : list (string * string)) (k : string) : option string :=
  match m with
  | [] => None
  | (k', v) :: rest => if String.eqb k k' then Some v else map_get rest k
  end.

(** The loop [for p in parts: p = p.strip(); if p in SEVERITY_MAP: return]. *)
Fixpoint first_mapped (parts : list string) : option string :=
  match parts with
  | [] => None
  | p :: rest =>
      match map_get SEVERITY_MAP (Str.strip p) with
      | Some canonical => Some canonical
      | None => first_mapped rest
      end
  end.

(** [normalize_severity(raw)] *)
Definition normalize_severity (raw : string) : string :=
  let v := Str.lower (Str.strip raw) in
  match first_mapped (split_compound v) with
  | Some canonical => canonical
  | None =>
      match map_get SEVERITY_MAP v with
      | Some canonical => canonical
      | None => Str.strip raw
      end
  end.

(** [normalize_disposition(raw)] *)
Definition normalize_disposition (raw : string) : string :=
  let v := Str.lower (Str.strip raw) in
  if Str.mem v ["incorporated"; "incorporate"] || Str.startswith "incorporated" v
  then "Incorporated"
  else if String.eqb v "not incorporated" then "Not Incorporated"
  else if String.eqb v "deferred" then "Deferred"
  else if Str.mem v ["already present"; "acknowledged"] then "Incorporated"
  else if String.eqb v "n/a" then "N/A"
  else Str.strip raw.

Record Finding : Type := mkFinding {
  file : string;
  f_round : Z;
  finding_id : string;
  reviewer : option string;
  severity : string;
  severity_raw : string;
  summary : string;
  disposition : string;
  disposition_raw : string;
  notes : string
}.

(** The body of the loop [for row in table["rows"]] of
    [parse_file_findings]: the findings appended for one row. *)
Definition row_findings (filepath : string) (round_num : Z) (col_count : nat)
           (sev_idx disp_idx : nat)
           (summary_idx reviewer_idx notes_idx finding_idx : option nat)
           (row : Row) : option (list Finding) :=
  let cells := cells row in
  if negb (Nat.eqb (List.length cells) col_count) then Some []
  else
    raw_sev <- nth_error cells sev_idx ;;
    raw_disp <- nth_error cells disp_idx ;;
    the_finding_id <- cell_or cells finding_idx "" ;;
    the_reviewer <- match reviewer_idx with
                    | Some i => option_map Some (nth_error cells i)
                    | None => Some None
                    end ;;
    the_summary <- cell_or cells summary_idx "" ;;
    the_notes <- cell_or cells notes_idx "" ;;
    Some [ {| file := filepath;
              f_round := round_num;
              finding_id := the_finding_id;
              reviewer := the_reviewer;
              severity := normalize_severity raw_sev;
              severity_raw := Str.strip raw_sev;
              summary := the_summary;
              disposition := normalize_disposition raw_disp;
              disposition_raw := Str.strip raw_disp;
              notes := the_notes |} ].

Definition rows_findings (filepath : string) (round_num : Z) (col_count : nat)
           (sev_idx disp_idx : nat)
           (summary_idx reviewer_idx notes_idx finding_idx : option nat)
           (rows : list Row) : option (list Finding) :=
  for_each (row_findings filepath round_num col_count sev_idx disp_idx
              summary_idx reviewer_idx notes_idx finding_idx) rows.

(** The round number the loop gives a table:
    [round_num = table["round"]; if round_num is None: round_num = unlabeled_round]. *)
Definition table_round (unlabeled_round : Z) (table : Table) : Z :=
  match round table with
  | None => unlabeled_round
  | Some r => r
  end.

(** The findings of one table that has header cells, for the round number
    the loop gave it: the column indices, the [continue] when a mandatory
    column is missing, and the loop over the rows. *)
Definition table_findings (filepath : string) (round_num : Z) (table : Table)
  : option (list Finding) :=
  let sev_idx := find_column_index (header_cells table) ["severity"] in
  let disp_idx := find_column_index (header_cells table) ["disposition"] in
  let summary_idx :=
    find_column_index (header_cells table) ["summary"; "description"] in
  let reviewer_idx := find_column_index (header_cells table) ["reviewer"] in
  let notes_idx :=
    find_column_index (header_cells table) ["notes"; "note"; "comments"; "comment"] in
  let finding_idx :=
    find_column_index (header_cells table) ["finding id"; "finding"; "#"; "id"] in
  match sev_idx, disp_idx with
  | Some sev_idx, Some disp_idx =>
      rows_findings filepath round_num (col_count table) sev_idx disp_idx
        summary_idx reviewer_idx notes_idx finding_idx (rows table)
  | _, _ => Some []
  end.

(** The loop [for table in tables] of [parse_file_findings], with the
    counter [unlabeled_round] as its state. *)
Fixpoint tables_findings (filepath : string) (unlabeled_round : Z)
         (tables : list Table) : option (list Finding) :=
  match tables with
  | [] => Some []
  | table :: rest =>
      match header_cells table with
      | [] => tables_findings filepath unlabeled_round rest
      | _ :: _ =>
          let round_num := table_round unlabeled_round table in
          let unlabeled_round := Z.max unlabeled_round (round_num + 1) in
          findings <- table_findings filepath round_num table ;;
          more <- tables_findings filepath unlabeled_round rest ;;
          Some (findings ++ more)%list
      end
  end.

(** [parse_file_findings(filepath)] on the lines read from the file. *)
Definition parse_file_findings (filepath : string) (lines : list string)
  : option (list Finding) :=
  tables_findings filepath 1%Z (find_disposition_tables lines).

(** *** Statistics *)

(** A [dict] keeps its keys in insertion order. *)
Section Dict.
Context {K V : Type} (eqb : K -> K -> bool).

Fixpoint dict_get (d : list (K * V)) (k : K) : option V :=
  match d with
  | [] => None
  | (k', v) :: rest => if eqb k k' then Some v else dict_get rest k
  end.

(** [d[k] = f(d[k])] on a [defaultdict] whose factory returns [dflt] *)
Fixpoint dict_update (dflt : V) (f : V -> V) (k : K) (d : list (K * V))
  : list (K * V) :=
  match d with
  | [] => [(k, f dflt)]
  | (k', v) :: rest =>
      if eqb k k' then (k', f v) :: rest
      else (k', v) :: dict_update dflt f k rest
  end.
End Dict.

(** [d.keys()] *)
Definition keys {K V} (d : list (K * V)) : list K := map fst d.

(** [d[k] += 1] on a [defaultdict(int)] *)
Definition incr {K} (eqb : K -> K -> bool) (k : K) (d : list (K * Z))
  : list (K * Z) :=
  dict_update eqb 0%Z (fun n => (n + 1)%Z) k d.

(** [d.get(k, 0)] *)
Definition get0 {K} (eqb : K -> K -> bool) (d : list (K * Z)) (k : K) : Z :=
  match dict_get eqb d k with
  | Some n => n
  | None => 0%Z
  end.

Record RoundStats : Type := mkRoundStats {
  rs_total : Z;
  rs_by_severity : list (string * Z);
  rs_by_disposition : list (string * Z);
  rs_files : list (string * Z)
}.

Record FileStats : Type := mkFileStats {
  fs_total : Z;
  fs_by_round : list (Z * Z);
  fs_by_severity : list (string * Z);
  fs_by_disposition : list (string * Z)
}.

Record Overall : Type := mkOverall {
  o_total : Z;
  o_by_severity : list (string * Z);
  o_by_disposition : list (string * Z)
}.

Definition new_round_stats : RoundStats := mkRoundStats 0 [] [] [].
Definition new_file_stats : FileStats := mkFileStats 0 [] [] [].
Definition new_overall : Overall := mkOverall 0 [] [].

Record Accumulators : Type := mkAccumulators {
  acc_per_round : list (Z * RoundStats);
  acc_per_file : list (string * FileStats);
  acc_overall : Overall
}.

(** The body of the loop [for f in findings]. *)
Definition count_finding (acc : Accumulators) (f : Finding) : Accumulators :=
  let rnd := f_round f in
  let sev := severity f in
  let disp := disposition f in
  let fpath := file f in
  {| acc_per_round :=
       dict_update Z.eqb new_round_stats
         (fun st => {| rs_total := rs_total st + 1;
                       rs_by_severity := incr String.eqb sev (rs_by_severity st);
                       rs_by_disposition := incr String.eqb disp (rs_by_disposition st);
                       rs_files := incr String.eqb fpath (rs_files st) |})
         rnd (acc_per_round acc);
     acc_per_file :=
       dict_update String.eqb new_file_stats
         (fun st => {| fs_total := fs_total st + 1;
                       fs_by_round := incr Z.eqb rnd (fs_by_round st);
                       fs_by_severity := incr String.eqb sev (fs_by_severity st);
                       fs_by_disposition := incr String.eqb disp (fs_by_disposition st) |})
         fpath (acc_per_file acc);
     acc_overall :=
       {| o_total := o_total (acc_overall acc) + 1;
          o_by_severity := incr String.eqb sev (o_by_severity (acc_overall acc));
          o_by_disposition := incr String.eqb disp (o_by_disposition (acc_overall acc)) |}
  |}.

Definition count_findings (findings : list Finding) : Accumulators :=
  fold_left count_finding findings
    {| acc_per_round := []; acc_per_file := []; acc_overall := new_overall |}.

(** [sorted(l)] on integers: the ascending arrangement of [l]. *)
Fixpoint insert_sorted (x : Z) (l : list Z) : list Z :=
  match l with
  | [] => [x]
  | y :: rest => if (x <=? y)%Z then x :: l else y :: insert_sorted x rest
  end.

Definition sorted (l : list Z) : list Z := fold_right insert_sorted [] l.

(** *** Floating point *)

(** [float(n)]: the binary64 value nearest to the integer [n]. *)
Definition float_of_int (n : Z) : float :=
  SF2Prim (binary_normalize prec emax n 0 false).

(** [a / b] on integers.  Python rounds the exact quotient once; below
    [2^53] in magnitude both operands convert exactly and the binary64
    division gives that same value. *)
Definition true_div (a b : Z) : float :=
  PrimFloat.div (float_of_int a) (float_of_int b).

(** The integer nearest to [m * 2^e], ties to even. *)
Definition round_half_even (m : positive) (e : Z) : Z :=
  if (0 <=? e)%Z then (Zpos m * 2 ^ e)%Z
  else
    let d := (2 ^ (- e))%Z in
    let q := (Zpos m / d)%Z in
    let r := (Zpos m mod d)%Z in
    match (2 * r ?= d)%Z with
    | Lt => q
    | Gt => (q + 1)%Z
    | Eq => if Z.even q then q else (q + 1)%Z
    end.

Definition decimal (n : Z) : string :=
  NilZero.string_of_uint (N.to_uint (Z.to_N n)).

(** [f"{x:.0f}"] *)
Definition format_0f (x : float) : string :=
  match Prim2SF x with
  | S754_zero s => if s then "-0" else "0"
  | S754_infinity s => if s then "-inf" else "inf"
  | S754_nan => "nan"
  | S754_finite s m e =>
      (if s then "-" else "") ++ decimal (round_half_even m e)
  end.

(** What the format specification [.0f] asks of the printed text,
    written without reference to [format_0f]: for a finite value
    [m * 2^e] the digits are those of an integer [n] at distance at most
    one half from it, and of the even one when the value lies halfway
    between two integers. *)
Definition nearest_integer_ties_even (m : positive) (e : Z) (n : Z) : Prop :=
  if (0 <=? e)%Z then n = (Zpos m * 2 ^ e)%Z
  else
    let d := (2 ^ (- e))%Z in
    (2 * Z.abs (n * d - Zpos m) <= d)%Z /\
    ((2 * Z.abs (n * d - Zpos m) = d)%Z -> Z.even n = true).

Inductive printed_0f : spec_float -> string -> Prop :=
| printed_zero (s : bool) :
    printed_0f (S754_zero s) ((if s then "-" else "") ++ "0")
| printed_infinity (s : bool) :
    printed_0f (S754_infinity s) ((if s then "-" else "") ++ "inf")
| printed_nan : printed_0f S754_nan "nan"
| printed_finite (s : bool) (m : positive) (e n : Z) :
    nearest_integer_ties_even m e n ->
    printed_0f (S754_finite s m e)
      ((if s then "-" else "")
         ++ NilZero.string_of_uint (N.to_uint (Z.to_N n))).

(** U+2193 and U+2191, the down and up arrows, as UTF-8 bytes. *)
Definition down_arrow : string :=
  String (ascii_of_nat 226) (String (ascii_of_nat 134)
    (String (ascii_of_nat 147) EmptyString)).
Definition up_arrow : string :=
  String (ascii_of_nat 226) (String (ascii_of_nat 134)
    (String (ascii_of_nat 145) EmptyString)).

(** [((total - prev_total) / prev_total) * 100] *)
Definition pct_change (total prev_total : Z) : float :=
  PrimFloat.mul (true_div (total - prev_total) prev_total) (float_of_int 100).

(** *** Convergence table *)

Record ConvergenceRow : Type := mkConvergenceRow {
  c_round : Z;
  c_total : Z;
  c_incorporated : Z;
  c_not_incorporated : Z;
  c_deferred : Z;
  c_na : Z;
  c_trend : string
}.

(** The [if prev_total is not None and prev_total > 0: ... else: ...]
    statement that sets [trend]. *)
Definition trend_of (prev_total : option Z) (total : Z) : string :=
  match prev_total with
  | Some prev_total =>
      if (0 <? prev_total)%Z then
        let pct := pct_change total prev_total in
        if PrimFloat.leb pct (float_of_int 0)
        then down_arrow ++ format_0f (PrimFloat.abs pct) ++ "%"
        else up_arrow ++ format_0f pct ++ "%"
      else em_dash
  | None => em_dash
  end.

(** [per_round[rnd]] *)
Definition round_stats (per_round : list (Z * RoundStats)) (rnd : Z) : RoundStats :=
  match dict_get Z.eqb per_round rnd with
  | Some stats => stats
  | None => new_round_stats
  end.

(** The loop [for rnd in sorted_rounds], with [prev_total] as its state. *)
Fixpoint convergence_rows (per_round : list (Z * RoundStats))
         (prev_total : option Z) (sorted_rounds : list Z) : list ConvergenceRow :=
  match sorted_rounds with
  | [] => []
  | rnd :: rest =>
      let stats := round_stats per_round rnd in
      let total := rs_total stats in
      {| c_round := rnd;
         c_total := total;
         c_incorporated := get0 String.eqb (rs_by_disposition stats) "Incorporated";
         c_not_incorporated := get0 String.eqb (rs_by_disposition stats) "Not Incorporated";
         c_deferred := get0 String.eqb (rs_by_disposition stats) "Deferred";
         c_na := get0 String.eqb (rs_by_disposition stats) "N/A";
         c_trend := trend_of prev_total total |}
        :: convergence_rows per_round (Some total) rest
  end.

Record Stats : Type := mkStats {
  per_round : list (Z * RoundStats);
  overall : Overall;
  convergence : list ConvergenceRow;
  per_file : list (string * FileStats)
}.

(** [aggregate_findings(findings)] *)
Definition aggregate_findings (findings : list Finding) : Stats :=
  let acc := count_findings findings in
  let sorted_rounds := sorted (keys (acc_per_round acc)) in
  {| per_round := acc_per_round acc;
     overall := acc_overall acc;
     convergence := convergence_rows (acc_per_round acc) None sorted_rounds;
     per_file := acc_per_file acc |}.

(** The canonical labels, as [format_markdown] lists them:
    [sev_order] and [disp_order]. *)
Definition sev_order : list string := ["P0"; "P1"; "P2"; "P3"; "Info"; "N/A"].
Definition disp_order : list string :=
  ["Incorporated"; "Not Incorporated"; "Deferred"; "N/A"].

(** *** The state of the table loop, made visible

    [assigned_rounds unlabeled_round tables] lists, in document order, the
    tables that pass the headerless test together with the value of
    [round_num] the loop of [parse_file_findings] computes for each. *)
Fixpoint assigned_rounds (unlabeled_round : Z) (tables : list Table)
  : list (Table * Z) :=
  match tables with
  | [] => []
  | table :: rest =>
      match header_cells table with
      | [] => assigned_rounds unlabeled_round rest
      | _ :: _ =>
          let round_num := table_round unlabeled_round table in
          (table, round_num)
            :: assigned_rounds (Z.max unlabeled_round (round_num + 1)) rest
      end
  end.

(** The findings of a list of tables, each with its round number. *)
Definition collect_findings (filepath : string) (l : list (Table * Z))
  : option (list Finding) :=
  for_each (fun '(table, round_num) => table_findings filepath round_num table) l.

(** The running maximum [max(unlabeled_round, round_num + 1)] over the
    round numbers [rounds] given so far, from its initial value. *)
Definition running_max (unlabeled_round : Z) (rounds : list Z) : Z :=
  fold_left (fun u r => Z.max u (r + 1)) rounds unlabeled_round.

(** The number of findings of round [rnd]. *)
Definition count_round (rnd : Z) (findings : list Finding) : Z :=
  Z.of_nat (List.length (filter (fun f => Z.eqb (f_round f) rnd) findings)).

(** A finding of file [fpath] and round [rnd] with the given canonical
    labels; the other fields are empty. *)
Definition finding_of (fpath : string) (rnd : Z) (sev disp : string) : Finding :=
  {| file := fpath; f_round := rnd; finding_id := ""; reviewer := None;
     severity := sev; severity_raw := sev; summary := "";
     disposition := disp; disposition_raw := disp; notes := "" |}.

(** The rows of a table from which the aggregator makes a finding: those
    of a table with header cells and both mandatory columns, whose cell
    count is the column count. *)
Definition retained_rows (table : Table) : list Row :=
  match header_cells table,
        find_column_index (header_cells table) ["severity"],
        find_column_index (header_cells table) ["disposition"] with
  | _ :: _, Some _, Some _ =>
      filter (fun row => Nat.eqb (List.length (cells row)) (col_count table))
             (rows table)
  | _, _, _ => []
  end.

(** The number of findings that satisfy [p]. *)
Definition count_where (p : Finding -> bool) (findings : list Finding) : Z :=
  Z.of_nat (List.length (filter p findings)).

(** [sum(c["total"] for c in convergence)] *)
Definition sum_totals (rows : list ConvergenceRow) : Z :=
  fold_right (fun c acc => (c_total c + acc)%Z) 0%Z rows.

(** [per_file[fpath]] *)
Definition file_stats (per_file : list (string * FileStats)) (fpath : string)
  : FileStats :=
  match dict_get String.eqb per_file fpath with
  | Some stats => stats
  | None => new_file_stats
  end.

End Aggregator.

(** * Verification *)

(** ** Facts about the string primitives *)

Section StringFacts.

Lemma lstrip_free d s : Str.free_of d s = true -> Str.free_of d (Str.lstrip s) = true.
Proof.
  induction s as [|c s IH]; simpl; auto.
  intros H. destruct (Str.is_space c); simpl; auto.
  apply andb_true_iff in H. tauto.
Qed.

Lemma rstrip_free d s : Str.free_of d s = true -> Str.free_of d (Str.rstrip s) = true.
Proof.
  induction s as [|c s IH]; simpl; auto.
  intros H. apply andb_true_iff in H. destruct H as [Hc Hs].
  specialize (IH Hs).
  destruct (Str.rstrip s) eqn:E.
  - destruct (Str.is_space c); simpl; auto. now rewrite Hc.
  - simpl in *. now rewrite Hc, IH.
Qed.

Lemma strip_free d s : Str.free_of d s = true -> Str.free_of d (Str.strip s) = true.
Proof. intros H. unfold Str.strip. now apply rstrip_free, lstrip_free. Qed.

Lemma split_by_nonempty d s : Str.split_by d s <> [].
Proof.
  destruct s as [|c s]; simpl; [discriminate|].
  destruct (d c); [discriminate|]. destruct (Str.split_by d s); discriminate.
Qed.

Lemma split_by_free d s : Forall (fun p => Str.free_of d p = true) (Str.split_by d s).
Proof.
  induction s as [|c s IH]; simpl.
  - constructor; auto.
  - destruct (d c) eqn:Hc.
    + constructor; auto.
    + destruct (Str.split_by d s) as [|h t].
      * constructor; auto. simpl. now rewrite Hc.
      * inversion IH; subst. constructor; auto. simpl. now rewrite Hc.
Qed.

Lemma split_by_single d s : Str.free_of d s = true -> Str.split_by d s = [s].
Proof.
  induction s as [|c s IH]; simpl; auto.
  intros H. apply andb_true_iff in H. destruct H as [Hc Hs].
  apply negb_true_iff in Hc. rewrite Hc, (IH Hs). reflexivity.
Qed.

Lemma split_by_app d x c rest :
  Str.free_of d x = true -> d c = true ->
  Str.split_by d (x ++ String c rest) = x :: Str.split_by d rest.
Proof.
  intros Hx Hc. induction x as [|a x IH]; simpl.
  - now rewrite Hc.
  - simpl in Hx. apply andb_true_iff in Hx. destruct Hx as [Ha Hx].
    apply negb_true_iff in Ha. rewrite Ha, (IH Hx). reflexivity.
Qed.

Lemma lstrip_idem s : Str.lstrip (Str.lstrip s) = Str.lstrip s.
Proof.
  induction s as [|c s IH]; simpl; auto.
  destruct (Str.is_space c) eqn:E; auto. simpl. now rewrite E.
Qed.

Lemma rstrip_idem s : Str.rstrip (Str.rstrip s) = Str.rstrip s.
Proof.
  induction s as [|c s IH]; simpl; auto.
  destruct (Str.rstrip s) eqn:E.
  - destruct (Str.is_space c) eqn:Ec; simpl; auto. now rewrite Ec.
  - simpl in *. now rewrite IH.
Qed.

(** The first character of a right-trimmed text that begins with a
    non-space stays in place. *)
Lemma lstrip_rstrip s : Str.lstrip (Str.rstrip s) = Str.rstrip (Str.lstrip s).
Proof.
  induction s as [|c s IH]; simpl; auto.
  destruct (Str.is_space c) eqn:Ec.
  - destruct (Str.rstrip s) eqn:E.
    + simpl. rewrite <- IH. reflexivity.
    + simpl. rewrite Ec. rewrite <- IH. reflexivity.
  - simpl. destruct (Str.rstrip s) eqn:E; rewrite ?Ec; simpl; rewrite ?Ec; reflexivity.
Qed.

Lemma strip_idem s : Str.strip (Str.strip s) = Str.strip s.
Proof.
  unfold Str.strip. rewrite lstrip_rstrip, lstrip_idem.
  apply rstrip_idem.
Qed.

Lemma rstrip_snoc s c :
  Str.is_space c = false -> Str.rstrip (s ++ String c "") = s ++ String c "".
Proof.
  intros Hc. induction s as [|a s IH]; simpl.
  - now rewrite Hc.
  - rewrite IH. destruct (s ++ String c "") eqn:E; auto.
    destruct s; discriminate.
Qed.

End StringFacts.

Section RowParser.

Lemma join_cons d x y rest : Str.join d (x :: y :: rest) = x ++ d ++ Str.join d (y :: rest).
Proof. reflexivity. Qed.

Lemma append_assoc (a b c : string) : (a ++ b) ++ c = a ++ (b ++ c).
Proof. induction a; simpl; congruence. Qed.

(** Splitting the joined cells followed by a closing pipe gives the cells
    back, then the empty text after the closing pipe. *)
Lemma split_join_pipe cells :
  Forall (fun c => Str.free_of (Ascii.eqb pipe) c = true) cells -> cells <> [] ->
  Str.split pipe (Str.join "|" cells ++ "|") = (cells ++ [""])%list.
Proof.
  unfold Str.split.
  induction cells as [|x rest IH]; intros HF Hne; [congruence|].
  inversion HF as [|? ? Hx Hrest]; subst.
  destruct rest as [|y rest'].
  - simpl Str.join. rewrite split_by_app; auto.
  - rewrite join_cons, !append_assoc.
    change ("|" ++ Str.join "|" (y :: rest') ++ "|")
      with (String pipe (Str.join "|" (y :: rest') ++ "|")).
    rewrite split_by_app; auto.
    rewrite IH; auto. discriminate.
Qed.

Lemma last_snoc (l : list string) x : last_elt (l ++ [x]) = x.
Proof. unfold last_elt. apply last_last. Qed.

Lemma drop_last_snoc (l : list string) x : drop_last (l ++ [x]) = l.
Proof. unfold drop_last. apply removelast_last. Qed.

Lemma strip_rejoin cells : Str.strip (rejoin_row cells) = rejoin_row cells.
Proof.
  unfold rejoin_row, Str.strip. simpl Str.lstrip.
  change (String "|" (Str.join "|" cells ++ "|"))
    with ("|" ++ (Str.join "|" cells ++ "|")).
  rewrite <- append_assoc. apply rstrip_snoc. reflexivity.
Qed.

(** Cells that are trimmed and hold no pipe survive the trip through
    [rejoin_row] and [parse_table_row]. *)
Lemma parse_rejoin cells :
  Forall (fun c => Str.free_of (Ascii.eqb pipe) c = true) cells ->
  Forall (fun c => Str.strip c = c) cells ->
  cells <> [] ->
  parse_table_row (rejoin_row cells) = Some cells.
Proof.
  intros Hfree Hstrip Hne.
  unfold parse_table_row. rewrite strip_rejoin.
  assert (Hsw : Str.startswith "|" (rejoin_row cells) = true).
  { unfold rejoin_row. simpl. now destruct (Str.join "|" cells ++ "|"). }
  rewrite Hsw. simpl negb. cbv iota.
  unfold rejoin_row.
  change (Str.split pipe ("|" ++ Str.join "|" cells ++ "|"))
    with ("" :: Str.split pipe (Str.join "|" cells ++ "|")).
  rewrite split_join_pipe by assumption.
  simpl Str.is_empty. cbv iota.
  destruct (cells ++ [""])%list as [|c0 cs] eqn:E.
  - destruct cells; discriminate.
  - rewrite <- E, last_snoc, drop_last_snoc. simpl Str.is_empty. cbv iota.
    f_equal. clear - Hstrip. induction Hstrip; simpl; congruence.
Qed.

Lemma removelast_Forall {A} (P : A -> Prop) l : Forall P l -> Forall P (removelast l).
Proof.
  induction 1 as [|x l Hx Hl IH]; simpl; auto.
  destruct l; auto.
Qed.

(** What [parse_table_row] returns: trimmed pieces of the line, none of
    which holds a pipe. *)
Lemma parse_table_row_cells line cells :
  parse_table_row line = Some cells ->
  Forall (fun c => Str.free_of (Ascii.eqb pipe) c = true) cells /\
  Forall (fun c => Str.strip c = c) cells.
Proof.
  unfold parse_table_row.
  destruct (negb (Str.startswith "|" (Str.strip line))); [discriminate|].
  intros H. injection H as <-.
  set (parts0 := Str.split pipe (Str.strip line)).
  assert (H0 : Forall (fun p => Str.free_of (Ascii.eqb pipe) p = true) parts0)
    by apply split_by_free.
  set (parts1 := match parts0 with
                 | p0 :: tl => if Str.is_empty (Str.strip p0) then tl else parts0
                 | [] => parts0 end).
  assert (H1 : Forall (fun p => Str.free_of (Ascii.eqb pipe) p = true) parts1).
  { subst parts1. destruct parts0 as [|p0 tl]; auto.
    destruct (Str.is_empty (Str.strip p0)); auto. now inversion H0. }
  set (parts2 := match parts1 with
                 | _ :: _ => if Str.is_empty (Str.strip (last_elt parts1))
                             then drop_last parts1 else parts1
                 | [] => parts1 end).
  assert (H2 : Forall (fun p => Str.free_of (Ascii.eqb pipe) p = true) parts2).
  { subst parts2. destruct parts1 as [|p1 tl]; auto.
    destruct (Str.is_empty _); auto. now apply removelast_Forall. }
  clearbody parts2. clear - H2. split.
  - induction H2; simpl; constructor; auto. now apply strip_free.
  - induction parts2; simpl; constructor; auto using strip_idem.
    apply IHparts2. now inversion H2.
Qed.

End RowParser.

Section BarePipe.

Lemma rstrip_lstrip_empty s :
  Str.rstrip (Str.lstrip s) = "" -> Str.rstrip s = "".
Proof.
  induction s as [|c s IH]; simpl; auto.
  destruct (Str.is_space c) eqn:Ec.
  - intros H. now rewrite (IH H).
  - intros H. simpl in H. now rewrite Ec in H.
Qed.

Lemma split_by_singleton d s p :
  Str.split_by d s = [p] -> p = s.
Proof.
  revert p. induction s as [|c s IH]; simpl; intros p H.
  - congruence.
  - destruct (d c).
    + exfalso. injection H as _ H. now apply split_by_nonempty in H.
    + destruct (Str.split_by d s) as [|h t] eqn:E.
      * now apply split_by_nonempty in E.
      * injection H as <- ->. now rewrite (IH h eq_refl).
Qed.

Lemma map_strip_nil (l : list string) : map Str.strip l = [] -> l = [].
Proof. now destruct l. Qed.

Lemma startswith_pipe s :
  Str.startswith "|" s = true -> exists rest, s = String "|" rest.
Proof.
  destruct s as [|c rest]; [discriminate|].
  unfold Str.startswith. cbn [String.prefix].
  destruct (ascii_dec "|" c) as [<-|]; [eauto | discriminate].
Qed.

(** The only accepted line with no cell at all is the bare pipe. *)
Lemma parse_table_row_nil line :
  parse_table_row line = Some [] <-> Str.strip line = "|".
Proof.
  split.
  - unfold parse_table_row.
    assert (Hid : Str.rstrip (Str.strip line) = Str.strip line)
      by apply rstrip_idem.
    destruct (Str.startswith "|" (Str.strip line)) eqn:Hsw; [|discriminate].
    apply startswith_pipe in Hsw as [rest Hrest]. rewrite Hrest in *.
    simpl negb. cbv iota.
    change (Str.split pipe (String "|" rest))
      with ("" :: Str.split_by (Ascii.eqb pipe) rest).
    simpl Str.is_empty. cbv iota.
    destruct (Str.split_by (Ascii.eqb pipe) rest) as [|p ps] eqn:E.
    { now apply split_by_nonempty in E. }
    destruct (Str.is_empty (Str.strip (last_elt (p :: ps)))) eqn:El;
      intros H; injection H as H; [|discriminate].
    apply map_strip_nil in H.
    unfold drop_last in H. destruct ps as [|p' ps'].
      * apply split_by_singleton in E. subst p.
        unfold last_elt in El. simpl in El.
        destruct (Str.strip rest) eqn:Es; [|discriminate].
        apply rstrip_lstrip_empty in Es.
        simpl in Hid. rewrite Es in Hid. simpl in Hid. congruence.
      * simpl in H. destruct ps'; discriminate.
  - intros H. unfold parse_table_row. rewrite H. reflexivity.
Qed.

End BarePipe.

(** ** The row parser: round trip *)

(** C4, as stated, fails: the bare pipe is accepted as a row with no cell,
    and the row rebuilt from no cell parses to one empty cell. *)
Lemma parse_table_row_round_trip_bare_pipe :
  parse_table_row "|" = Some [] /\
  parse_table_row (rejoin_row []) = Some [""] /\
  parse_table_row (rejoin_row []) <> Some [].
Proof. repeat split; discriminate. Qed.

(** C4, amended: for every line that [parse_table_row] accepts with at
    least one cell, joining the returned cells with the pipe, adding the
    outer pipes and parsing again returns the same cell list; and the only
    accepted lines with no cell are those whose trimmed text is the bare
    pipe. *)
Theorem parse_table_row_round_trip line cells :
  parse_table_row line = Some cells ->
  (cells <> [] -> parse_table_row (rejoin_row cells) = Some cells) /\
  (cells = [] <-> Str.strip line = "|").
Proof.
  intros H. split.
  - intros Hne. destruct (parse_table_row_cells _ _ H) as [Hfree Hstrip].
    now apply parse_rejoin.
  - rewrite <- parse_table_row_nil, H. split; congruence.
Qed.

Lemma parse_table_row_round_trip_witness :
  parse_table_row "  | F1 |  P0 | Incorporated (Option B) |" =
    Some ["F1"; "P0"; "Incorporated (Option B)"] /\
  parse_table_row (rejoin_row ["F1"; "P0"; "Incorporated (Option B)"]) =
    Some ["F1"; "P0"; "Incorporated (Option B)"].
Proof.
  split; [reflexivity|].
  apply (parse_table_row_round_trip
           "  | F1 |  P0 | Incorporated (Option B) |"
           ["F1"; "P0"; "Incorporated (Option B)"]);
    [reflexivity | discriminate].
Defined.

(** ** The value classifier and normalizer *)

Section Classifier.

Import Aggregator.

Lemma mem_In x l : Str.mem x l = true <-> In x l.
Proof.
  unfold Str.mem. rewrite existsb_exists. split.
  - intros [y [Hy Heq]]. apply String.eqb_eq in Heq. now subst.
  - intros H. exists x. split; auto. apply String.eqb_refl.
Qed.

(** The loop over the parts returns the first trimmed part of the set. *)
Lemma first_recognized_find parts :
  first_recognized parts =
  find (fun p => Str.mem p RECOGNIZED_SEVERITIES) (map Str.strip parts).
Proof.
  induction parts as [|p rest IH]; [reflexivity|].
  cbn [first_recognized map find].
  destruct (Str.mem (Str.strip p) RECOGNIZED_SEVERITIES); auto.
Qed.

(** Every recognized severity is already trimmed. *)
Lemma recognized_severity_trimmed p :
  Str.mem p RECOGNIZED_SEVERITIES = true -> Str.strip p = p.
Proof.
  rewrite mem_In. unfold RECOGNIZED_SEVERITIES. simpl.
  intros H. repeat (destruct H as [<-|H]; [reflexivity|]). contradiction.
Qed.

Lemma find_some_In {A} (f : A -> bool) l x :
  In x l -> f x = true -> exists y, find f l = Some y.
Proof.
  induction l as [|a l IH]; simpl; [contradiction|].
  intros [->|Hin] Hx.
  - rewrite Hx. eauto.
  - destruct (f a); eauto.
Qed.

End Classifier.

(** C7: after trimming and lowercasing, [classify_severity] accepts a value
    that is verbatim in the recognized set; otherwise it splits the value on
    [/] and [,] and accepts the first part that, once trimmed, is in the
    set, and rejects the value when there is none.  In particular a part
    that is in the set as it stands makes the value accepted, and
    ["P0/Blocker"] is accepted as ["p0"] and normalized to ["P0"]. *)
Theorem classify_severity_first_part val :
  let v := Str.lower (Str.strip val) in
  classify_severity val =
    (if Str.mem v RECOGNIZED_SEVERITIES then (true, v)
     else match find (fun p => Str.mem p RECOGNIZED_SEVERITIES)
                       (map Str.strip (split_compound v)) with
          | Some p => (true, p)
          | None => (false, v)
          end) /\
  (forall p, In p (split_compound v) ->
             Str.mem p RECOGNIZED_SEVERITIES = true ->
             fst (classify_severity val) = true) /\
  classify_severity "P0/Blocker" = (true, "p0") /\
  Aggregator.normalize_severity "P0/Blocker" = "P0".
Proof.
  intros v. assert (Heq : classify_severity val =
    (if Str.mem v RECOGNIZED_SEVERITIES then (true, v)
     else match find (fun p => Str.mem p RECOGNIZED_SEVERITIES)
                       (map Str.strip (split_compound v)) with
          | Some p => (true, p)
          | None => (false, v)
          end)).
  { unfold classify_severity. fold v. now rewrite first_recognized_find. }
  split; [exact Heq|]. split; [|split; reflexivity].
  intros p Hin Hp. rewrite Heq.
  destruct (Str.mem v RECOGNIZED_SEVERITIES); [reflexivity|].
  destruct (find_some_In (fun p => Str.mem p RECOGNIZED_SEVERITIES)
              (map Str.strip (split_compound v)) p) as [y ->]; auto.
  rewrite <- (recognized_severity_trimmed p Hp). now apply in_map.
Qed.

Lemma classify_severity_first_part_witness :
  In "high" (split_compound (Str.lower (Str.strip " unclear,High "))) /\
  Str.mem "high" RECOGNIZED_SEVERITIES = true /\
  fst (classify_severity " unclear,High ") = true.
Proof.
  assert (Hin : In "high" (split_compound (Str.lower (Str.strip " unclear,High "))))
    by (right; left; reflexivity).
  assert (Hmem : Str.mem "high" RECOGNIZED_SEVERITIES = true) by reflexivity.
  split; [exact Hin|]. split; [exact Hmem|].
  exact (proj1 (proj2 (classify_severity_first_part " unclear,High "))
           "high" Hin Hmem).
Defined.

(** C9: normalizing a canonical label returns it unchanged: each of P0,
    P1, P2, P3, Info, N/A under [normalize_severity], and each of
    Incorporated, Not Incorporated, Deferred, N/A under
    [normalize_disposition]. *)
Theorem normalize_canonical_unchanged :
  Forall (fun label => Aggregator.normalize_severity label = label)
         Aggregator.sev_order /\
  Forall (fun label => Aggregator.normalize_disposition label = label)
         Aggregator.disp_order.
Proof. split; repeat constructor. Qed.

Section Disposition.

Lemma prefix_cons a p s :
  String.prefix (String a p) s = true ->
  exists s', s = String a s' /\ String.prefix p s' = true.
Proof.
  destruct s as [|c s]; [discriminate|]. cbn [String.prefix].
  destruct (ascii_dec a c) as [<-|]; [eauto | discriminate].
Qed.

Lemma prefix_nil s : String.prefix "" s = true.
Proof. now destruct s. Qed.

(** A text that begins with ["no"] is none of the other disposition
    literals and does not begin with ["incorporate"]. *)
Lemma not_incorporated_tests v :
  Str.startswith "not incorporated" v = true ->
  v <> "not incorporated" ->
  Str.mem v ["incorporated"; "incorporate"] = false /\
  Str.startswith "incorporated" v = false /\
  Str.startswith "incorporate" v = false /\
  String.eqb v "not incorporated" = false /\
  String.eqb v "deferred" = false /\
  Str.mem v ["already present"; "acknowledged"] = false /\
  String.eqb v "n/a" = false /\
  Str.mem v RECOGNIZED_DISPOSITIONS = false.
Proof.
  intros Hpre Hne. apply String.eqb_neq in Hne.
  assert (Hmem : Str.mem v RECOGNIZED_DISPOSITIONS =
                 String.eqb v "not incorporated").
  { unfold Str.startswith in Hpre.
    apply prefix_cons in Hpre as [v1 [-> Hpre]].
    apply prefix_cons in Hpre as [v2 [-> Hpre]].
    unfold Str.mem, RECOGNIZED_DISPOSITIONS. cbn [existsb].
    set (x := String "n" (String "o" v2)) in *.
    replace (String.eqb x "incorporated") with false by reflexivity.
    replace (String.eqb x "incorporate") with false by reflexivity.
    replace (String.eqb x "deferred") with false by reflexivity.
    replace (String.eqb x "already present") with false by reflexivity.
    replace (String.eqb x "acknowledged") with false by reflexivity.
    replace (String.eqb x "n/a") with false by reflexivity.
    cbn [orb]. now rewrite orb_false_r. }
  unfold Str.startswith in Hpre.
  apply prefix_cons in Hpre as [v1 [E1 Hpre]].
  apply prefix_cons in Hpre as [v2 [E2 _]].
  rewrite Hmem. rewrite Hne. subst v v1.
  repeat split; reflexivity.
Qed.

End Disposition.

(** C2, where the code departs from it: a value whose trimmed, lowercased
    text begins with ["not incorporated"] and goes on, such as an annotated
    ["Not Incorporated (out of scope)"], is accepted by
    [classify_disposition] under the prefix ["not incorporated"], but
    [normalize_disposition] tests that text for equality only and returns
    the trimmed raw value instead of ["Not Incorporated"]. *)
Theorem normalize_disposition_annotated_not_incorporated raw :
  let v := Str.lower (Str.strip raw) in
  Str.startswith "not incorporated" v = true ->
  v <> "not incorporated" ->
  Aggregator.normalize_disposition raw = Str.strip raw /\
  classify_disposition raw = (true, "not incorporated").
Proof.
  intros v Hpre Hne.
  destruct (not_incorporated_tests v Hpre Hne)
    as (H1 & H2 & H3 & H4 & H5 & H6 & H7 & H8).
  split.
  - unfold Aggregator.normalize_disposition. fold v.
    now rewrite H1, H2, H4, H5, H6, H7.
  - unfold classify_disposition. fold v. rewrite H8.
    unfold DISPOSITION_PREFIXES. cbn [first_prefix].
    now rewrite H2, H3, Hpre.
Qed.

Lemma normalize_disposition_annotated_not_incorporated_witness :
  Aggregator.normalize_disposition "Not Incorporated (out of scope)" =
    "Not Incorporated (out of scope)" /\
  classify_disposition "Not Incorporated (out of scope)" =
    (true, "not incorporated").
Proof.
  apply (normalize_disposition_annotated_not_incorporated
           "Not Incorporated (out of scope)");
    [reflexivity | discriminate].
Defined.

(** ** Loops that collect results *)

Section ForEach.

Context {A B : Type} (body : A -> option (list B)).

Lemma for_each_app xs ys :
  for_each body (xs ++ ys) =
  (out <- for_each body xs ;; more <- for_each body ys ;; Some (out ++ more)%list).
Proof.
  induction xs as [|x xs IH]; simpl.
  - destruct (for_each body ys); reflexivity.
  - destruct (body x) as [o|]; simpl; auto. rewrite IH.
    destruct (for_each body xs) as [o1|]; simpl; auto.
    destruct (for_each body ys) as [o2|]; simpl; auto.
    now rewrite app_assoc.
Qed.

(** An element whose body appends nothing can be left out. *)
Lemma for_each_skip xs x ys :
  body x = Some [] -> for_each body (xs ++ x :: ys) = for_each body (xs ++ ys).
Proof.
  intros Hx. rewrite !for_each_app. simpl. rewrite Hx. simpl.
  destruct (for_each body xs); simpl; auto.
  destruct (for_each body ys); reflexivity.
Qed.

End ForEach.

(** ** The validator *)

Section ValidatorFacts.

Import Validator.

Lemma validate_table_rows_irrelevant t rs :
  header_cells t <> [] ->
  (find_column_index (header_cells t) ["severity"] = None \/
   find_column_index (header_cells t) ["disposition"] = None) ->
  validate_table (with_rows t rs) = validate_table t.
Proof.
  intros Hne Hmiss. unfold validate_table. simpl.
  destruct (header_cells t) as [|h hs]; [congruence|].
  destruct (find_column_index (h :: hs) ["severity"]),
           (find_column_index (h :: hs) ["disposition"]);
    try reflexivity.
  destruct Hmiss; discriminate.
Qed.

End ValidatorFacts.

(** C5, as stated, fails: a table with the columns Finding and Summary
    lacks the Disposition column and yields two structural errors, one for
    each missing mandatory column. *)
Lemma validate_table_missing_both_columns :
  let lines := ["## Round 1 Review Disposition";
                "| Finding | Summary |";
                "|---|---|";
                "| F1 | text |"] in
  exists t,
    find_disposition_tables lines = [t] /\
    header_cells t <> [] /\
    find_column_index (header_cells t) ["disposition"] = None /\
    Validator.validate_table t =
      Some [Validator.Missing_Severity_column (Validator.Round_label 1) 1
              ["Finding"; "Summary"];
            Validator.Missing_Disposition_column (Validator.Round_label 1) 1
              ["Finding"; "Summary"]].
Proof.
  eexists. split; [reflexivity|]. repeat split. discriminate.
Qed.

(** C5, amended: for every table with header cells none of which resolves
    to the disposition role, [validate_table] returns structural errors
    only, the same whatever the rows are: one error for the missing
    Disposition column, preceded by one for the missing Severity column when
    no header cell resolves to severity either. *)
Theorem validate_table_missing_disposition t :
  header_cells t <> [] ->
  find_column_index (header_cells t) ["disposition"] = None ->
  Validator.validate_table t =
    Some ((match find_column_index (header_cells t) ["severity"] with
           | None => [Validator.Missing_Severity_column
                        (Validator.round_label t) (section_header_line t + 1)
                        (header_cells t)]
           | Some _ => []
           end)
          ++ [Validator.Missing_Disposition_column
                (Validator.round_label t) (section_header_line t + 1)
                (header_cells t)])%list /\
  (forall rs, Validator.validate_table (with_rows t rs) =
              Validator.validate_table t).
Proof.
  intros Hne Hdisp. split.
  - unfold Validator.validate_table.
    destruct (header_cells t) as [|h hs] eqn:E; [congruence|].
    rewrite Hdisp.
    destruct (find_column_index (h :: hs) ["severity"]); reflexivity.
  - intros rs. apply validate_table_rows_irrelevant; auto.
Qed.

Lemma validate_table_missing_disposition_witness :
  let t := {| round := Some 2%Z; header_line := 5; section_header_line := 4;
              header_cells := ["Finding"; "Severity"; "Notes"];
              separator_line := Some 6;
              rows := [ {| line := 7; cells := ["F1"; "bogus"] |} ];
              col_count := 3 |} in
  Validator.validate_table t =
    Some [Validator.Missing_Disposition_column (Validator.Round_label 2) 5
            ["Finding"; "Severity"; "Notes"]].
Proof.
  intros t.
  exact (proj1 (validate_table_missing_disposition t
                  ltac:(discriminate) eq_refl)).
Defined.

Section MismatchedRows.

Import Validator Aggregator.

Lemma check_row_mismatch label expected s d row :
  List.length (cells row) <> expected ->
  check_row label expected s d row =
    Some [Expected_columns label (line row + 1) expected
            (List.length (cells row)) (Str.join "|" (cells row))].
Proof.
  intros H. unfold check_row.
  apply Nat.eqb_neq in H. now rewrite H.
Qed.

Lemma row_findings_mismatch fp r cc s d i1 i2 i3 i4 row :
  List.length (cells row) <> cc ->
  row_findings fp r cc s d i1 i2 i3 i4 row = Some [].
Proof.
  intros H. unfold row_findings.
  apply Nat.eqb_neq in H. now rewrite H.
Qed.

Lemma table_findings_with_rows fp r t rs :
  table_findings fp r (with_rows t rs) =
  match find_column_index (header_cells t) ["severity"],
        find_column_index (header_cells t) ["disposition"] with
  | Some s, Some d =>
      rows_findings fp r (col_count t) s d
        (find_column_index (header_cells t) ["summary"; "description"])
        (find_column_index (header_cells t) ["reviewer"])
        (find_column_index (header_cells t) ["notes"; "note"; "comments"; "comment"])
        (find_column_index (header_cells t) ["finding id"; "finding"; "#"; "id"])
        rs
  | _, _ => Some []
  end.
Proof. reflexivity. Qed.

Lemma with_rows_same t : with_rows t (rows t) = t.
Proof. now destruct t. Qed.

End MismatchedRows.

(** C6, as stated, fails for the validator: in a table that lacks a
    mandatory column the rows are not looked at, so a row with the wrong
    number of cells gets no error of its own; the only error is the
    structural one. *)
Lemma mismatched_row_without_error :
  let row := {| line := 3; cells := ["F1"; "P0"; "extra"; "cells"] |} in
  let t := {| round := Some 1%Z; header_line := 1; section_header_line := 0;
              header_cells := ["Finding"; "Severity"];
              separator_line := Some 2;
              rows := [row];
              col_count := 2 |} in
  find_disposition_tables
    ["## Round 1 Review Disposition";
     "| Finding | Severity |";
     "|---|---|";
     "| F1 | P0 | extra | cells |"] = [t] /\
  List.length (cells row) <> col_count t /\
  Validator.validate_table t =
    Some [Validator.Missing_Disposition_column (Validator.Round_label 1) 1
            ["Finding"; "Severity"]].
Proof. repeat split. discriminate. Qed.

(** C6, amended: take a row whose cell count differs from its table's
    column count.  When the table has header cells and both mandatory
    columns resolve, [validate_table] reports for that row exactly one
    error, the column-count error, between the errors of the rows before it
    and those of the rows after it, and classifies none of its cells.  When
    a mandatory column is missing the rows are not checked and the row gets
    no error.  In every case the aggregator produces no finding from the
    row: the table's findings are those of the table without it. *)
Theorem mismatched_row_never_partially_processed t pre row post :
  rows t = (pre ++ row :: post)%list ->
  List.length (cells row) <> col_count t ->
  header_cells t <> [] ->
  (forall s d,
     find_column_index (header_cells t) ["severity"] = Some s ->
     find_column_index (header_cells t) ["disposition"] = Some d ->
     Validator.validate_table t =
       (before <- Validator.check_rows (Validator.round_label t)
                    (col_count t) s d pre ;;
        after <- Validator.check_rows (Validator.round_label t)
                   (col_count t) s d post ;;
        Some (before
              ++ [Validator.Expected_columns (Validator.round_label t)
                    (line row + 1) (col_count t) (List.length (cells row))
                    (Str.join "|" (cells row))]
              ++ after)%list)) /\
  ((find_column_index (header_cells t) ["severity"] = None \/
    find_column_index (header_cells t) ["disposition"] = None) ->
   Validator.validate_table t =
     Validator.validate_table (with_rows t (pre ++ post))) /\
  (forall filepath round_num,
     Aggregator.table_findings filepath round_num t =
     Aggregator.table_findings filepath round_num (with_rows t (pre ++ post))).
Proof.
  intros Hrows Hlen Hne. split; [|split].
  - intros s d Hs Hd. unfold Validator.validate_table.
    destruct (header_cells t) as [|h hs] eqn:E; [congruence|].
    rewrite Hs, Hd, Hrows. unfold Validator.check_rows.
    rewrite for_each_app. cbn [for_each].
    rewrite check_row_mismatch by assumption.
    destruct (for_each _ pre) as [e1|]; simpl; auto.
    destruct (for_each _ post) as [e2|]; simpl; auto.
  - intros Hmiss. symmetry. now apply validate_table_rows_irrelevant.
  - intros fp r. rewrite <- (with_rows_same t) at 1.
    rewrite !table_findings_with_rows.
    destruct (find_column_index (header_cells t) ["severity"]); auto.
    destruct (find_column_index (header_cells t) ["disposition"]); auto.
    rewrite Hrows. unfold Aggregator.rows_findings.
    apply for_each_skip. now apply row_findings_mismatch.
Qed.

Lemma mismatched_row_never_partially_processed_witness :
  let r1 := {| line := 3; cells := ["F1"; "P9"; "Incorporated"] |} in
  let r2 := {| line := 4; cells := ["F2"; "bogus"] |} in
  let r3 := {| line := 5; cells := ["F3"; "P1"; "Deferred"] |} in
  let t := {| round := Some 1%Z; header_line := 1; section_header_line := 0;
              header_cells := ["Finding"; "Severity"; "Disposition"];
              separator_line := Some 2;
              rows := [r1; r2; r3];
              col_count := 3 |} in
  Validator.validate_table t =
    Some [Validator.Unrecognized_severity (Validator.Round_label 1) 4 "P9";
          Validator.Expected_columns (Validator.Round_label 1) 5 3 2 "F2|bogus"] /\
  Aggregator.table_findings "plan.md" 1%Z t =
    Aggregator.table_findings "plan.md" 1%Z (with_rows t [r1; r3]).
Proof.
  intros r1 r2 r3 t.
  destruct (mismatched_row_never_partially_processed t [r1] r2 [r3]
              eq_refl ltac:(discriminate) ltac:(discriminate))
    as (Hv & _ & Ha).
  split.
  - rewrite (Hv 1 2 eq_refl eq_refl). reflexivity.
  - exact (Ha "plan.md" 1%Z).
Defined.

(** ** The table locator *)

Section Locator.

Lemma data_rows_ge ls : forall i, i <= snd (data_rows i ls).
Proof.
  induction ls as [|l rest IH]; intros i; simpl; auto.
  destruct (parse_table_row l) as [row_cells|]; simpl; auto.
  specialize (IH (S i)).
  destruct (is_separator_row row_cells).
  - lia.
  - destruct (data_rows (S i) rest) as [rs j]. simpl in *. lia.
Qed.

Lemma skip_blank_ge lines i : i <= skip_blank lines i.
Proof. unfold skip_blank. lia. Qed.

(** What [heading_table] returns is either the headerless table, or a table
    with header cells, a separator line and a column count that is the
    number of header cells; the scan resumes after the heading. *)
Lemma heading_table_cases lines round_num i :
  let (t, j) := heading_table lines round_num i in
  i < j /\
  section_header_line t = i /\
  round t = round_num /\
  col_count t = List.length (header_cells t) /\
  (t = headerless_table round_num i \/
   (header_cells t <> [] /\ separator_line t <> None)).
Proof.
  unfold heading_table.
  pose proof (skip_blank_ge lines (S i)) as Hge.
  set (j := skip_blank lines (S i)) in *.
  destruct (nth_error lines j) as [hl|]; [|simpl; intuition lia].
  destruct (parse_table_row hl) as [[|h hs]|]; try (simpl; intuition lia).
  destruct (nth_error lines (S j)) as [sl|]; [|simpl; intuition lia].
  destruct (parse_table_row sl) as [[|c cs]|]; try (simpl; intuition lia).
  destruct (is_separator_row (c :: cs)); [|simpl; intuition lia].
  pose proof (data_rows_ge (skipn (S (S j)) lines) (S (S j))) as Hd.
  destruct (data_rows (S (S j)) (skipn (S (S j)) lines)) as [rs k].
  simpl in *. repeat split; try lia. right. split; discriminate.
Qed.

Lemma heading_table_next lines round_num i :
  i < snd (heading_table lines round_num i).
Proof.
  pose proof (heading_table_cases lines round_num i) as H.
  destruct (heading_table lines round_num i). simpl. tauto.
Qed.

(** Every table the loop records comes from [heading_table] at a heading
    at or after the index the loop started from. *)
Lemma tables_from_In fuel lines : forall i t,
  In t (tables_from fuel lines i) ->
  exists round_num j, i <= j /\ t = fst (heading_table lines round_num j).
Proof.
  induction fuel as [|fuel IH]; intros i t Hin; simpl in Hin; [contradiction|].
  destruct (nth_error lines i) as [l|]; [|contradiction].
  destruct (Re.match_ DISPOSITION_HEADER_RE l) as [m|].
  - pose proof (heading_table_next lines (extract_round_number m) i) as Hn.
    destruct (heading_table lines (extract_round_number m) i) as [t0 j] eqn:E.
    simpl in Hn. destruct Hin as [<-|Hin].
    + exists (extract_round_number m), i. rewrite E. auto.
    + apply IH in Hin as (r & j' & Hj & ->). exists r, j'. split; auto. lia.
  - apply IH in Hin as (r & j' & Hj & ->). exists r, j'. split; auto. lia.
Qed.

(** The loop needs no more fuel than there are lines left. *)
Lemma tables_from_fuel lines : forall fuel fuel' i,
  List.length lines <= fuel + i ->
  List.length lines <= fuel' + i ->
  tables_from fuel lines i = tables_from fuel' lines i.
Proof.
  induction fuel as [|fuel IH]; intros fuel' i H H'.
  - assert (Hnone : nth_error lines i = None)
      by (apply nth_error_None; lia).
    destruct fuel'; simpl; [reflexivity|]. now rewrite Hnone.
  - destruct fuel' as [|fuel'].
    + assert (Hnone : nth_error lines i = None)
        by (apply nth_error_None; lia).
      simpl. now rewrite Hnone.
    + simpl. destruct (nth_error lines i) as [l|]; [|reflexivity].
      destruct (Re.match_ DISPOSITION_HEADER_RE l) as [m|].
      * pose proof (heading_table_next lines (extract_round_number m) i) as Hn.
        destruct (heading_table lines (extract_round_number m) i) as [t j].
        simpl in Hn. f_equal. apply IH; lia.
      * apply IH; lia.
Qed.

(** One iteration of the loop, at full fuel. *)
Lemma tables_from_step lines i :
  tables_from (List.length lines) lines i =
  match nth_error lines i with
  | None => []
  | Some l =>
      match Re.match_ DISPOSITION_HEADER_RE l with
      | None => tables_from (List.length lines) lines (S i)
      | Some m =>
          let (table, j) := heading_table lines (extract_round_number m) i in
          table :: tables_from (List.length lines) lines j
      end
  end.
Proof.
  rewrite (tables_from_fuel lines (List.length lines) (S (List.length lines)) i)
    by lia.
  reflexivity.
Qed.

End Locator.

Section Headings.

Lemma lower_char_hash a :
  Ascii.eqb (Str.lower_char a) (Str.lower_char "#") = true -> a = "#"%char.
Proof.
  destruct a as [[] [] [] [] [] [] [] []]; vm_compute;
    intros H; (reflexivity || discriminate H).
Qed.

(** A pattern that begins with the literal [##] matches only a text that
    begins with [#]. *)
Lemma run_hash r rs l k g m :
  Re.run (Re.seqs (Re.lit_i "##" :: r :: rs)) l k g = Some m ->
  exists rest, l = String "#" rest.
Proof.
  cbn [Re.seqs Re.lit_i Re.run Re.chr_i].
  destruct l as [|a rest]; [discriminate|].
  destruct (Ascii.eqb (Str.lower_char a) (Str.lower_char "#")) eqn:Ha;
    [|discriminate].
  apply lower_char_hash in Ha. subst a. eauto.
Qed.

Lemma header_match_hash l m :
  Re.match_ DISPOSITION_HEADER_RE l = Some m -> exists rest, l = String "#" rest.
Proof. unfold Re.match_, DISPOSITION_HEADER_RE. apply run_hash. Qed.

Lemma strip_head c s :
  Str.is_space c = false -> exists r, Str.strip (String c s) = String c r.
Proof.
  intros Hc. unfold Str.strip. simpl. rewrite Hc. simpl.
  destruct (Str.rstrip s); rewrite ?Hc; eauto.
Qed.

(** A heading line is neither blank nor a table row. *)
Lemma heading_not_row l m :
  Re.match_ DISPOSITION_HEADER_RE l = Some m ->
  Str.is_empty (Str.strip l) = false /\ parse_table_row l = None.
Proof.
  intros H. apply header_match_hash in H as [rest ->].
  destruct (strip_head "#" rest eq_refl) as [r Hr].
  unfold parse_table_row. rewrite Hr. split; reflexivity.
Qed.

Lemma nth_error_skipn {A} (l : list A) : forall n x,
  nth_error l n = Some x -> exists tl, skipn n l = x :: tl.
Proof.
  induction l as [|a l IH]; intros [|n] x H; simpl in *; try discriminate.
  - injection H as ->. eauto.
  - eauto.
Qed.

Lemma skip_blank_stops lines i l :
  nth_error lines i = Some l -> Str.is_empty (Str.strip l) = false ->
  skip_blank lines i = i.
Proof.
  intros Hn Hl. unfold skip_blank.
  apply nth_error_skipn in Hn as [tl ->]. simpl. rewrite Hl. lia.
Qed.

(** The tables recorded from index [k] on belong to headings at or after
    line [k]. *)
Lemma tables_from_section fuel lines k t :
  In t (tables_from fuel lines k) -> k <= section_header_line t.
Proof.
  intros H. apply tables_from_In in H as (r & j & Hj & ->).
  pose proof (heading_table_cases lines r j) as Hc.
  destruct (heading_table lines r j). simpl. destruct Hc as (_ & -> & _). lia.
Qed.

End Headings.

(** ** Headerless tables *)

(** C8: every table [find_disposition_tables] produces with no header cell
    has no row and no separator line; [validate_table] returns no error for
    it, and in the aggregator's table loop it is skipped: the findings are
    those of the remaining tables, and the counter is left as it was. *)
Theorem headerless_table_invariant lines t :
  In t (find_disposition_tables lines) ->
  header_cells t = [] ->
  rows t = [] /\
  separator_line t = None /\
  Validator.validate_table t = Some [] /\
  (forall filepath unlabeled_round rest,
     Aggregator.tables_findings filepath unlabeled_round (t :: rest) =
     Aggregator.tables_findings filepath unlabeled_round rest).
Proof.
  intros Hin Hh. unfold find_disposition_tables in Hin.
  apply tables_from_In in Hin as (r & j & _ & ->).
  pose proof (heading_table_cases lines r j) as Hc.
  destruct (heading_table lines r j) as [t k]. simpl in *.
  destruct Hc as (_ & _ & _ & _ & [-> | [Hne _]]); [|contradiction].
  repeat split.
Qed.

Lemma headerless_table_invariant_witness :
  let lines := ["## Round 2 Review Disposition"; "## Next steps"] in
  find_disposition_tables lines = [headerless_table (Some 2%Z) 0] /\
  Validator.validate_file lines = Some (true, 1, []) /\
  Aggregator.parse_file_findings "plan.md" lines = Some [] /\
  rows (headerless_table (Some 2%Z) 0) = [].
Proof.
  intros lines. do 3 (split; [reflexivity|]).
  exact (proj1 (headerless_table_invariant lines
                  (headerless_table (Some 2%Z) 0)
                  (or_introl eq_refl) eq_refl)).
Defined.

(** ** Lines the locator steps over *)

Section Resume.

Lemma next_scanned_gt lines i j : next_scanned lines i = Some j -> i < j.
Proof.
  unfold next_scanned.
  destruct (nth_error lines i) as [l|]; [|discriminate].
  destruct (Re.match_ DISPOSITION_HEADER_RE l) as [m|].
  - intros H. injection H as <-. apply heading_table_next.
  - intros H. injection H as <-. lia.
Qed.

(** The tables recorded from index [i] on are the table of the iteration at
    [i], if line [i] is a heading, and then those recorded from the next
    index on. *)
Lemma tables_from_next lines i j :
  next_scanned lines i = Some j ->
  exists ts,
    tables_from (List.length lines) lines i =
      (ts ++ tables_from (List.length lines) lines j)%list /\
    Forall (fun t => section_header_line t = i) ts.
Proof.
  unfold next_scanned. rewrite tables_from_step.
  destruct (nth_error lines i) as [l|]; [|discriminate].
  destruct (Re.match_ DISPOSITION_HEADER_RE l) as [m|].
  - pose proof (heading_table_cases lines (extract_round_number m) i) as Hc.
    destruct (heading_table lines (extract_round_number m) i) as [t k].
    cbn [snd]. intros H. injection H as <-.
    exists [t]. split; [reflexivity|]. constructor; [tauto|constructor].
  - intros H. injection H as <-. exists []. split; [reflexivity|constructor].
Qed.

(** When the loop is at index [i], the tables it has recorded belong to
    headings before line [i], and the tables of the document are these and
    those recorded from [i] on. *)
Lemma scanned_tables lines i :
  scanned lines i ->
  exists pre,
    find_disposition_tables lines =
      (pre ++ tables_from (List.length lines) lines i)%list /\
    Forall (fun t => section_header_line t < i) pre.
Proof.
  induction 1 as [|i j Hi (pre & Heq & Hpre) Hj].
  - exists []. split; [reflexivity|constructor].
  - destruct (tables_from_next lines i j Hj) as (ts & Hts & Hsec).
    pose proof (next_scanned_gt lines i j Hj) as Hlt.
    exists (pre ++ ts)%list. split.
    + rewrite Heq, Hts. now rewrite app_assoc.
    + apply Forall_app. split.
      * eapply Forall_impl; [|exact Hpre]. cbv beta. intros t Ht. lia.
      * eapply Forall_impl; [|exact Hsec]. cbv beta. intros t Ht. lia.
Qed.

(** The loop does not visit an index between one it visits and the next. *)
Lemma scanned_gap lines : forall b,
  scanned lines b ->
  forall a j, scanned lines a -> next_scanned lines a = Some j -> a < b ->
              j <= b.
Proof.
  intros b. induction b as [b IH] using lt_wf_ind.
  intros Hb a j Ha Hj Hab.
  destruct Hb as [|b' b Hb' Hnext]; [lia|].
  pose proof (next_scanned_gt lines b' b Hnext) as Hlt.
  destruct (Nat.lt_trichotomy a b') as [H|[H|H]].
  - pose proof (IH b' Hlt Hb' a j Ha Hj H). lia.
  - subst a. rewrite Hj in Hnext. injection Hnext as ->. lia.
  - pose proof (IH a Hab Ha b' b Hb' Hnext H). lia.
Qed.

(** The loop visits every line up to the first heading. *)
Lemma scanned_before_heading lines : forall i,
  i <= List.length lines ->
  (forall k l, k < i -> nth_error lines k = Some l ->
               Re.match_ DISPOSITION_HEADER_RE l = None) ->
  scanned lines i.
Proof.
  induction i as [|i IH]; intros Hlen Hno; [constructor|].
  destruct (nth_error lines i) as [l|] eqn:El.
  - apply (scanned_step lines i (S i)).
    + apply IH; [lia|]. intros k l' Hk. apply Hno. lia.
    + unfold next_scanned. rewrite El, (Hno i l); [reflexivity|lia|exact El].
  - apply nth_error_None in El. lia.
Qed.

(** A heading at a visited index [i] for which the body of [if m:] falls
    through at line [k]: the headerless table is the table of the heading,
    line [k] is not visited, the loop goes on after it, and no table is
    recorded for it. *)
Lemma stepped_over lines i l m k :
  scanned lines i ->
  nth_error lines i = Some l ->
  Re.match_ DISPOSITION_HEADER_RE l = Some m ->
  heading_table lines (extract_round_number m) i =
    (headerless_table (extract_round_number m) i, S k) ->
  i < k ->
  In (headerless_table (extract_round_number m) i)
     (find_disposition_tables lines) /\
  (forall t, In t (find_disposition_tables lines) ->
             section_header_line t = i ->
             t = headerless_table (extract_round_number m) i) /\
  ~ scanned lines k /\
  scanned lines (S k) /\
  (forall t, In t (find_disposition_tables lines) ->
             section_header_line t <> k).
Proof.
  intros Hi Hl Hm Hh Hik.
  assert (Hnext : next_scanned lines i = Some (S k)).
  { unfold next_scanned. now rewrite Hl, Hm, Hh. }
  destruct (scanned_tables lines i Hi) as (pre & Heq & Hpre).
  rewrite tables_from_step, Hl, Hm, Hh in Heq.
  rewrite Forall_forall in Hpre.
  assert (Hcases : forall t, In t (find_disposition_tables lines) ->
            section_header_line t < i \/
            t = headerless_table (extract_round_number m) i \/
            S k <= section_header_line t).
  { intros t Ht. rewrite Heq in Ht. apply in_app_or in Ht.
    destruct Ht as [Ht|[Ht|Ht]].
    - left. now apply Hpre.
    - right. left. now symmetry.
    - right. right. now apply tables_from_section in Ht. }
  split; [|split; [|split; [|split]]].
  - rewrite Heq. apply in_or_app. right. now left.
  - intros t Ht Hsec. destruct (Hcases t Ht) as [H|[H|H]]; [lia|exact H|lia].
  - intros Hk. pose proof (scanned_gap lines k Hk i (S k) Hi Hnext Hik). lia.
  - exact (scanned_step lines i (S k) Hi Hnext).
  - intros t Ht. destruct (Hcases t Ht) as [H|[H|H]]; [lia| |lia].
    subst t. simpl. lia.
Qed.

End Resume.

(** C10, as stated, fails: of two headings on consecutive lines the first
    may itself be a line the loop has stepped over.  With three headings on
    consecutive lines the first gets the headerless table and the second is
    the failing line: for the headings on lines 1 and 2 it is the first that
    produces no table, and the second produces the table that follows it. *)
Lemma middle_heading_stepped_over :
  let lines := ["## Round 1 Review Disposition";
                "## Round 2 Review Disposition";
                "## Round 3 Review Disposition";
                "| Finding | Severity | Disposition |";
                "|---|---|---|";
                "| F1 | P0 | Incorporated |"] in
  (forall i, In i [0; 1; 2] ->
     exists l m, nth_error lines i = Some l /\
                 Re.match_ DISPOSITION_HEADER_RE l = Some m) /\
  find_disposition_tables lines =
    [ headerless_table (Some 1%Z) 0;
      {| round := Some 3%Z; header_line := 3; section_header_line := 2;
         header_cells := ["Finding"; "Severity"; "Disposition"];
         separator_line := Some 4;
         rows := [ {| line := 5; cells := ["F1"; "P0"; "Incorporated"] |} ];
         col_count := 3 |} ] /\
  (forall t, In t (find_disposition_tables lines) ->
             section_header_line t <> 1) /\
  (exists t, In t (find_disposition_tables lines) /\
             section_header_line t = 2 /\ rows t <> []).
Proof.
  intros lines.
  assert (Htables : find_disposition_tables lines =
    [ headerless_table (Some 1%Z) 0;
      {| round := Some 3%Z; header_line := 3; section_header_line := 2;
         header_cells := ["Finding"; "Severity"; "Disposition"];
         separator_line := Some 4;
         rows := [ {| line := 5; cells := ["F1"; "P0"; "Incorporated"] |} ];
         col_count := 3 |} ]) by (vm_compute; reflexivity).
  split; [|split; [exact Htables|split]].
  - intros i [<-|[<-|[<-|[]]]]; eexists _, _;
      (split; [reflexivity|vm_compute; reflexivity]).
  - rewrite Htables. intros t [<-|[<-|[]]]; simpl; lia.
  - rewrite Htables. eexists. split; [right; left; reflexivity|].
    split; [reflexivity|discriminate].
Qed.

(** C10, amended: let line [i] be a heading that the outer loop matches
    against the heading pattern, as it does every heading that has no
    heading before it, and let [j] be the first line after it that is not
    blank.  If line [j] does not parse as a row with cells, line [j] is the
    failing line; if it does but the next line is not a separator row, that
    next line is.  In both cases the headerless table is recorded for the
    heading, the failing line is never matched against the heading pattern,
    the loop goes on with the line after it, and no table of the document
    belongs to the failing line.  So when line [i + 1] is itself a heading,
    it is the failing line: the only table of the first heading is the
    headerless one and no table is recorded for the second one, whatever
    follows it. *)
Theorem failing_line_not_retested lines i l m :
  nth_error lines i = Some l ->
  Re.match_ DISPOSITION_HEADER_RE l = Some m ->
  let round_num := extract_round_number m in
  let j := skip_blank lines (S i) in
  let tables := find_disposition_tables lines in
  let stepped_over_at (k : nat) :=
    In (headerless_table round_num i) tables /\
    (forall t, In t tables -> section_header_line t = i ->
               t = headerless_table round_num i) /\
    ~ scanned lines k /\
    scanned lines (S k) /\
    (forall t, In t tables -> section_header_line t <> k) in
  ((forall k l', k < i -> nth_error lines k = Some l' ->
                 Re.match_ DISPOSITION_HEADER_RE l' = None) ->
   scanned lines i) /\
  (scanned lines i ->
   (forall hl,
      nth_error lines j = Some hl ->
      parse_table_row hl = None \/ parse_table_row hl = Some [] ->
      stepped_over_at j) /\
   (forall hl header_cells sl,
      nth_error lines j = Some hl ->
      parse_table_row hl = Some header_cells -> header_cells <> [] ->
      nth_error lines (S j) = Some sl ->
      (forall sep_cells, parse_table_row sl = Some sep_cells ->
                         sep_cells = [] \/ is_separator_row sep_cells = false) ->
      stepped_over_at (S j)) /\
   (forall l2 m2,
      nth_error lines (S i) = Some l2 ->
      Re.match_ DISPOSITION_HEADER_RE l2 = Some m2 ->
      stepped_over_at (S i))).
Proof.
  intros Hl Hm round_num j tables stepped_over_at.
  pose proof (skip_blank_ge lines (S i)) as Hge. fold j in Hge.
  split.
  { apply scanned_before_heading.
    apply Nat.lt_le_incl, nth_error_Some. congruence. }
  intros Hi.
  assert (Hfail : forall hl,
    nth_error lines j = Some hl ->
    parse_table_row hl = None \/ parse_table_row hl = Some [] ->
    stepped_over_at j).
  { intros hl Hhl Hp. apply (stepped_over lines i l m j Hi Hl Hm); [|lia].
    unfold heading_table. fold j. rewrite Hhl.
    destruct Hp as [-> | ->]; reflexivity. }
  split; [exact Hfail|]. split.
  - intros hl hc sl Hhl Hp Hne Hsl Hsep.
    apply (stepped_over lines i l m (S j) Hi Hl Hm); [|lia].
    unfold heading_table. fold j. rewrite Hhl, Hp.
    destruct hc as [|h hs]; [congruence|]. rewrite Hsl.
    destruct (parse_table_row sl) as [[|c cs]|]; try reflexivity.
    destruct (Hsep (c :: cs) eq_refl) as [H|H]; [discriminate|].
    now rewrite H.
  - intros l2 m2 Hl2 Hm2.
    destruct (heading_not_row l2 m2 Hm2) as [Hblank Hrow].
    assert (Hj : j = S i) by (apply (skip_blank_stops lines (S i) l2); auto).
    rewrite <- Hj. apply (Hfail l2); [now rewrite Hj | now left].
Qed.

Lemma failing_line_not_retested_witness :
  let lines := ["## Round 1 Review Disposition";
                "## Round 2 Review Disposition";
                "| Finding | Severity | Disposition |";
                "|---|---|---|";
                "| F1 | P0 | Incorporated |"] in
  find_disposition_tables lines = [headerless_table (Some 1%Z) 0] /\
  scanned lines 0 /\ ~ scanned lines 1 /\ scanned lines 2 /\
  forall t, In t (find_disposition_tables lines) -> section_header_line t <> 1.
Proof.
  intros lines. split; [reflexivity|].
  destruct (Re.match_ DISPOSITION_HEADER_RE "## Round 1 Review Disposition")
    as [m1|] eqn:E1; [|discriminate E1].
  destruct (Re.match_ DISPOSITION_HEADER_RE "## Round 2 Review Disposition")
    as [m2|] eqn:E2; [|discriminate E2].
  destruct (failing_line_not_retested lines 0 _ m1 eq_refl E1)
    as [Hfirst Hrest].
  assert (H0 : scanned lines 0).
  { apply Hfirst. intros k l' Hk. inversion Hk. }
  destruct (Hrest H0) as (_ & _ & Hnext).
  destruct (Hnext _ m2 eq_refl E2) as (_ & _ & Hnot & Hon & Hnone).
  split; [exact H0|]. split; [exact Hnot|]. split; [exact Hon|exact Hnone].
Defined.

(** ** Round numbers of unlabeled tables *)

Section Rounds.

Import Aggregator.

Lemma tables_findings_assigned fp tables : forall u,
  tables_findings fp u tables = collect_findings fp (assigned_rounds u tables).
Proof.
  induction tables as [|t rest IH]; intros u; [reflexivity|].
  cbn [tables_findings assigned_rounds].
  destruct (header_cells t); [apply IH|].
  unfold collect_findings. cbn [for_each]. fold (collect_findings fp).
  now rewrite IH.
Qed.

Lemma running_max_ge rounds : forall u, (u <= running_max u rounds)%Z.
Proof.
  unfold running_max. induction rounds as [|r rs IH]; intros u; simpl; [lia|].
  specialize (IH (Z.max u (r + 1))). lia.
Qed.

Lemma running_max_gt rounds : forall u,
  Forall (fun r => (r < running_max u rounds)%Z) rounds.
Proof.
  induction rounds as [|r rs IH]; intros u; constructor.
  - pose proof (running_max_ge rs (Z.max u (r + 1))).
    unfold running_max in *. simpl. lia.
  - apply IH.
Qed.

(** The round number of each listed table is the label of the table, or
    for a table without label the running maximum over the round numbers
    listed before it. *)
Lemma assigned_rounds_split tables : forall u pre t r post,
  assigned_rounds u tables = (pre ++ (t, r) :: post)%list ->
  r = table_round (running_max u (map snd pre)) t.
Proof.
  induction tables as [|t0 rest IH]; intros u pre t r post H.
  - destruct pre; discriminate.
  - cbn [assigned_rounds] in H. destruct (header_cells t0).
    + eapply IH; eauto.
    + destruct pre as [|[t1 r1] pre].
      * injection H as Ht Hr _. subst t r. reflexivity.
      * injection H as Ht Hr H. subst t1 r1. apply IH in H. exact H.
Qed.

Lemma assigned_rounds_tables tables : forall u,
  map fst (assigned_rounds u tables) =
  filter (fun t => match header_cells t with [] => false | _ => true end) tables.
Proof.
  induction tables as [|t rest IH]; intros u; [reflexivity|].
  cbn [assigned_rounds filter]. destruct (header_cells t); [apply IH|].
  simpl. now rewrite IH.
Qed.

Lemma for_each_Forall {A B} (P : B -> Prop) (body : A -> option (list B)) xs :
  (forall x out, body x = Some out -> Forall P out) ->
  forall out, for_each body xs = Some out -> Forall P out.
Proof.
  intros Hbody. induction xs as [|x xs IH]; simpl; intros out H.
  - injection H as <-. constructor.
  - destruct (body x) as [o|] eqn:Ex; [|discriminate]. simpl in H.
    destruct (for_each body xs) as [o'|]; [|discriminate]. simpl in H.
    injection H as <-. apply Forall_app. eauto.
Qed.

(** Every finding of a table carries the round number the loop gave the
    table. *)
Lemma table_findings_round fp r t fs :
  table_findings fp r t = Some fs -> Forall (fun f => f_round f = r) fs.
Proof.
  unfold table_findings.
  destruct (find_column_index (header_cells t) ["severity"]) as [s|];
    [|intros H; injection H as <-; constructor].
  destruct (find_column_index (header_cells t) ["disposition"]) as [d|];
    [|intros H; injection H as <-; constructor].
  unfold rows_findings. apply for_each_Forall.
  intros row out. unfold row_findings.
  destruct (negb _); [intros H; injection H as <-; constructor|].
  destruct (nth_error (cells row) s); [|discriminate]. simpl.
  destruct (nth_error (cells row) d); [|discriminate]. simpl.
  destruct (cell_or _ _ _); [|discriminate]. simpl.
  destruct (match find_column_index (header_cells t) ["reviewer"] with
            | Some i => option_map Some (nth_error (cells row) i)
            | None => Some None
            end); [|discriminate]. simpl.
  destruct (cell_or _ _ _); [|discriminate]. simpl.
  destruct (cell_or _ _ _); [|discriminate]. simpl.
  intros H. injection H as <-. repeat constructor.
Qed.

End Rounds.

(** C3, as stated, fails: the number of a table without label is not the
    next one unused among the retained tables.  A table that is skipped for
    its missing Disposition column has taken number 1 before the test of its
    columns, so the only table of the file that yields findings, which has
    no label either, gets number 2. *)
Lemma unlabeled_round_after_skipped_table :
  let lines := [ "## Review Disposition";
                 "| Severity | Notes |";
                 "|---|---|";
                 "| P1 | later |";
                 "";
                 "## Review Disposition";
                 "| Severity | Disposition |";
                 "|---|---|";
                 "| P1 | Deferred |" ] in
  exists skipped kept,
    find_disposition_tables lines = [skipped; kept] /\
    round skipped = None /\ round kept = None /\
    header_cells skipped = ["Severity"; "Notes"] /\
    find_column_index (header_cells skipped) ["disposition"] = None /\
    Aggregator.table_findings "plan.md" 1%Z skipped = Some [] /\
    Aggregator.retained_rows skipped = [] /\
    Aggregator.retained_rows kept =
      [ {| line := 8; cells := ["P1"; "Deferred"] |} ] /\
    option_map (map Aggregator.f_round)
      (Aggregator.parse_file_findings "plan.md" lines) = Some [2%Z].
Proof.
  intros lines. eexists _, _.
  split; [vm_compute; reflexivity|].
  split; [reflexivity|]. split; [reflexivity|].
  split; [reflexivity|]. split; [vm_compute; reflexivity|].
  split; [vm_compute; reflexivity|]. split; [vm_compute; reflexivity|].
  split; vm_compute; reflexivity.
Qed.

(** C3, amended: in the table loop of [parse_file_findings], the tables
    that pass the headerless test are numbered in document order, those
    that are skipped afterwards for a missing mandatory column included; the
    findings of each carry its number.  A table without label gets the
    running maximum, which starts at 1 and after each numbered table is at
    least one more than that table's number: so its number is at least 1 and
    greater than the number of every table with header cells before it,
    labeled or not, and the tables without label get strictly increasing
    numbers. *)
Theorem unlabeled_rounds_strictly_increase filepath tables :
  let assigned := Aggregator.assigned_rounds 1%Z tables in
  Aggregator.tables_findings filepath 1%Z tables =
    Aggregator.collect_findings filepath assigned /\
  map fst assigned =
    filter (fun t => match header_cells t with [] => false | _ => true end)
           tables /\
  (forall pre t r post,
     assigned = (pre ++ (t, r) :: post)%list ->
     (forall fs, Aggregator.table_findings filepath r t = Some fs ->
                 Forall (fun f => Aggregator.f_round f = r) fs) /\
     (round t = None ->
      r = Aggregator.running_max 1%Z (map snd pre) /\
      (1 <= r)%Z /\
      Forall (fun p => (snd p < r)%Z) pre)) /\
  (forall pre t1 r1 mid t2 r2 post,
     assigned = (pre ++ (t1, r1) :: mid ++ (t2, r2) :: post)%list ->
     round t2 = None -> (r1 < r2)%Z).
Proof.
  intros assigned.
  assert (Hunl : forall pre t r post,
    assigned = (pre ++ (t, r) :: post)%list -> round t = None ->
    r = Aggregator.running_max 1%Z (map snd pre) /\
    (1 <= r)%Z /\ Forall (fun p => (snd p < r)%Z) pre).
  { intros pre t r post H Hnone.
    apply assigned_rounds_split in H.
    unfold Aggregator.table_round in H. rewrite Hnone in H. subst r.
    split; [reflexivity|]. split; [apply running_max_ge|].
    pose proof (running_max_gt (map snd pre) 1%Z) as HF.
    rewrite Forall_map in HF. exact HF. }
  split; [apply tables_findings_assigned|].
  split; [apply assigned_rounds_tables|]. split.
  - intros pre t r post H. split.
    + intros fs. apply table_findings_round.
    + now apply (Hunl pre t r post).
  - intros pre t1 r1 mid t2 r2 post H Hnone.
    change (pre ++ (t1, r1) :: mid ++ (t2, r2) :: post)%list
      with (pre ++ ((t1, r1) :: mid) ++ (t2, r2) :: post)%list in H.
    rewrite app_assoc in H.
    destruct (Hunl _ _ _ _ H Hnone) as (_ & _ & HF).
    rewrite Forall_forall in HF.
    apply (HF (t1, r1)). apply in_or_app. right. now left.
Qed.

Lemma unlabeled_rounds_strictly_increase_witness :
  let unlabeled := {| round := None; header_line := 1; section_header_line := 0;
                      header_cells := ["Severity"; "Disposition"];
                      separator_line := Some 2;
                      rows := [ {| line := 3; cells := ["P1"; "Deferred"] |} ];
                      col_count := 2 |} in
  let labeled := {| round := Some 5%Z; header_line := 6; section_header_line := 5;
                    header_cells := ["Severity"; "Notes"];
                    separator_line := Some 7; rows := []; col_count := 2 |} in
  Aggregator.assigned_rounds 1%Z [unlabeled; labeled; unlabeled] =
    [(unlabeled, 1%Z); (labeled, 5%Z); (unlabeled, 6%Z)] /\
  (1 < 6)%Z.
Proof.
  intros unlabeled labeled. split; [reflexivity|].
  exact (proj2 (proj2 (proj2
           (unlabeled_rounds_strictly_increase "plan.md"
              [unlabeled; labeled; unlabeled])))
           [] unlabeled 1%Z [(labeled, 5%Z)] unlabeled 6%Z []
           eq_refl eq_refl).
Defined.

(** ** Dictionaries *)

Section DictFacts.

Import Aggregator.

Context {K V : Type} (eqb : K -> K -> bool).
Hypothesis eqb_eq : forall a b, eqb a b = true <-> a = b.

Lemma eqb_refl_true k : eqb k k = true.
Proof. now apply eqb_eq. Qed.

Lemma eqb_neq_false a b : a <> b -> eqb a b = false.
Proof.
  intros H. destruct (eqb a b) eqn:E; auto. apply eqb_eq in E. contradiction.
Qed.

Lemma dict_get_update_same (dflt : V) f k d :
  dict_get eqb (dict_update eqb dflt f k d) k =
  Some (f (match dict_get eqb d k with Some v => v | None => dflt end)).
Proof.
  induction d as [|[k' v] d IH]; simpl.
  - now rewrite eqb_refl_true.
  - destruct (eqb k k') eqn:E; simpl; rewrite E; auto.
Qed.

Lemma dict_get_update_other (dflt : V) f k k' d :
  k' <> k ->
  dict_get eqb (dict_update eqb dflt f k d) k' = dict_get eqb d k'.
Proof.
  intros Hne. induction d as [|[k0 v] d IH]; simpl.
  - now rewrite eqb_neq_false.
  - destruct (eqb k k0) eqn:E; simpl.
    + apply eqb_eq in E. subst k0. now rewrite eqb_neq_false.
    + now rewrite IH.
Qed.

Lemma keys_update (dflt : V) f k d k' :
  In k' (keys (dict_update eqb dflt f k d)) <-> k' = k \/ In k' (keys d).
Proof.
  unfold keys. induction d as [|[k0 v] d IH]; simpl.
  - intuition.
  - destruct (eqb k k0) eqn:E; simpl.
    + apply eqb_eq in E. subst. intuition.
    + rewrite IH. intuition.
Qed.

Lemma keys_update_NoDup (dflt : V) f k d :
  NoDup (keys d) -> NoDup (keys (dict_update eqb dflt f k d)).
Proof.
  unfold keys. induction d as [|[k0 v] d IH]; simpl; intros H.
  - constructor; [simpl; tauto | constructor].
  - inversion H as [|? ? Hnotin Hnd]; subst.
    destruct (eqb k k0) eqn:E; simpl.
    + now constructor.
    + constructor; [|now apply IH].
      intros Hin. apply (keys_update dflt f k d k0) in Hin.
      destruct Hin as [->|Hin]; [|contradiction].
      now rewrite eqb_refl_true in E.
Qed.

Lemma dict_get_keys d k :
  In k (keys d) <-> exists v : V, dict_get eqb d k = Some v.
Proof.
  unfold keys. induction d as [|[k0 v] d IH]; simpl.
  - split; [contradiction | intros [v H]; discriminate].
  - destruct (eqb k k0) eqn:E.
    + apply eqb_eq in E. subst. split; eauto.
    + rewrite <- IH. split; [|tauto].
      intros [->|H]; auto. now rewrite eqb_refl_true in E.
Qed.

End DictFacts.

(** ** Counting per round *)

Section PerRound.

Import Aggregator.

Local Open Scope Z_scope.

Lemma count_round_cons rnd f fs :
  count_round rnd (f :: fs) =
  (if Z.eqb (f_round f) rnd then 1 else 0) + count_round rnd fs.
Proof.
  unfold count_round. simpl. destruct (Z.eqb (f_round f) rnd); simpl length; lia.
Qed.

Lemma count_round_nonneg rnd fs : 0 <= count_round rnd fs.
Proof. unfold count_round. lia. Qed.

Lemma count_round_pos rnd fs :
  (exists f, In f fs /\ f_round f = rnd) -> 0 < count_round rnd fs.
Proof.
  intros (f & Hin & Hr). induction fs as [|g fs IH]; [contradiction|].
  rewrite count_round_cons. pose proof (count_round_nonneg rnd fs).
  destruct Hin as [->|Hin].
  - rewrite Hr, Z.eqb_refl. lia.
  - specialize (IH Hin). destruct (Z.eqb (f_round g) rnd); lia.
Qed.

(** After the counting loop, the total of each round is what it was plus
    the number of findings of that round; the rounds with an entry are
    those that had one and those of the findings; no round has two. *)
Lemma count_findings_per_round fs : forall acc,
  let acc' := fold_left count_finding fs acc in
  (forall rnd, rs_total (round_stats (acc_per_round acc') rnd) =
               rs_total (round_stats (acc_per_round acc) rnd)
               + count_round rnd fs) /\
  (forall rnd, In rnd (keys (acc_per_round acc')) <->
               In rnd (keys (acc_per_round acc)) \/
               exists f, In f fs /\ f_round f = rnd) /\
  (NoDup (keys (acc_per_round acc)) -> NoDup (keys (acc_per_round acc'))).
Proof.
  induction fs as [|f fs IH]; intros acc; cbn [fold_left].
  - repeat split; auto.
    + unfold count_round. simpl. lia.
    + intros [H | (f & [] & _)]; auto.
  - destruct (IH (count_finding acc f)) as (Ht & Hk & Hn). repeat split.
    + intros rnd. rewrite Ht, count_round_cons.
      generalize (count_round rnd fs). intros n.
      unfold round_stats, count_finding. cbn [acc_per_round].
      destruct (Z.eq_dec rnd (f_round f)) as [->|Hne].
      * rewrite (dict_get_update_same Z.eqb Z.eqb_eq), Z.eqb_refl.
        cbn [rs_total].
        destruct (dict_get Z.eqb (acc_per_round acc) (f_round f));
          cbn [rs_total new_round_stats]; lia.
      * rewrite (dict_get_update_other Z.eqb Z.eqb_eq) by assumption.
        assert (E : Z.eqb (f_round f) rnd = false) by (apply Z.eqb_neq; congruence).
        rewrite E. lia.
    + rewrite Hk. unfold count_finding. cbn [acc_per_round].
      rewrite (keys_update Z.eqb Z.eqb_eq).
      intros [[->|H] | (g & Hg & Hr)]; auto.
      * right. exists f. split; auto. now left.
      * right. exists g. split; auto. now right.
    + rewrite Hk. unfold count_finding. cbn [acc_per_round].
      rewrite (keys_update Z.eqb Z.eqb_eq).
      intros [H | (g & [->|Hg] & Hr)]; auto.
      right. exists g. auto.
    + intros Hnd. apply Hn. unfold count_finding. cbn [acc_per_round].
      now apply (keys_update_NoDup Z.eqb Z.eqb_eq).
Qed.

End PerRound.

(** ** Sorting the rounds *)

Section Sorting.

Import Aggregator.

Local Open Scope Z_scope.

Lemma insert_sorted_In x l y : In y (insert_sorted x l) <-> y = x \/ In y l.
Proof.
  induction l as [|a l IH]; simpl.
  - intuition.
  - destruct (x <=? a); simpl; rewrite ?IH; intuition.
Qed.

Lemma sorted_In l y : In y (sorted l) <-> In y l.
Proof.
  induction l as [|a l IH]; simpl; [tauto|].
  rewrite insert_sorted_In, IH. intuition.
Qed.

Lemma insert_sorted_strict x l :
  StronglySorted Z.lt l -> ~ In x l -> StronglySorted Z.lt (insert_sorted x l).
Proof.
  induction 1 as [|a l Hs IH Ha]; intros Hx; simpl.
  - repeat constructor.
  - destruct (x <=? a) eqn:E.
    + apply Z.leb_le in E.
      assert (Hlt : x < a) by (simpl in Hx; lia).
      constructor; [now constructor|].
      constructor; auto.
      rewrite Forall_forall in *. intros y Hy. specialize (Ha y Hy). lia.
    + apply Z.leb_gt in E. constructor.
      * apply IH. simpl in Hx. tauto.
      * rewrite Forall_forall in *. intros y Hy.
        apply insert_sorted_In in Hy as [->|Hy]; auto.
Qed.

(** [sorted] arranges distinct integers in strictly ascending order. *)
Lemma sorted_strict l : NoDup l -> StronglySorted Z.lt (sorted l).
Proof.
  induction 1 as [|a l Ha Hnd IH]; simpl; [constructor|].
  apply insert_sorted_strict; auto. now rewrite sorted_In.
Qed.

End Sorting.

(** ** The convergence table *)

Section Convergence.

Import Aggregator.

Lemma convergence_rows_rounds pr rounds : forall prev,
  map c_round (convergence_rows pr prev rounds) = rounds.
Proof.
  induction rounds as [|r rs IH]; intros prev; simpl; [reflexivity|].
  now rewrite IH.
Qed.

Lemma convergence_rows_total pr rounds : forall prev,
  Forall (fun c => c_total c = rs_total (round_stats pr (c_round c)))
         (convergence_rows pr prev rounds).
Proof.
  induction rounds as [|r rs IH]; intros prev; simpl; constructor; auto.
Qed.

Lemma convergence_rows_head pr prev rounds c rest :
  convergence_rows pr prev rounds = c :: rest ->
  c_trend c = trend_of prev (c_total c).
Proof.
  destruct rounds as [|r rs]; simpl; [discriminate|].
  intros H. injection H as <- _. reflexivity.
Qed.

(** The trend of a row after the first compares its total with the total
    of the row just before it. *)
Lemma convergence_rows_adjacent pr rounds : forall prev pre p c post,
  convergence_rows pr prev rounds = (pre ++ p :: c :: post)%list ->
  c_trend c = trend_of (Some (c_total p)) (c_total c).
Proof.
  induction rounds as [|r rs IH]; intros prev pre p c post H.
  - destruct pre; discriminate.
  - cbn [convergence_rows] in H. destruct pre as [|x pre].
    + injection H as Hp H. subst p. cbn [c_total].
      now apply convergence_rows_head in H.
    + injection H as _ H. now apply IH in H.
Qed.

End Convergence.

(** [round_half_even] gives the integer the format specification asks
    for. *)
Lemma round_half_even_nearest m e :
  Aggregator.nearest_integer_ties_even m e (Aggregator.round_half_even m e).
Proof.
  unfold Aggregator.nearest_integer_ties_even, Aggregator.round_half_even.
  destruct (0 <=? e)%Z eqn:He; [reflexivity|].
  apply Z.leb_gt in He.
  assert (Hd : (0 < 2 ^ (- e))%Z) by (apply Z.pow_pos_nonneg; lia).
  cbv zeta.
  generalize dependent (2 ^ (- e))%Z. intros d Hd.
  pose proof (Z.div_mod (Zpos m) d ltac:(lia)) as Hdm.
  pose proof (Z.mod_pos_bound (Zpos m) d Hd) as Hr.
  set (q := (Zpos m / d)%Z) in *. set (r := (Zpos m mod d)%Z) in *.
  assert (Hq : (q * d = Zpos m - r)%Z) by lia.
  destruct (Z.compare_spec (2 * r) d) as [C|C|C].
  - destruct (Z.even q) eqn:Ev.
    + rewrite Hq. split; [lia|]. intros _. exact Ev.
    + replace ((q + 1) * d)%Z with (q * d + d)%Z by ring. rewrite Hq.
      split; [lia|]. intros _.
      change (q + 1)%Z with (Z.succ q). rewrite Z.even_succ, <- Z.negb_even, Ev.
      reflexivity.
  - rewrite Hq. split; [lia | intros; exfalso; lia].
  - replace ((q + 1) * d)%Z with (q * d + d)%Z by ring. rewrite Hq.
    split; [lia | intros; exfalso; lia].
Qed.

(** The format specification leaves no choice: one integer is nearest. *)
Lemma nearest_integer_ties_even_unique m e n1 n2 :
  Aggregator.nearest_integer_ties_even m e n1 ->
  Aggregator.nearest_integer_ties_even m e n2 ->
  n1 = n2.
Proof.
  unfold Aggregator.nearest_integer_ties_even.
  destruct (0 <=? e)%Z eqn:He; [congruence|].
  apply Z.leb_gt in He.
  assert (Hd : (0 < 2 ^ (- e))%Z) by (apply Z.pow_pos_nonneg; lia).
  cbv zeta. generalize dependent (2 ^ (- e))%Z. intros d Hd.
  assert (Hstep : forall a b,
             (2 * Z.abs (a * d - Zpos m) <= d)%Z ->
             ((2 * Z.abs (a * d - Zpos m) = d)%Z -> Z.even a = true) ->
             (2 * Z.abs (b * d - Zpos m) <= d)%Z ->
             ((2 * Z.abs (b * d - Zpos m) = d)%Z -> Z.even b = true) ->
             (a < b)%Z -> False).
  { intros a b Ha Ea Hb Eb Hab.
    assert (Hmul : (a * d + d <= b * d)%Z).
    { replace (a * d + d)%Z with ((a + 1) * d)%Z by ring.
      apply Z.mul_le_mono_nonneg_r; lia. }
    assert (Hb1 : (b * d = (a + 1) * d)%Z)
      by (replace ((a + 1) * d)%Z with (a * d + d)%Z by ring; lia).
    apply Z.mul_reg_r in Hb1; [|lia]. subst b.
    replace ((a + 1) * d)%Z with (a * d + d)%Z in Hb, Eb by ring.
    specialize (Ea ltac:(lia)). specialize (Eb ltac:(lia)).
    change (a + 1)%Z with (Z.succ a) in Eb.
    rewrite Z.even_succ, <- Z.negb_even, Ea in Eb. discriminate. }
  intros [H1 E1] [H2 E2].
  destruct (Z.lt_trichotomy n1 n2) as [Hlt|[Heq|Hgt]]; [|exact Heq|].
  - destruct (Hstep n1 n2 H1 E1 H2 E2 Hlt).
  - destruct (Hstep n2 n1 H2 E2 H1 E1 Hgt).
Qed.

Lemma printed_0f_unique x a b :
  Aggregator.printed_0f x a -> Aggregator.printed_0f x b -> a = b.
Proof.
  intros Ha Hb. destruct Ha; inversion Hb; subst; try reflexivity.
  f_equal. f_equal. f_equal. f_equal.
  eapply nearest_integer_ties_even_unique; eassumption.
Qed.

(** [format_0f] prints what the format specification asks for. *)
Lemma format_0f_printed x :
  Aggregator.printed_0f (Prim2SF x) (Aggregator.format_0f x).
Proof.
  unfold Aggregator.format_0f.
  destruct (Prim2SF x) as [s|s| |s m e].
  - destruct s; [exact (Aggregator.printed_zero true)
                |exact (Aggregator.printed_zero false)].
  - destruct s; [exact (Aggregator.printed_infinity true)
                |exact (Aggregator.printed_infinity false)].
  - constructor.
  - apply Aggregator.printed_finite, round_half_even_nearest.
Qed.

(** C1: the convergence series of [aggregate_findings] lists the observed
    round numbers in ascending order, each once, with the number of findings
    of the round as its total.  The first row has no trend.  The trend of
    every later row comes from the percentage change against the row just
    before it, the binary64 value of
    [((total - prev_total) / prev_total) * 100], written here with the
    floating-point operations themselves: a down arrow with the absolute
    value when the change is at most zero, an up arrow with the value when
    it is positive, followed by a percent sign.  The value is printed with
    no decimals: its digits are those of the integer nearest to it, the even
    one at a tie ([printed_0f]).  In the loop that builds the rows a previous
    total that is not positive gives no trend. *)
Theorem convergence_series findings :
  let conv := Aggregator.convergence (Aggregator.aggregate_findings findings) in
  StronglySorted Z.lt (map Aggregator.c_round conv) /\
  (forall rnd, In rnd (map Aggregator.c_round conv) <->
               exists f, In f findings /\ Aggregator.f_round f = rnd) /\
  Forall (fun c => Aggregator.c_total c =
                     Aggregator.count_round (Aggregator.c_round c) findings /\
                   (0 < Aggregator.c_total c)%Z) conv /\
  (forall c rest, conv = c :: rest -> Aggregator.c_trend c = "—") /\
  (forall pre p c post,
     conv = (pre ++ p :: c :: post)%list ->
     let float := fun n : Z => SF2Prim (binary_normalize prec emax n 0 false) in
     let pct :=
       PrimFloat.mul
         (PrimFloat.div
            (float (Aggregator.c_total c - Aggregator.c_total p)%Z)
            (float (Aggregator.c_total p)))
         (float 100%Z) in
     let down := PrimFloat.leb pct (float 0%Z) in
     exists digits,
       Aggregator.printed_0f
         (Prim2SF (if down then PrimFloat.abs pct else pct)) digits /\
       Aggregator.c_trend c =
         (if down then "↓" else "↑") ++ digits ++ "%") /\
  (forall per_round prev_total rounds c rest,
     (prev_total <= 0)%Z ->
     Aggregator.convergence_rows per_round (Some prev_total) rounds = c :: rest ->
     Aggregator.c_trend c = "—").
Proof.
  intros conv.
  destruct (count_findings_per_round findings
              {| Aggregator.acc_per_round := [];
                 Aggregator.acc_per_file := [];
                 Aggregator.acc_overall := Aggregator.new_overall |})
    as (Ht & Hk & Hn).
  cbn [Aggregator.acc_per_round] in Ht, Hk, Hn.
  fold (Aggregator.count_findings findings) in Ht, Hk, Hn.
  set (pr := Aggregator.acc_per_round (Aggregator.count_findings findings)) in *.
  assert (Hconv : conv = Aggregator.convergence_rows pr None
                           (Aggregator.sorted (Aggregator.keys pr)))
    by reflexivity.
  assert (Hrounds : map Aggregator.c_round conv =
                    Aggregator.sorted (Aggregator.keys pr))
    by (rewrite Hconv; apply convergence_rows_rounds).
  assert (Hobs : forall rnd, In rnd (map Aggregator.c_round conv) <->
                   exists f, In f findings /\ Aggregator.f_round f = rnd).
  { intros rnd. rewrite Hrounds, sorted_In, Hk. simpl. tauto. }
  assert (Htot : Forall (fun c => Aggregator.c_total c =
                     Aggregator.count_round (Aggregator.c_round c) findings /\
                   (0 < Aggregator.c_total c)%Z) conv).
  { pose proof (convergence_rows_total pr (Aggregator.sorted (Aggregator.keys pr))
                  None) as HF.
    rewrite <- Hconv in HF. rewrite Forall_forall in *.
    intros c Hc. specialize (HF c Hc). rewrite HF, Ht.
    change (Aggregator.rs_total (Aggregator.round_stats [] (Aggregator.c_round c)))
      with 0%Z.
    rewrite Z.add_0_l. split; [reflexivity|].
    apply count_round_pos. apply Hobs. now apply in_map. }
  split.
  { rewrite Hrounds. apply sorted_strict. apply Hn. constructor. }
  split; [exact Hobs|]. split; [exact Htot|]. split; [|split].
  - intros c rest Hc. rewrite Hconv in Hc.
    now apply convergence_rows_head in Hc.
  - intros pre p c post Hc float pct down.
    assert (Hp : (0 < Aggregator.c_total p)%Z).
    { rewrite Forall_forall in Htot. apply Htot. rewrite Hc.
      apply in_or_app. right. now left. }
    rewrite Hconv in Hc. apply convergence_rows_adjacent in Hc.
    rewrite Hc. unfold Aggregator.trend_of.
    apply Z.ltb_lt in Hp. rewrite Hp.
    change (Aggregator.pct_change (Aggregator.c_total c) (Aggregator.c_total p))
      with pct.
    change (Aggregator.float_of_int 0) with (float 0%Z).
    fold down. cbv zeta.
    destruct down.
    + eexists. split; [apply format_0f_printed|reflexivity].
    + eexists. split; [apply format_0f_printed|reflexivity].
  - intros per_round prev rounds c rest Hprev Hc.
    apply convergence_rows_head in Hc. rewrite Hc.
    unfold Aggregator.trend_of.
    assert (E : (0 <? prev)%Z = false) by (apply Z.ltb_ge; lia).
    now rewrite E.
Qed.

Lemma convergence_series_witness :
  let findings :=
    (repeat (Aggregator.finding_of "b.md" 2%Z "P1" "Deferred") 4
     ++ repeat (Aggregator.finding_of "a.md" 1%Z "P0" "Incorporated") 10)%list in
  let conv := Aggregator.convergence (Aggregator.aggregate_findings findings) in
  map Aggregator.c_round conv = [1%Z; 2%Z] /\
  map Aggregator.c_total conv = [10%Z; 4%Z] /\
  map Aggregator.c_trend conv = ["—"; "↓60%"].
Proof.
  intros findings conv.
  destruct (convergence_series findings) as (_ & _ & _ & Hfirst & Hnext & _).
  fold conv in Hfirst, Hnext.
  assert (Hconv : exists p c, conv = [p; c] /\
                              Aggregator.c_round p = 1%Z /\
                              Aggregator.c_round c = 2%Z /\
                              Aggregator.c_total p = 10%Z /\
                              Aggregator.c_total c = 4%Z).
  { eexists _, _. split; [vm_compute; reflexivity|].
    split; [reflexivity|]. split; [reflexivity|].
    split; reflexivity. }
  destruct Hconv as (p & c & Hpc & Hrp & Hrc & Htp & Htc).
  pose proof (Hfirst p [c] Hpc) as H1.
  pose proof (Hnext [] p c [] Hpc) as H2.
  rewrite Htp, Htc in H2. cbv zeta in H2.
  destruct H2 as (digits & Hdigits & H2).
  set (down := PrimFloat.leb _ _) in Hdigits, H2.
  assert (Hdown : down = true) by (vm_compute; reflexivity).
  rewrite Hdown in Hdigits, H2.
  pose proof (printed_0f_unique _ _ _ Hdigits (format_0f_printed _)) as Hd.
  assert (H60 : digits = "60") by (rewrite Hd; vm_compute; reflexivity).
  rewrite Hpc. cbn [map]. rewrite Hrp, Hrc, Htp, Htc, H1, H2, H60.
  split; [reflexivity|]. split; reflexivity.
Defined.

(** * Further properties of the code *)

(** ** The locator: where tables and rows come from *)

Section LocatorLayout.

Lemma nth_error_skipn_shift {A} (l : list A) : forall n k,
  nth_error (skipn n l) k = nth_error l (n + k).
Proof.
  induction l as [|a l IH]; intros [|n] k; simpl; auto.
  now destruct k.
Qed.

(** The rows [data_rows] returns, for the lines [ls] that start at index
    [i]: each row is the parse of its own line and is not a separator; the
    row lines ascend from [i]; the loop stops at the end of the lines or at
    a line that is not a row. *)
Lemma data_rows_spec ls : forall i rs j,
  data_rows i ls = (rs, j) ->
  Forall (fun r => i <= line r < j /\
                   exists l, nth_error ls (line r - i) = Some l /\
                             parse_table_row l = Some (cells r) /\
                             is_separator_row (cells r) = false) rs /\
  StronglySorted lt (map line rs) /\
  i <= j <= i + List.length ls /\
  (forall l, nth_error ls (j - i) = Some l -> parse_table_row l = None).
Proof.
  induction ls as [|l rest IH]; intros i rs j H; simpl in H.
  - injection H as <- <-. repeat split; try constructor; simpl; try lia.
    intros l. rewrite Nat.sub_diag. discriminate.
  - destruct (parse_table_row l) as [row_cells|] eqn:Ep.
    + destruct (is_separator_row row_cells) eqn:Es.
      * destruct (IH _ _ _ H) as (HF & HS & Hj & Hstop).
        repeat split; auto; simpl; try lia.
        -- eapply Forall_impl; [|exact HF]. intros r [Hr (l0 & Hl0 & Hp)].
           split; [lia|]. exists l0. split; auto.
           replace (line r - i) with (S (line r - S i)) by lia. exact Hl0.
        -- intros l0. replace (j - i) with (S (j - S i)) by lia. apply Hstop.
      * destruct (data_rows (S i) rest) as [rs' j'] eqn:Ed.
        injection H as <- <-.
        destruct (IH _ _ _ Ed) as (HF & HS & Hj & Hstop).
        repeat split; simpl; try lia.
        -- constructor.
           ++ simpl. split; [lia|]. exists l. rewrite Nat.sub_diag. auto.
           ++ eapply Forall_impl; [|exact HF]. intros r [Hr (l0 & Hl0 & Hp)].
              split; [lia|]. exists l0. split; auto.
              replace (line r - i) with (S (line r - S i)) by lia. exact Hl0.
        -- constructor; auto. rewrite Forall_map.
           eapply Forall_impl; [|exact HF]. simpl. intros r [Hr _]. lia.
        -- intros l0. replace (j' - i) with (S (j' - S i)) by lia. apply Hstop.
    + injection H as <- <-. repeat split; try constructor; simpl; try lia.
      intros l0. rewrite Nat.sub_diag. simpl. intros H. injection H as <-. auto.
Qed.

Lemma count_blank_spec ls :
  count_blank ls <= List.length ls /\
  (forall k l, k < count_blank ls -> nth_error ls k = Some l ->
               Str.strip l = "") /\
  (forall l, nth_error ls (count_blank ls) = Some l -> Str.strip l <> "").
Proof.
  induction ls as [|a ls (IH1 & IH2 & IH3)]; simpl.
  - repeat split; auto; try lia. intros l H. discriminate.
  - destruct (Str.is_empty (Str.strip a)) eqn:E; simpl.
    + repeat split; try lia.
      * intros [|k] l Hk Hl; simpl in Hl.
        -- injection Hl as <-. now destruct (Str.strip a).
        -- apply (IH2 k); auto. lia.
      * exact IH3.
    + repeat split; try lia.
      intros l H. injection H as <-. intros Hs. now rewrite Hs in E.
Qed.

End LocatorLayout.

Section LocatedTables.

Lemma heading_table_layout lines round_num i :
  let t := fst (heading_table lines round_num i) in
  header_cells t <> [] -> table_layout lines t.
Proof.
  unfold heading_table.
  destruct (count_blank_spec (skipn (S i) lines)) as (_ & Hblank & _).
  pose proof (skip_blank_ge lines (S i)) as Hge.
  unfold skip_blank in *.
  set (j := S i + count_blank (skipn (S i) lines)) in *.
  destruct (nth_error lines j) as [hl|] eqn:Ehl; [|simpl; congruence].
  destruct (parse_table_row hl) as [[|h hs]|] eqn:Ep; try (simpl; congruence).
  destruct (nth_error lines (S j)) as [sl|] eqn:Esl; [|simpl; congruence].
  destruct (parse_table_row sl) as [[|c cs]|] eqn:Eps; try (simpl; congruence).
  destruct (is_separator_row (c :: cs)) eqn:Es; [|simpl; congruence].
  destruct (data_rows (S (S j)) (skipn (S (S j)) lines)) as [rs k] eqn:Ed.
  apply data_rows_spec in Ed as (HF & HS & _ & _).
  intros _. unfold table_layout.
  cbn [section_header_line header_line header_cells separator_line rows fst].
  split; [lia|]. split.
  { intros k0 l [Hk1 Hk2] Hl. apply (Hblank (k0 - S i)); [unfold j in *; lia|].
    rewrite nth_error_skipn_shift. now replace (S i + (k0 - S i)) with k0 by lia. }
  split; [eauto|]. split; [reflexivity|]. split.
  { exists sl, (c :: cs). repeat split; auto. discriminate. }
  split; [|exact HS].
  eapply Forall_impl; [|exact HF]. intros r [Hr (l & Hl & Hp & Hs)].
  split; [lia|]. exists l. split; auto.
  rewrite nth_error_skipn_shift in Hl.
  now replace (S (S j) + (line r - S (S j))) with (line r) in Hl by lia.
Qed.

Lemma tables_from_heading fuel lines : forall i t,
  In t (tables_from fuel lines i) ->
  exists round_num j, i <= j /\ heading_at lines j round_num /\
                      t = fst (heading_table lines round_num j).
Proof.
  induction fuel as [|fuel IH]; intros i t Hin; simpl in Hin; [contradiction|].
  destruct (nth_error lines i) as [l|] eqn:El; [|contradiction].
  destruct (Re.match_ DISPOSITION_HEADER_RE l) as [m|] eqn:Em.
  - pose proof (heading_table_next lines (extract_round_number m) i) as Hn.
    destruct (heading_table lines (extract_round_number m) i) as [t0 j] eqn:E.
    simpl in Hn. destruct Hin as [<-|Hin].
    + exists (extract_round_number m), i. rewrite E.
      split; [lia|]. split; [|reflexivity]. exists l, m. auto.
    + apply IH in Hin as (r & j' & Hj & Hh & ->). exists r, j'.
      split; [lia|]. auto.
  - apply IH in Hin as (r & j' & Hj & Hh & ->). exists r, j'.
    split; [lia|]. auto.
Qed.

End LocatedTables.

(** X1: every table [find_disposition_tables] returns belongs to a line that
    matches the heading pattern and carries the round number extracted from
    it; its column count is the number of its header cells; it is either
    the headerless record of that heading or a table laid out below the
    heading: only blank lines before the header row, the separator row on
    the line after it, and data rows that are the parses of later lines, in
    ascending order, none of them a separator. *)
Theorem located_table_layout lines t :
  In t (find_disposition_tables lines) ->
  heading_at lines (section_header_line t) (round t) /\
  col_count t = List.length (header_cells t) /\
  (header_cells t = [] ->
   t = headerless_table (round t) (section_header_line t)) /\
  (header_cells t <> [] -> table_layout lines t).
Proof.
  intros Hin. unfold find_disposition_tables in Hin.
  apply tables_from_heading in Hin as (r & j & _ & Hh & ->).
  pose proof (heading_table_cases lines r j) as Hc.
  pose proof (heading_table_layout lines r j) as Hl.
  destruct (heading_table lines r j) as [t k]. simpl in *.
  destruct Hc as (_ & Hs & Hr & Hcc & Hcase). subst j r.
  split; [exact Hh|]. split; [exact Hcc|]. split; [|exact Hl].
  intros Hnil. destruct Hcase as [-> | [Hne _]]; [reflexivity | contradiction].
Qed.

Lemma located_table_layout_witness :
  let lines := ["## 15) Round 3 Review Disposition"; "";
                "| Finding | Severity | Disposition |";
                "|:--|---|--:|";
                "| F1 | P0 | Incorporated |";
                "|---|---|---|";
                "| F2 | low | Deferred |";
                "text"] in
  exists t, find_disposition_tables lines = [t] /\
            round t = Some 3%Z /\
            header_line t = 2 /\
            map line (rows t) = [4; 6] /\
            table_layout lines t.
Proof.
  intros lines. eexists. split; [reflexivity|].
  do 3 (split; [reflexivity|]).
  refine (proj2 (proj2 (proj2 (located_table_layout lines _ (or_introl eq_refl)))) _).
  discriminate.
Defined.

Section DocumentOrder.

Lemma tables_from_sorted fuel lines : forall i,
  StronglySorted lt (map section_header_line (tables_from fuel lines i)).
Proof.
  induction fuel as [|fuel IH]; intros i; simpl; [constructor|].
  destruct (nth_error lines i) as [l|]; [|constructor].
  destruct (Re.match_ DISPOSITION_HEADER_RE l) as [m|]; [|apply IH].
  pose proof (heading_table_cases lines (extract_round_number m) i) as Hc.
  destruct (heading_table lines (extract_round_number m) i) as [t j].
  destruct Hc as (Hij & Hs & _). simpl. constructor; [apply IH|].
  rewrite Forall_map, Forall_forall. intros t' Ht'.
  apply tables_from_section in Ht'. lia.
Qed.

(** Lines that are not headings are stepped over one at a time. *)
Lemma tables_from_skip lines : forall n i,
  (forall k l, i <= k < i + n -> nth_error lines k = Some l ->
               Re.match_ DISPOSITION_HEADER_RE l = None) ->
  tables_from (List.length lines) lines i =
  tables_from (List.length lines) lines (i + n).
Proof.
  induction n as [|n IH]; intros i H.
  - now rewrite Nat.add_0_r.
  - rewrite tables_from_step.
    destruct (nth_error lines i) as [l|] eqn:El.
    + rewrite (H i l) by (auto; lia).
      replace (i + S n) with (S i + n) by lia. apply IH.
      intros k l' Hk. apply H. lia.
    + rewrite tables_from_step.
      assert (Hnone : nth_error lines (i + S n) = None).
      { apply nth_error_None. apply nth_error_None in El. lia. }
      now rewrite Hnone.
Qed.

End DocumentOrder.

(** X2: the tables of [find_disposition_tables] come in document order: their
    heading lines strictly ascend.  The first heading of the lines always
    gets the first table, and lines without any heading give no table. *)
Theorem tables_in_document_order lines :
  StronglySorted lt
    (map section_header_line (find_disposition_tables lines)) /\
  (forall i round_num,
     heading_at lines i round_num ->
     (forall k l, k < i -> nth_error lines k = Some l ->
                  Re.match_ DISPOSITION_HEADER_RE l = None) ->
     exists t rest, find_disposition_tables lines = t :: rest /\
                    section_header_line t = i /\ round t = round_num) /\
  ((forall l, In l lines -> Re.match_ DISPOSITION_HEADER_RE l = None) ->
   find_disposition_tables lines = []).
Proof.
  split; [apply tables_from_sorted|]. split.
  - intros i r (l & m & Hl & Hm & Hr) Hbefore.
    unfold find_disposition_tables.
    rewrite (tables_from_skip lines i 0)
      by (intros k l' Hk; apply Hbefore; lia).
    simpl. rewrite tables_from_step, Hl, Hm, Hr.
    pose proof (heading_table_cases lines r i) as Hc.
    destruct (heading_table lines r i) as [t j].
    destruct Hc as (_ & Hs & Hrt & _). eauto.
  - intros Hnone. unfold find_disposition_tables.
    rewrite (tables_from_skip lines (List.length lines) 0).
    + simpl. rewrite tables_from_step.
      assert (E : nth_error lines (List.length lines) = None)
        by (apply nth_error_None; lia).
      now rewrite E.
    + intros k l _ Hl. apply Hnone. eapply nth_error_In; eauto.
Qed.

Lemma tables_in_document_order_witness :
  let lines := ["# Plan"; "intro"; "## R2 Review Disposition"; "none";
                "## Review Disposition"] in
  map section_header_line (find_disposition_tables lines) = [2; 4] /\
  exists t rest, find_disposition_tables lines = t :: rest /\
                 section_header_line t = 2 /\ round t = Some 2%Z.
Proof.
  intros lines. split; [reflexivity|].
  destruct (Re.match_ DISPOSITION_HEADER_RE "## R2 Review Disposition")
    as [m|] eqn:E; [|discriminate E].
  apply (proj1 (proj2 (tables_in_document_order lines))).
  - exists "## R2 Review Disposition", m. repeat split; auto.
    vm_compute in E. injection E as <-. reflexivity.
  - intros [|[|k]] l Hk Hl; simpl in Hl; try lia;
      injection Hl as <-; reflexivity.
Defined.

(** ** The column resolver *)

Section Columns.

Lemma find_column_index_from_spec candidates headers : forall i,
  match find_column_index_from i headers candidates with
  | Some k =>
      i <= k /\
      (exists h, nth_error headers (k - i) = Some h /\
                 Str.mem (normalize_col_name h) candidates = true) /\
      (forall j h, j < k - i -> nth_error headers j = Some h ->
                   Str.mem (normalize_col_name h) candidates = false)
  | None =>
      forall h, In h headers ->
                Str.mem (normalize_col_name h) candidates = false
  end.
Proof.
  induction headers as [|h0 hs IH]; intros i; simpl; [tauto|].
  destruct (Str.mem (normalize_col_name h0) candidates) eqn:E.
  - rewrite Nat.sub_diag. split; [lia|]. split.
    + exists h0. split; [reflexivity | exact E].
    + intros j h Hj. lia.
  - specialize (IH (S i)).
    destruct (find_column_index_from (S i) hs candidates) as [k|].
    + destruct IH as (Hk & (h & Hh & Hm) & Hbefore).
      split; [lia|]. replace (k - i) with (S (k - S i)) by lia. split.
      * exists h. auto.
      * intros [|j] h' Hj Hh'; simpl in Hh'.
        -- now injection Hh' as <-.
        -- apply (Hbefore j); auto. lia.
    + intros h [<-|Hin]; auto.
Qed.

End Columns.

(** X3: [find_column_index] returns the index of the leftmost header cell
    whose trimmed, lowercased text is one of the candidates, and [None]
    exactly when no header cell is. *)
Theorem find_column_index_leftmost headers candidates :
  (forall k,
     find_column_index headers candidates = Some k <->
     (exists h, nth_error headers k = Some h /\
                Str.mem (normalize_col_name h) candidates = true) /\
     (forall j h, j < k -> nth_error headers j = Some h ->
                  Str.mem (normalize_col_name h) candidates = false)) /\
  (find_column_index headers candidates = None <->
   forall h, In h headers ->
             Str.mem (normalize_col_name h) candidates = false).
Proof.
  unfold find_column_index.
  pose proof (find_column_index_from_spec candidates headers 0) as H.
  destruct (find_column_index_from 0 headers candidates) as [k0|].
  - destruct H as (_ & (h0 & Hh0 & Hm0) & Hbefore).
    rewrite Nat.sub_0_r in *. split.
    + intros k. split.
      * intros E. injection E as <-. split; eauto.
      * intros [(h & Hh & Hm) Hb]. f_equal.
        destruct (Nat.lt_trichotomy k0 k) as [Hlt|[Heq|Hgt]]; auto.
        -- rewrite (Hb k0 h0 Hlt Hh0) in Hm0. discriminate.
        -- rewrite (Hbefore k h Hgt Hh) in Hm. discriminate.
    + split; [discriminate|]. intros Hall.
      apply nth_error_In in Hh0. rewrite (Hall h0 Hh0) in Hm0. discriminate.
  - split.
    + intros k. split; [discriminate|].
      intros [(h & Hh & Hm) _]. apply nth_error_In in Hh.
      rewrite (H h Hh) in Hm. discriminate.
    + tauto.
Qed.

Lemma find_column_index_leftmost_witness :
  find_column_index ["Finding"; " SEVERITY "; "Severity"; "Notes"] ["severity"]
  = Some 1.
Proof.
  apply (proj1 (find_column_index_leftmost
                  ["Finding"; " SEVERITY "; "Severity"; "Notes"] ["severity"])).
  split.
  - exists " SEVERITY ". split; reflexivity.
  - intros [|j] h Hj Hh; [|lia]. injection Hh as <-. reflexivity.
Defined.

(** ** No index out of range *)

Section InRange.

Import Validator Aggregator.

Lemma find_column_index_bound headers candidates k :
  find_column_index headers candidates = Some k -> k < List.length headers.
Proof.
  unfold find_column_index. intros H.
  pose proof (find_column_index_from_spec candidates headers 0) as Hs.
  rewrite H in Hs. destruct Hs as (_ & (h & Hh & _) & _).
  rewrite Nat.sub_0_r in Hh. apply nth_error_Some. congruence.
Qed.

Lemma nth_error_in_range {A} (l : list A) k :
  k < List.length l -> exists x, nth_error l k = Some x.
Proof.
  intros H. destruct (nth_error l k) eqn:E; eauto.
  apply nth_error_None in E. lia.
Qed.

Lemma check_row_total label cc s d row :
  s < cc -> d < cc ->
  exists errs, check_row label cc s d row = Some errs /\ List.length errs <= 2.
Proof.
  intros Hs Hd. unfold check_row.
  destruct (Nat.eqb (List.length (cells row)) cc) eqn:E; simpl.
  - apply Nat.eqb_eq in E.
    destruct (nth_error_in_range (cells row) s) as [sv ->]; [lia|].
    destruct (nth_error_in_range (cells row) d) as [dv ->]; [lia|].
    simpl. eexists. split; [reflexivity|].
    destruct (fst (classify_severity sv)), (fst (classify_disposition dv));
      simpl; lia.
  - eexists. split; [reflexivity|]. simpl. lia.
Qed.

Lemma for_each_total {A B} (body : A -> option (list B)) xs :
  Forall (fun x => exists out, body x = Some out) xs ->
  exists out, for_each body xs = Some out.
Proof.
  induction 1 as [|x xs [o Ho] _ [os IH]]; simpl; eauto.
  rewrite Ho, IH. simpl. eauto.
Qed.

Lemma validate_table_total t :
  col_count t = List.length (header_cells t) ->
  exists errs, validate_table t = Some errs.
Proof.
  intros Hcc. unfold validate_table.
  destruct (header_cells t) as [|h hs] eqn:Eh; eauto.
  destruct (find_column_index (h :: hs) ["severity"]) as [s|] eqn:Es; eauto.
  destruct (find_column_index (h :: hs) ["disposition"]) as [d|] eqn:Ed; eauto.
  apply find_column_index_bound in Es, Ed.
  unfold check_rows. apply for_each_total. rewrite Forall_forall.
  intros row _.
  destruct (check_row_total (round_label t) (col_count t) s d row)
    as (errs & -> & _); eauto; lia.
Qed.

Lemma cell_or_total cells idx dflt :
  (forall i, idx = Some i -> i < List.length cells) ->
  exists x, cell_or cells idx dflt = Some x.
Proof.
  intros H. destruct idx as [i|]; simpl; eauto.
  apply nth_error_in_range. auto.
Qed.

Lemma row_findings_total fp r cc s d i1 i2 i3 i4 row :
  s < cc -> d < cc ->
  (forall i, i1 = Some i -> i < cc) -> (forall i, i2 = Some i -> i < cc) ->
  (forall i, i3 = Some i -> i < cc) -> (forall i, i4 = Some i -> i < cc) ->
  exists fs, row_findings fp r cc s d i1 i2 i3 i4 row = Some fs /\
             List.length fs =
             if Nat.eqb (List.length (cells row)) cc then 1 else 0.
Proof.
  intros Hs Hd H1 H2 H3 H4. unfold row_findings.
  destruct (Nat.eqb (List.length (cells row)) cc) eqn:E; simpl; eauto.
  apply Nat.eqb_eq in E. rewrite <- E in *.
  destruct (nth_error_in_range (cells row) s Hs) as [sv ->].
  destruct (nth_error_in_range (cells row) d Hd) as [dv ->]. simpl.
  destruct (cell_or_total (cells row) i4 "" H4) as [x4 ->]. simpl.
  assert (Hrev : exists x, match i2 with
                           | Some i => option_map Some (nth_error (cells row) i)
                           | None => Some None
                           end = Some x).
  { destruct i2 as [i|]; eauto.
    destruct (nth_error_in_range (cells row) i (H2 i eq_refl)) as [x ->].
    simpl. eauto. }
  destruct Hrev as [x2 ->]. simpl.
  destruct (cell_or_total (cells row) i1 "" H1) as [x1 ->]. simpl.
  destruct (cell_or_total (cells row) i3 "" H3) as [x3 ->]. simpl.
  eauto.
Qed.

Lemma for_each_length {A B} (body : A -> option (list B)) (f : A -> bool) xs :
  Forall (fun x => exists out, body x = Some out /\
                               List.length out = if f x then 1 else 0) xs ->
  exists out, for_each body xs = Some out /\
              List.length out = List.length (filter f xs).
Proof.
  induction 1 as [|x xs (o & Ho & Hlen) _ (os & IH & IHlen)]; simpl; eauto.
  rewrite Ho, IH. simpl. eexists. split; [reflexivity|].
  rewrite length_app, Hlen, IHlen. destruct (f x); reflexivity.
Qed.

Lemma table_findings_total fp r t :
  col_count t = List.length (header_cells t) ->
  header_cells t <> [] ->
  exists fs, table_findings fp r t = Some fs /\
             List.length fs = List.length (retained_rows t).
Proof.
  intros Hcc Hne. unfold table_findings, retained_rows.
  destruct (header_cells t) as [|h hs] eqn:Eh; [congruence|].
  destruct (find_column_index (h :: hs) ["severity"]) as [s|] eqn:Es;
    [|eexists; split; reflexivity].
  destruct (find_column_index (h :: hs) ["disposition"]) as [d|] eqn:Ed;
    [|eexists; split; reflexivity].
  apply find_column_index_bound in Es, Ed.
  unfold rows_findings. apply for_each_length.
  rewrite Forall_forall. intros row _.
  apply row_findings_total; try lia;
    intros i Hi; apply find_column_index_bound in Hi; lia.
Qed.

Lemma tables_findings_total fp tables : forall u,
  Forall (fun t => col_count t = List.length (header_cells t)) tables ->
  exists fs, tables_findings fp u tables = Some fs /\
             List.length fs = List.length (flat_map retained_rows tables).
Proof.
  induction tables as [|t rest IH]; intros u H; simpl; eauto.
  inversion H as [|? ? Ht Hrest]; subst.
  destruct (header_cells t) as [|h hs] eqn:Eh.
  - destruct (IH u Hrest) as (fs & -> & Hlen). exists fs. split; auto.
    unfold retained_rows at 1. rewrite Eh. exact Hlen.
  - destruct (table_findings_total fp (table_round u t) t) as (f1 & -> & H1);
      [congruence | congruence |].
    destruct (IH (Z.max u (table_round u t + 1)) Hrest) as (f2 & -> & H2).
    simpl. eexists. split; [reflexivity|].
    now rewrite !length_app, H1, H2.
Qed.

Lemma located_col_count lines :
  Forall (fun t => col_count t = List.length (header_cells t))
         (find_disposition_tables lines).
Proof.
  rewrite Forall_forall. intros t Hin. unfold find_disposition_tables in Hin.
  apply tables_from_In in Hin as (r & j & _ & ->).
  pose proof (heading_table_cases lines r j) as Hc.
  destruct (heading_table lines r j). simpl. tauto.
Qed.

End InRange.

(** X4: [validate_file] never fails with an index out of range: on any lines
    it returns a verdict, the number of tables found by the locator, and
    the error list, and the verdict is a pass exactly when the list is
    empty.  Lines without a table pass with a count of zero. *)
Theorem validate_file_never_raises lines :
  exists passed errors,
    Validator.validate_file lines =
      Some (passed, List.length (find_disposition_tables lines), errors) /\
    (passed = true <-> errors = []) /\
    (find_disposition_tables lines = [] -> passed = true).
Proof.
  unfold Validator.validate_file.
  pose proof (located_col_count lines) as Hcc.
  destruct (find_disposition_tables lines) as [|t ts] eqn:E.
  - exists true, []. repeat split; auto.
  - destruct (for_each_total Validator.validate_table (t :: ts)) as [errs Herrs].
    { eapply Forall_impl; [|exact Hcc]. apply validate_table_total. }
    unfold Validator.validate_tables. rewrite Herrs. simpl.
    exists (Nat.eqb (List.length errs) 0), errs. split; [reflexivity|]. split.
    + rewrite Nat.eqb_eq. split.
      * intros H. now destruct errs.
      * intros ->. reflexivity.
    + discriminate.
Qed.

(** X5: [parse_file_findings] never fails with an index out of range: on any
    lines it returns findings, one for each row of a located table that has
    both mandatory columns and whose cell count is the column count. *)
Theorem parse_file_findings_never_raises filepath lines :
  exists findings,
    Aggregator.parse_file_findings filepath lines = Some findings /\
    List.length findings =
    List.length (flat_map Aggregator.retained_rows
                          (find_disposition_tables lines)).
Proof.
  unfold Aggregator.parse_file_findings.
  apply tables_findings_total. apply located_col_count.
Qed.

Section CleanTables.

Import Validator.

Lemma check_row_clean label cc s d row :
  check_row label cc s d row = Some [] <-> row_ok cc s d row.
Proof.
  unfold check_row, row_ok.
  destruct (Nat.eqb (List.length (cells row)) cc) eqn:E; simpl.
  - apply Nat.eqb_eq in E.
    destruct (nth_error (cells row) s) as [sv|]; simpl.
    + destruct (nth_error (cells row) d) as [dv|]; simpl.
      * destruct (fst (classify_severity sv)) eqn:Es,
                 (fst (classify_disposition dv)) eqn:Ed; simpl;
          (split; [intros H; try discriminate H;
                   split; auto; exists sv, dv; auto
                  | intros (_ & sv' & dv' & H1 & H2 & H3 & H4);
                    injection H1 as <-; injection H3 as <-; congruence]).
      * split; [discriminate|].
        intros (_ & sv' & dv' & _ & _ & H3 & _). discriminate.
    + split; [discriminate|].
      intros (_ & sv' & dv' & H1 & _). discriminate.
  - apply Nat.eqb_neq in E. split; [discriminate|]. intros [H _]. contradiction.
Qed.

Lemma for_each_nil {A B} (body : A -> option (list B)) xs :
  for_each body xs = Some [] <-> Forall (fun x => body x = Some []) xs.
Proof.
  induction xs as [|x xs IH]; simpl.
  - split; auto.
  - destruct (body x) as [o|] eqn:Ex; simpl.
    + destruct (for_each body xs) as [os|] eqn:Exs; simpl.
      * split.
        -- intros H. injection H as H. apply app_eq_nil in H as [-> ->].
           constructor; auto. now apply IH.
        -- intros H. inversion H as [|? ? Hx Hxs]; subst.
           rewrite Ex in Hx. injection Hx as ->.
           apply IH in Hxs. injection Hxs as ->. reflexivity.
      * split; [discriminate|]. intros H. inversion H as [|? ? _ Hxs]; subst.
        apply IH in Hxs. discriminate.
    + split; [discriminate|]. intros H. inversion H; congruence.
Qed.

End CleanTables.

(** X6: [validate_table] returns no error exactly for a table without header
    cells, and for a table in which both mandatory columns resolve and every
    row has the right number of cells, a recognized severity and a
    recognized disposition. *)
Theorem validate_table_clean_iff t :
  Validator.validate_table t = Some [] <->
  header_cells t = [] \/
  exists sev_idx disp_idx,
    find_column_index (header_cells t) ["severity"] = Some sev_idx /\
    find_column_index (header_cells t) ["disposition"] = Some disp_idx /\
    Forall (Validator.row_ok (col_count t) sev_idx disp_idx) (rows t).
Proof.
  unfold Validator.validate_table.
  destruct (header_cells t) as [|h hs] eqn:Eh.
  - split; auto.
  - destruct (find_column_index (h :: hs) ["severity"]) as [s|] eqn:Es.
    + destruct (find_column_index (h :: hs) ["disposition"]) as [d|] eqn:Ed.
      * unfold Validator.check_rows. rewrite for_each_nil. split.
        -- intros H. right. exists s, d. repeat split; auto.
           eapply Forall_impl; [|exact H]. intros row. apply check_row_clean.
        -- intros [H | (s' & d' & Hs & Hd & H)]; [discriminate|].
           injection Hs as <-. injection Hd as <-.
           eapply Forall_impl; [|exact H]. intros row. apply check_row_clean.
      * split; [discriminate|].
        intros [H | (s' & d' & _ & Hd & _)]; discriminate.
    + split.
      * destruct (find_column_index (h :: hs) ["disposition"]); discriminate.
      * intros [H | (s' & d' & Hs & _)]; discriminate.
Qed.

Lemma validate_table_clean_iff_witness :
  let lines := ["## Review Disposition";
                "| Finding | Severity | Disposition |";
                "|---|---|---|";
                "| F1 | P0 | Incorporated |"] in
  exists t, find_disposition_tables lines = [t] /\
            Validator.validate_table t = Some [].
Proof.
  intros lines. eexists. split; [reflexivity|].
  apply (proj2 (validate_table_clean_iff _)). right. exists 1, 2.
  split; [reflexivity|]. split; [reflexivity|].
  repeat constructor. exists "P0", "Incorporated". repeat split.
Defined.

(** ** Validator and aggregator on the same value *)

Section Agreement.

Import Aggregator.

Ltac case_eqb p :=
  repeat match goal with
         | |- context [String.eqb p ?lit] =>
             destruct (String.eqb p lit) eqn:?;
             cbn [orb existsb map_get]; rewrite ?orb_true_r;
             try reflexivity
         end.

(** The keys of [SEVERITY_MAP] are the recognized severities. *)
Lemma severity_map_keys p :
  Str.mem p RECOGNIZED_SEVERITIES =
  match map_get SEVERITY_MAP p with Some _ => true | None => false end.
Proof.
  unfold Str.mem, RECOGNIZED_SEVERITIES, SEVERITY_MAP.
  cbn [existsb map_get]. case_eqb p.
Qed.

Lemma severity_map_values p c :
  map_get SEVERITY_MAP p = Some c -> In c sev_order.
Proof.
  unfold SEVERITY_MAP. cbn [map_get].
  repeat match goal with
         | |- context [String.eqb p ?lit] =>
             destruct (String.eqb p lit);
             [intros H; injection H as <-; simpl; tauto|]
         end.
  discriminate.
Qed.

Lemma first_mapped_recognized parts :
  first_mapped parts =
  match first_recognized parts with
  | Some p => map_get SEVERITY_MAP p
  | None => None
  end.
Proof.
  induction parts as [|q rest IH]; [reflexivity|].
  cbn [first_mapped first_recognized].
  rewrite severity_map_keys.
  destruct (map_get SEVERITY_MAP (Str.strip q)) eqn:E; auto.
Qed.

(** For a value that is in the set as a whole, the parts loop of
    [normalize_severity] finds the same entry or none. *)
Lemma first_mapped_verbatim v :
  Str.mem v RECOGNIZED_SEVERITIES = true ->
  match first_mapped (split_compound v) with
  | Some c => Some c
  | None => map_get SEVERITY_MAP v
  end = map_get SEVERITY_MAP v /\
  map_get SEVERITY_MAP v <> None.
Proof.
  rewrite mem_In. unfold RECOGNIZED_SEVERITIES. simpl.
  intros H.
  repeat (destruct H as [<-|H]; [split; [reflexivity | discriminate]|]).
  contradiction.
Qed.

Lemma normalize_severity_strip raw :
  normalize_severity (Str.strip raw) = normalize_severity raw.
Proof. unfold normalize_severity. now rewrite !strip_idem. Qed.

Lemma normalize_disposition_strip raw :
  normalize_disposition (Str.strip raw) = normalize_disposition raw.
Proof. unfold normalize_disposition. now rewrite !strip_idem. Qed.

(** The result of [normalize_severity] is a canonical label or the trimmed
    raw text. *)
Lemma normalize_severity_range raw :
  In (normalize_severity raw) sev_order \/
  normalize_severity raw = Str.strip raw.
Proof.
  unfold normalize_severity.
  destruct (first_mapped _) as [c|] eqn:E.
  - left. rewrite first_mapped_recognized in E.
    destruct (first_recognized _); [|discriminate].
    eapply severity_map_values; eauto.
  - destruct (map_get SEVERITY_MAP _) as [c|] eqn:E'; auto.
    left. eapply severity_map_values; eauto.
Qed.

Lemma normalize_disposition_range raw :
  In (normalize_disposition raw) disp_order \/
  normalize_disposition raw = Str.strip raw.
Proof.
  unfold normalize_disposition, disp_order.
  repeat match goal with
         | |- context [if ?b then _ else _] => destruct b; [simpl; tauto|]
         end.
  now right.
Qed.

End Agreement.

(** X7: the validator and the aggregator agree on severities: when
    [classify_severity] accepts a value as the recognized form [p],
    [normalize_severity] gives the canonical label that [SEVERITY_MAP] holds
    for [p], one of P0, P1, P2, P3, Info, N/A; when it rejects the value,
    [normalize_severity] gives the trimmed raw text. *)
Theorem severity_classify_normalize_agree raw :
  (forall p, classify_severity raw = (true, p) ->
             Aggregator.map_get Aggregator.SEVERITY_MAP p =
               Some (Aggregator.normalize_severity raw) /\
             In (Aggregator.normalize_severity raw) Aggregator.sev_order) /\
  (fst (classify_severity raw) = false ->
   Aggregator.normalize_severity raw = Str.strip raw).
Proof.
  unfold classify_severity, Aggregator.normalize_severity.
  set (v := Str.lower (Str.strip raw)).
  destruct (Str.mem v RECOGNIZED_SEVERITIES) eqn:Ev.
  - split; [|discriminate]. intros p H. injection H as <-.
    destruct (first_mapped_verbatim v Ev) as [Heq Hsome].
    destruct (Aggregator.map_get Aggregator.SEVERITY_MAP v) as [c|] eqn:Ec;
      [|congruence].
    assert (Hn : match Aggregator.first_mapped (split_compound v) with
                 | Some canonical => canonical
                 | None => c
                 end = c).
    { destruct (Aggregator.first_mapped (split_compound v)); congruence. }
    rewrite Hn. split; [reflexivity|].
    eapply severity_map_values; eauto.
  - rewrite first_mapped_recognized.
    rewrite severity_map_keys in Ev.
    destruct (Aggregator.map_get Aggregator.SEVERITY_MAP v) eqn:Ec;
      [discriminate|].
    destruct (first_recognized (split_compound v)) as [q|] eqn:Eq.
    + split; [|discriminate]. intros p H. injection H as <-.
      assert (Hq : Str.mem q RECOGNIZED_SEVERITIES = true).
      { rewrite first_recognized_find in Eq. now apply find_some in Eq. }
      rewrite severity_map_keys in Hq.
      destruct (Aggregator.map_get Aggregator.SEVERITY_MAP q) as [c|] eqn:Eqc;
        [|discriminate].
      split; [reflexivity|]. eapply severity_map_values; eauto.
    + split; [discriminate|]. reflexivity.
Qed.

Lemma severity_classify_normalize_agree_witness :
  classify_severity " Unknown / Blocker " = (true, "blocker") /\
  Aggregator.map_get Aggregator.SEVERITY_MAP "blocker" =
    Some (Aggregator.normalize_severity " Unknown / Blocker ").
Proof.
  split; [reflexivity|].
  exact (proj1 (proj1 (severity_classify_normalize_agree " Unknown / Blocker ")
                  "blocker" eq_refl)).
Defined.

(** X8: normalizing twice is normalizing once, for every raw value, under
    [normalize_severity] and under [normalize_disposition]. *)
Theorem normalize_idempotent raw :
  Aggregator.normalize_severity (Aggregator.normalize_severity raw) =
    Aggregator.normalize_severity raw /\
  Aggregator.normalize_disposition (Aggregator.normalize_disposition raw) =
    Aggregator.normalize_disposition raw.
Proof.
  split.
  - destruct (normalize_severity_range raw) as [H | H].
    + unfold Aggregator.sev_order in H. simpl in H.
      repeat (destruct H as [<-|H]; [reflexivity|]). contradiction.
    + rewrite H at 1. rewrite normalize_severity_strip. reflexivity.
  - destruct (normalize_disposition_range raw) as [H | H].
    + unfold Aggregator.disp_order in H. simpl in H.
      repeat (destruct H as [<-|H]; [reflexivity|]). contradiction.
    + rewrite H at 1. rewrite normalize_disposition_strip. reflexivity.
Qed.

(** X9: [normalize_disposition], case by case on the trimmed, lowercased value
    [v]: the words incorporated and incorporate and every value that begins
    with incorporated give Incorporated; not incorporated gives Not
    Incorporated; deferred gives Deferred; already present and acknowledged
    give Incorporated; n/a gives N/A; a value that is none of the recognized
    words and does not begin with incorporated is returned trimmed, as it
    was written. *)
Theorem normalize_disposition_cases raw :
  let v := Str.lower (Str.strip raw) in
  (v = "incorporated" \/ v = "incorporate" \/
   Str.startswith "incorporated" v = true ->
   Aggregator.normalize_disposition raw = "Incorporated") /\
  (v = "not incorporated" ->
   Aggregator.normalize_disposition raw = "Not Incorporated") /\
  (v = "deferred" -> Aggregator.normalize_disposition raw = "Deferred") /\
  (v = "already present" \/ v = "acknowledged" ->
   Aggregator.normalize_disposition raw = "Incorporated") /\
  (v = "n/a" -> Aggregator.normalize_disposition raw = "N/A") /\
  (Str.mem v RECOGNIZED_DISPOSITIONS = false ->
   Str.startswith "incorporated" v = false ->
   Aggregator.normalize_disposition raw = Str.strip raw).
Proof.
  intros v. unfold Aggregator.normalize_disposition. fold v.
  repeat split.
  - intros [-> | [-> | H]]; try reflexivity.
    rewrite H. now rewrite orb_true_r.
  - intros ->. reflexivity.
  - intros ->. reflexivity.
  - intros [-> | ->]; reflexivity.
  - intros ->. reflexivity.
  - intros Hmem Hpre. rewrite Hpre.
    unfold Str.mem, RECOGNIZED_DISPOSITIONS in Hmem. cbn [existsb] in Hmem.
    repeat (apply orb_false_iff in Hmem; destruct Hmem as [?E Hmem]).
    unfold Str.mem. cbn [existsb].
    repeat match goal with H : String.eqb v _ = false |- _ =>
                             rewrite H; clear H end.
    reflexivity.
Qed.

Lemma normalize_disposition_cases_witness :
  Aggregator.normalize_disposition " Incorporated (Option B) " = "Incorporated" /\
  Aggregator.normalize_disposition " Won't fix " = "Won't fix".
Proof.
  split.
  - apply (proj1 (normalize_disposition_cases " Incorporated (Option B) ")).
    right. right. reflexivity.
  - apply (proj2 (proj2 (proj2 (proj2 (proj2
             (normalize_disposition_cases " Won't fix ")))))); reflexivity.
Defined.

(** ** The counters of the aggregation *)

Section Counters.

Import Aggregator.

Local Open Scope Z_scope.

Lemma get0_incr {K} (eqb : K -> K -> bool)
      (eqb_eq : forall a b, eqb a b = true <-> a = b) k d k' :
  get0 eqb (incr eqb k d) k' = get0 eqb d k' + (if eqb k k' then 1 else 0).
Proof.
  unfold get0, incr. destruct (eqb k k') eqn:E.
  - apply eqb_eq in E. subst k'.
    rewrite (dict_get_update_same eqb eqb_eq).
    destruct (dict_get eqb d k); lia.
  - rewrite (dict_get_update_other eqb eqb_eq).
    + lia.
    + intros ->. rewrite (eqb_refl_true eqb eqb_eq) in E. discriminate.
Qed.

Lemma count_where_cons p f fs :
  count_where p (f :: fs) = (if p f then 1 else 0) + count_where p fs.
Proof.
  unfold count_where. simpl. destruct (p f); simpl length; lia.
Qed.

Lemma count_where_nil p : count_where p [] = 0.
Proof. reflexivity. Qed.

(** What one finding adds to the counters. *)
Lemma count_finding_step acc f :
  let acc' := count_finding acc f in
  o_total (acc_overall acc') = o_total (acc_overall acc) + 1 /\
  (forall l, get0 String.eqb (o_by_severity (acc_overall acc')) l =
             get0 String.eqb (o_by_severity (acc_overall acc)) l
             + (if String.eqb (severity f) l then 1 else 0)) /\
  (forall l, get0 String.eqb (o_by_disposition (acc_overall acc')) l =
             get0 String.eqb (o_by_disposition (acc_overall acc)) l
             + (if String.eqb (disposition f) l then 1 else 0)) /\
  (forall r l,
     get0 String.eqb (rs_by_disposition (round_stats (acc_per_round acc') r)) l =
     get0 String.eqb (rs_by_disposition (round_stats (acc_per_round acc) r)) l
     + (if Z.eqb (f_round f) r && String.eqb (disposition f) l then 1 else 0)) /\
  (forall fp,
     fs_total (file_stats (acc_per_file acc') fp) =
     fs_total (file_stats (acc_per_file acc) fp)
     + (if String.eqb (file f) fp then 1 else 0)).
Proof.
  unfold count_finding. cbn [acc_overall acc_per_round acc_per_file
                             o_total o_by_severity o_by_disposition].
  split; [reflexivity|].
  split; [intros l; apply (get0_incr String.eqb String.eqb_eq)|].
  split; [intros l; apply (get0_incr String.eqb String.eqb_eq)|].
  split.
  - intros r l. unfold round_stats.
    destruct (Z.eqb (f_round f) r) eqn:E.
    + apply Z.eqb_eq in E. subst r.
      rewrite (dict_get_update_same Z.eqb Z.eqb_eq).
      cbn [rs_by_disposition andb].
      rewrite (get0_incr String.eqb String.eqb_eq).
      destruct (dict_get Z.eqb (acc_per_round acc) (f_round f)); reflexivity.
    + rewrite (dict_get_update_other Z.eqb Z.eqb_eq).
      * cbn [andb]. lia.
      * intros ->. rewrite Z.eqb_refl in E. discriminate.
  - intros fp. unfold file_stats.
    destruct (String.eqb (file f) fp) eqn:E.
    + apply String.eqb_eq in E. subst fp.
      rewrite (dict_get_update_same String.eqb String.eqb_eq).
      cbn [fs_total].
      destruct (dict_get String.eqb (acc_per_file acc) (file f)); reflexivity.
    + rewrite (dict_get_update_other String.eqb String.eqb_eq).
      * lia.
      * intros ->. rewrite String.eqb_refl in E. discriminate.
Qed.

Lemma count_findings_counters fs : forall acc,
  let acc' := fold_left count_finding fs acc in
  o_total (acc_overall acc') =
    o_total (acc_overall acc) + Z.of_nat (List.length fs) /\
  (forall l, get0 String.eqb (o_by_severity (acc_overall acc')) l =
             get0 String.eqb (o_by_severity (acc_overall acc)) l
             + count_where (fun f => String.eqb (severity f) l) fs) /\
  (forall l, get0 String.eqb (o_by_disposition (acc_overall acc')) l =
             get0 String.eqb (o_by_disposition (acc_overall acc)) l
             + count_where (fun f => String.eqb (disposition f) l) fs) /\
  (forall r l,
     get0 String.eqb (rs_by_disposition (round_stats (acc_per_round acc') r)) l =
     get0 String.eqb (rs_by_disposition (round_stats (acc_per_round acc) r)) l
     + count_where (fun f => Z.eqb (f_round f) r
                             && String.eqb (disposition f) l) fs) /\
  (forall fp,
     fs_total (file_stats (acc_per_file acc') fp) =
     fs_total (file_stats (acc_per_file acc) fp)
     + count_where (fun f => String.eqb (file f) fp) fs).
Proof.
  induction fs as [|f fs IH]; intros acc; cbn [fold_left].
  - cbn [List.length]. rewrite ?count_where_nil.
    repeat split; intros; rewrite ?count_where_nil; lia.
  - destruct (IH (count_finding acc f)) as (H1 & H2 & H3 & H4 & H5).
    destruct (count_finding_step acc f) as (S1 & S2 & S3 & S4 & S5).
    repeat split; intros; rewrite ?count_where_cons.
    + rewrite H1, S1. cbn [List.length]. lia.
    + rewrite H2, S2. lia.
    + rewrite H3, S3. lia.
    + rewrite H4, S4. lia.
    + rewrite H5, S5. lia.
Qed.

(** Over distinct rounds that include every round of the findings, the
    per-round counts add up to the number of findings. *)
Lemma sum_count_round rounds fs :
  NoDup rounds ->
  (forall f, In f fs -> In (f_round f) rounds) ->
  fold_right (fun r acc => count_round r fs + acc) 0 rounds =
  Z.of_nat (List.length fs).
Proof.
  intros Hnd. induction fs as [|f fs IH]; intros Hin.
  - clear. induction rounds as [|r rs IH]; simpl; auto.
  - assert (Hone : forall rs, NoDup rs ->
      fold_right (fun r acc => count_round r (f :: fs) + acc) 0 rs =
      fold_right (fun r acc => count_round r fs + acc) 0 rs
      + (if in_dec Z.eq_dec (f_round f) rs then 1 else 0)).
    { induction 1 as [|r rs Hr Hrs IHrs]; simpl; [reflexivity|].
      rewrite IHrs, count_round_cons.
      destruct (Z.eq_dec r (f_round f)) as [->|Hne].
      - rewrite Z.eqb_refl.
        destruct (in_dec Z.eq_dec (f_round f) rs); [contradiction|]. lia.
      - assert (E : Z.eqb (f_round f) r = false)
          by (apply Z.eqb_neq; congruence).
        rewrite E. destruct (in_dec Z.eq_dec (f_round f) rs); lia. }
    rewrite (Hone rounds Hnd), IH by (intros g Hg; apply Hin; now right).
    destruct (in_dec Z.eq_dec (f_round f) rounds) as [_|Hn].
    + cbn [List.length]. lia.
    + exfalso. apply Hn, Hin. now left.
Qed.

Lemma sum_totals_rounds pr rounds fs : forall prev,
  (forall r, rs_total (round_stats pr r) = count_round r fs) ->
  sum_totals (convergence_rows pr prev rounds) =
  fold_right (fun r acc => count_round r fs + acc) 0 rounds.
Proof.
  intros prev H. revert prev.
  induction rounds as [|r rs IH]; intros prev; simpl; auto.
  unfold sum_totals in *. simpl. now rewrite IH, H.
Qed.

Lemma strictly_sorted_NoDup l : StronglySorted Z.lt l -> NoDup l.
Proof.
  induction 1 as [|a l' Hs IH Ha]; constructor; auto.
  intros Hin. rewrite Forall_forall in Ha. specialize (Ha a Hin). lia.
Qed.

Lemma sorted_NoDup l : NoDup l -> NoDup (sorted l).
Proof. intros H. now apply strictly_sorted_NoDup, sorted_strict. Qed.

End Counters.

Section Columns4.

Import Aggregator.

Local Open Scope Z_scope.

Lemma convergence_rows_columns pr rounds : forall prev,
  Forall (fun c =>
            let by_disp := rs_by_disposition (round_stats pr (c_round c)) in
            c_incorporated c = get0 String.eqb by_disp "Incorporated" /\
            c_not_incorporated c = get0 String.eqb by_disp "Not Incorporated" /\
            c_deferred c = get0 String.eqb by_disp "Deferred" /\
            c_na c = get0 String.eqb by_disp "N/A")
         (convergence_rows pr prev rounds).
Proof.
  induction rounds as [|r rs IH]; intros prev; simpl; constructor; auto.
Qed.

(** Counts of findings under conditions of which a finding meets at most
    one, each implying [q], add up to at most the count under [q]. *)
Lemma count_where_disjoint (p1 p2 p3 p4 q : Finding -> bool) fs :
  (forall f, (if p1 f then 1 else 0) + (if p2 f then 1 else 0)
             + (if p3 f then 1 else 0) + (if p4 f then 1 else 0)
             <= (if q f then 1 else 0)) ->
  count_where p1 fs + count_where p2 fs + count_where p3 fs + count_where p4 fs
  <= count_where q fs.
Proof.
  intros H. induction fs as [|f fs IH].
  - rewrite !count_where_nil. lia.
  - rewrite !count_where_cons. specialize (H f). lia.
Qed.

Lemma disposition_columns_disjoint r f :
  (if Z.eqb (f_round f) r && String.eqb (disposition f) "Incorporated"
   then 1 else 0)
  + (if Z.eqb (f_round f) r && String.eqb (disposition f) "Not Incorporated"
     then 1 else 0)
  + (if Z.eqb (f_round f) r && String.eqb (disposition f) "Deferred"
     then 1 else 0)
  + (if Z.eqb (f_round f) r && String.eqb (disposition f) "N/A" then 1 else 0)
  <= (if Z.eqb (f_round f) r then 1 else 0).
Proof.
  destruct (Z.eqb (f_round f) r); cbn [andb]; [|lia].
  destruct (String.eqb (disposition f) "Incorporated") eqn:E1;
  destruct (String.eqb (disposition f) "Not Incorporated") eqn:E2;
  destruct (String.eqb (disposition f) "Deferred") eqn:E3;
  destruct (String.eqb (disposition f) "N/A") eqn:E4;
  try lia;
  repeat match goal with
         | H : String.eqb _ _ = true |- _ => apply String.eqb_eq in H
         end;
  congruence.
Qed.

End Columns4.

(** X10: what [aggregate_findings] counts: the overall total is the number of
    findings; the overall severity and disposition histograms and the
    per-file totals hold, for every label and file, the number of findings
    with that label or file; and the totals of the convergence rows add up
    to the number of findings. *)
Theorem aggregate_counts findings :
  let stats := Aggregator.aggregate_findings findings in
  Aggregator.o_total (Aggregator.overall stats) =
    Z.of_nat (List.length findings) /\
  (forall label,
     Aggregator.get0 String.eqb
       (Aggregator.o_by_severity (Aggregator.overall stats)) label =
     Aggregator.count_where
       (fun f => String.eqb (Aggregator.severity f) label) findings) /\
  (forall label,
     Aggregator.get0 String.eqb
       (Aggregator.o_by_disposition (Aggregator.overall stats)) label =
     Aggregator.count_where
       (fun f => String.eqb (Aggregator.disposition f) label) findings) /\
  (forall fpath,
     Aggregator.fs_total
       (Aggregator.file_stats (Aggregator.per_file stats) fpath) =
     Aggregator.count_where
       (fun f => String.eqb (Aggregator.file f) fpath) findings) /\
  Aggregator.sum_totals (Aggregator.convergence stats) =
    Z.of_nat (List.length findings).
Proof.
  intros stats.
  set (acc0 := {| Aggregator.acc_per_round := [];
                  Aggregator.acc_per_file := [];
                  Aggregator.acc_overall := Aggregator.new_overall |}).
  destruct (count_findings_counters findings acc0) as (H1 & H2 & H3 & _ & H5).
  destruct (count_findings_per_round findings acc0) as (Ht & Hk & Hn).
  fold (Aggregator.count_findings findings) in H1, H2, H3, H5, Ht, Hk, Hn.
  split; [exact H1|]. split; [exact H2|]. split; [exact H3|].
  split; [exact H5|].
  cbn [Aggregator.convergence stats Aggregator.aggregate_findings].
  rewrite (sum_totals_rounds _ _ findings).
  - apply sum_count_round.
    + apply sorted_NoDup, Hn. constructor.
    + intros f Hf. rewrite sorted_In. apply Hk. right. eauto.
  - intros r. rewrite Ht. reflexivity.
Qed.

(** X11: the columns of a convergence row count the findings of its round by
    disposition: Incorporated, Not Incorporated, Deferred and N/A; findings
    with any other disposition are in the total only, so the four columns
    add up to at most the total. *)
Theorem convergence_columns findings :
  Forall
    (fun c =>
       let in_round label :=
         Aggregator.count_where
           (fun f => Z.eqb (Aggregator.f_round f) (Aggregator.c_round c)
                     && String.eqb (Aggregator.disposition f) label)
           findings in
       Aggregator.c_incorporated c = in_round "Incorporated" /\
       Aggregator.c_not_incorporated c = in_round "Not Incorporated" /\
       Aggregator.c_deferred c = in_round "Deferred" /\
       Aggregator.c_na c = in_round "N/A" /\
       (Aggregator.c_incorporated c + Aggregator.c_not_incorporated c
        + Aggregator.c_deferred c + Aggregator.c_na c
        <= Aggregator.c_total c)%Z)
    (Aggregator.convergence (Aggregator.aggregate_findings findings)).
Proof.
  set (acc0 := {| Aggregator.acc_per_round := [];
                  Aggregator.acc_per_file := [];
                  Aggregator.acc_overall := Aggregator.new_overall |}).
  destruct (count_findings_counters findings acc0) as (_ & _ & _ & H4 & _).
  destruct (count_findings_per_round findings acc0) as (Ht & _ & _).
  fold (Aggregator.count_findings findings) in H4, Ht.
  cbn [Aggregator.convergence Aggregator.aggregate_findings].
  set (pr := Aggregator.acc_per_round (Aggregator.count_findings findings)) in *.
  pose proof (convergence_rows_columns pr
                (Aggregator.sorted (Aggregator.keys pr)) None) as Hc.
  pose proof (convergence_rows_total pr
                (Aggregator.sorted (Aggregator.keys pr)) None) as Hr.
  rewrite Forall_forall in *. intros c Hin.
  destruct (Hc c Hin) as (C1 & C2 & C3 & C4). specialize (Hr c Hin).
  cbv zeta in *. rewrite H4 in C1, C2, C3, C4.
  change (Aggregator.get0 String.eqb
            (Aggregator.rs_by_disposition
               (Aggregator.round_stats (Aggregator.acc_per_round acc0)
                  (Aggregator.c_round c))) ?l) with 0%Z in *.
  cbn [Aggregator.acc_per_round acc0] in *.
  rewrite C1, C2, C3, C4, Hr, Ht.
  repeat split; try reflexivity.
  change (Aggregator.rs_total (Aggregator.round_stats [] (Aggregator.c_round c)))
    with 0%Z.
  rewrite !Z.add_0_l.
  apply (count_where_disjoint _ _ _ _
           (fun f => Z.eqb (Aggregator.f_round f) (Aggregator.c_round c))).
  intros f. apply disposition_columns_disjoint.
Qed.

(** ** Cells and fields *)

(** X12: [parse_table_row] rejects exactly the lines whose trimmed text does not
    begin with a pipe; the cells it returns are trimmed and hold no pipe. *)
Theorem parse_table_row_cells_clean line :
  (parse_table_row line = None <->
   Str.startswith "|" (Str.strip line) = false) /\
  (forall cells,
     parse_table_row line = Some cells ->
     Forall (fun c => Str.strip c = c /\
                      Str.free_of (Ascii.eqb pipe) c = true) cells).
Proof.
  split.
  - unfold parse_table_row.
    destruct (Str.startswith "|" (Str.strip line)); simpl; split;
      congruence.
  - intros cells H. destruct (parse_table_row_cells _ _ H) as [Hf Hs].
    rewrite Forall_forall in *. intros c Hc. split; auto.
Qed.

Lemma parse_table_row_cells_clean_witness :
  parse_table_row "  | a b |  c|d " = Some ["a b"; "c"; "d"] /\
  Forall (fun c => Str.strip c = c /\ Str.free_of (Ascii.eqb pipe) c = true)
         ["a b"; "c"; "d"].
Proof.
  split; [reflexivity|].
  exact (proj2 (parse_table_row_cells_clean "  | a b |  c|d ") _ eq_refl).
Defined.

Section FindingFields.

Import Aggregator.

Local Open Scope Z_scope.

Lemma int_acc_nonneg s : forall acc, 0 <= acc -> 0 <= Str.int_acc acc s.
Proof.
  induction s as [|c s IH]; intros acc H; cbn [Str.int_acc]; auto.
  apply IH. unfold Str.digit_val. lia.
Qed.

Lemma extract_round_number_nonneg m r :
  extract_round_number m = Some r -> 0 <= r.
Proof.
  unfold extract_round_number.
  destruct (group_truthy (m 1%nat)).
  - intros H. injection H as <-. now apply int_acc_nonneg.
  - destruct (group_truthy (m 2%nat)); [|discriminate].
    intros H. injection H as <-. now apply int_acc_nonneg.
Qed.

Lemma located_round_nonneg lines t r :
  In t (find_disposition_tables lines) -> round t = Some r -> 0 <= r.
Proof.
  intros Hin Hr. unfold find_disposition_tables in Hin.
  apply tables_from_heading in Hin as (rn & j & _ & (l & m & _ & _ & Hm) & ->).
  pose proof (heading_table_cases lines rn j) as Hc.
  destruct (heading_table lines rn j) as [t k]. simpl in *.
  destruct Hc as (_ & _ & Hrt & _).
  rewrite Hrt, <- Hm in Hr. now apply extract_round_number_nonneg in Hr.
Qed.

(** The fields every finding of one table has. *)
Lemma table_findings_fields fp r t fs :
  table_findings fp r t = Some fs ->
  Forall (fun f => file f = fp /\ f_round f = r /\
                   severity f = normalize_severity (severity_raw f) /\
                   disposition f = normalize_disposition (disposition_raw f) /\
                   Str.strip (severity_raw f) = severity_raw f /\
                   Str.strip (disposition_raw f) = disposition_raw f) fs.
Proof.
  unfold table_findings.
  destruct (find_column_index (header_cells t) ["severity"]) as [s|];
    [|intros H; injection H as <-; constructor].
  destruct (find_column_index (header_cells t) ["disposition"]) as [d|];
    [|intros H; injection H as <-; constructor].
  unfold rows_findings. apply for_each_Forall.
  intros row out. unfold row_findings.
  destruct (negb _); [intros H; injection H as <-; constructor|].
  destruct (nth_error (cells row) s); [|discriminate]. simpl.
  destruct (nth_error (cells row) d); [|discriminate]. simpl.
  destruct (cell_or _ _ _); [|discriminate]. simpl.
  destruct (match find_column_index (header_cells t) ["reviewer"] with
            | Some i => option_map Some (nth_error (cells row) i)
            | None => Some None
            end); [|discriminate]. simpl.
  destruct (cell_or _ _ _); [|discriminate]. simpl.
  destruct (cell_or _ _ _); [|discriminate]. simpl.
  intros H. injection H as <-. constructor; [|constructor].
  cbn [file f_round severity severity_raw disposition disposition_raw].
  rewrite normalize_severity_strip, normalize_disposition_strip, !strip_idem.
  repeat split.
Qed.

Lemma tables_findings_fields fp tables : forall u fs,
  1 <= u ->
  Forall (fun t => forall r, round t = Some r -> 0 <= r) tables ->
  tables_findings fp u tables = Some fs ->
  Forall (fun f => file f = fp /\ 0 <= f_round f /\
                   severity f = normalize_severity (severity_raw f) /\
                   disposition f = normalize_disposition (disposition_raw f) /\
                   Str.strip (severity_raw f) = severity_raw f /\
                   Str.strip (disposition_raw f) = disposition_raw f) fs.
Proof.
  induction tables as [|t rest IH]; intros u fs Hu Hr H; simpl in H.
  - injection H as <-. constructor.
  - inversion Hr as [|? ? Ht Hrest]; subst.
    destruct (header_cells t); [eapply IH; eauto|].
    destruct (table_findings fp (table_round u t) t) as [f1|] eqn:E1;
      [|discriminate]. simpl in H.
    destruct (tables_findings fp _ rest) as [f2|] eqn:E2; [|discriminate].
    simpl in H. injection H as <-. apply Forall_app. split.
    + apply table_findings_fields in E1.
      eapply Forall_impl; [|exact E1]. simpl.
      intros f (H1 & H2 & H3). split; auto. split; auto.
      rewrite H2. unfold table_round.
      destruct (round t) as [r|] eqn:Er; [now apply Ht | lia].
    + eapply IH; [| exact Hrest | exact E2]. lia.
Qed.

End FindingFields.

(** X13: every finding [parse_file_findings] returns names the file it was
    given, has a round number that is not negative, holds trimmed raw
    severity and disposition texts, and its normalized severity and
    disposition are the normalizations of those raw texts. *)
Theorem finding_fields_consistent filepath lines findings :
  Aggregator.parse_file_findings filepath lines = Some findings ->
  Forall (fun f =>
            Aggregator.file f = filepath /\
            (0 <= Aggregator.f_round f)%Z /\
            Aggregator.severity f =
              Aggregator.normalize_severity (Aggregator.severity_raw f) /\
            Aggregator.disposition f =
              Aggregator.normalize_disposition (Aggregator.disposition_raw f) /\
            Str.strip (Aggregator.severity_raw f) = Aggregator.severity_raw f /\
            Str.strip (Aggregator.disposition_raw f) =
              Aggregator.disposition_raw f)
         findings.
Proof.
  unfold Aggregator.parse_file_findings.
  apply tables_findings_fields; [lia|].
  rewrite Forall_forall. intros t Hin r.
  exact (located_round_nonneg lines t r Hin).
Qed.

Lemma finding_fields_consistent_witness :
  let lines := ["## Round 0 Review Disposition";
                "| Severity | Disposition |";
                "|---|---|";
                "|  High , x | Acknowledged  |"] in
  exists f, Aggregator.parse_file_findings "docs/plan.md" lines = Some [f] /\
            Aggregator.file f = "docs/plan.md" /\
            Aggregator.severity f =
              Aggregator.normalize_severity (Aggregator.severity_raw f).
Proof.
  intros lines. eexists. split; [reflexivity|].
  pose proof (finding_fields_consistent "docs/plan.md" lines _ eq_refl) as H.
  apply Forall_inv in H. split; apply H.
Defined.

(** ** The exit status of the validator *)

Lemma validate_table_clean_dec t :
  {Validator.validate_table t = Some []} + {Validator.validate_table t <> Some []}.
Proof.
  destruct (Validator.validate_table t) as [[|e errs]|];
    [left; reflexivity | right; discriminate | right; discriminate].
Qed.



(** ** Where a table ends *)

Section TableEnd.

Lemma data_rows_complete ls : forall i rs j,
  data_rows i ls = (rs, j) ->
  forall k l, i <= k < j -> nth_error ls (k - i) = Some l ->
    exists row_cells,
      parse_table_row l = Some row_cells /\
      (is_separator_row row_cells = true \/
       In {| line := k; cells := row_cells |} rs).
Proof.
  induction ls as [|l0 rest IH]; intros i rs j H k l Hk Hl; simpl in H.
  - injection H as <- <-. lia.
  - destruct (parse_table_row l0) as [c0|] eqn:Ep.
    + destruct (Nat.eq_dec k i) as [->|Hne].
      * rewrite Nat.sub_diag in Hl. simpl in Hl. injection Hl as <-.
        exists c0. split; auto.
        destruct (is_separator_row c0) eqn:Es; auto.
        destruct (data_rows (S i) rest) as [rs' j'].
        injection H as <- <-. right. now left.
      * replace (k - i) with (S (k - S i)) in Hl by lia. simpl in Hl.
        destruct (is_separator_row c0).
        -- apply (IH _ _ _ H k l); auto. lia.
        -- destruct (data_rows (S i) rest) as [rs' j'] eqn:Ed.
           injection H as <- <-.
           destruct (IH _ _ _ Ed k l) as (c & Hc & Hor); auto; [lia|].
           exists c. split; auto. destruct Hor; auto. right. now right.
    + injection H as <- <-. lia.
Qed.

End TableEnd.

(** X15: a table with header cells ends at the first line that is not a row:
    every line between its separator and that line is a row, either
    separator-shaped and skipped or recorded in the table, and the scan
    resumes at that line itself, so that a heading directly below the last
    row starts the next table. *)
Theorem table_ends_at_first_non_row lines i l m t j :
  nth_error lines i = Some l ->
  Re.match_ DISPOSITION_HEADER_RE l = Some m ->
  heading_table lines (extract_round_number m) i = (t, j) ->
  header_cells t <> [] ->
  tables_from (List.length lines) lines i =
    t :: tables_from (List.length lines) lines j /\
  (forall l', nth_error lines j = Some l' -> parse_table_row l' = None) /\
  (forall k l', S (header_line t) < k < j -> nth_error lines k = Some l' ->
     exists row_cells,
       parse_table_row l' = Some row_cells /\
       (is_separator_row row_cells = true \/
        In {| line := k; cells := row_cells |} (rows t))) /\
  (forall l' m', nth_error lines j = Some l' ->
     Re.match_ DISPOSITION_HEADER_RE l' = Some m' ->
     exists t' rest,
       tables_from (List.length lines) lines j = t' :: rest /\
       section_header_line t' = j).
Proof.
  intros Hl Hm Hh Hne.
  split; [rewrite tables_from_step, Hl, Hm, Hh; reflexivity|].
  assert (Hrows : exists h,
    header_line t = h /\
    data_rows (S (S h)) (skipn (S (S h)) lines) = (rows t, j)).
  { unfold heading_table in Hh.
    set (h := skip_blank lines (S i)) in *.
    destruct (nth_error lines h) as [hl|];
      [|injection Hh as <- <-; simpl in Hne; congruence].
    destruct (parse_table_row hl) as [[|c cs]|];
      try (injection Hh as <- <-; simpl in Hne; congruence).
    destruct (nth_error lines (S h)) as [sl|];
      [|injection Hh as <- <-; simpl in Hne; congruence].
    destruct (parse_table_row sl) as [[|s0 ss]|];
      try (injection Hh as <- <-; simpl in Hne; congruence).
    destruct (is_separator_row (s0 :: ss));
      [|injection Hh as <- <-; simpl in Hne; congruence].
    destruct (data_rows (S (S h)) (skipn (S (S h)) lines)) as [rs k] eqn:Ed.
    injection Hh as <- <-. exists h. split; [reflexivity | exact Ed]. }
  destruct Hrows as (h & Hhl & Hd). rewrite Hhl.
  pose proof (data_rows_spec _ _ _ _ Hd) as (_ & _ & Hj & Hstop).
  split; [|split].
  - intros l' Hl'. apply Hstop. rewrite nth_error_skipn_shift.
    now replace (S (S h) + (j - S (S h))) with j by lia.
  - intros k l' Hk Hl'.
    apply (data_rows_complete _ _ _ _ Hd k l'); [lia|].
    rewrite nth_error_skipn_shift.
    now replace (S (S h) + (k - S (S h))) with k by lia.
  - intros l' m' Hl' Hm'. rewrite tables_from_step, Hl', Hm'.
    pose proof (heading_table_cases lines (extract_round_number m') j) as Hc.
    destruct (heading_table lines (extract_round_number m') j) as [t' j'].
    destruct Hc as (_ & Hs & _). eauto.
Qed.

Lemma table_ends_at_first_non_row_witness :
  let lines := ["## Round 1 Review Disposition";
                "| Severity | Disposition |";
                "|---|---|";
                "| P1 | Deferred |";
                "## Round 2 Review Disposition";
                "| Severity | Disposition |";
                "|---|---|";
                "| P2 | Incorporated |"] in
  map section_header_line (find_disposition_tables lines) = [0; 4] /\
  exists t' rest, tables_from (List.length lines) lines 4 = t' :: rest /\
                  section_header_line t' = 4.
Proof.
  intros lines. split; [reflexivity|].
  destruct (Re.match_ DISPOSITION_HEADER_RE "## Round 1 Review Disposition")
    as [m1|] eqn:E1; [|discriminate E1].
  destruct (Re.match_ DISPOSITION_HEADER_RE "## Round 2 Review Disposition")
    as [m2|] eqn:E2; [|discriminate E2].
  destruct (heading_table lines (extract_round_number m1) 0) as [t j] eqn:Eh.
  assert (Hj : j = 4 /\ header_cells t <> []).
  { vm_compute in E1. injection E1 as <-. vm_compute in Eh.
    injection Eh as <- <-. split; [reflexivity | discriminate]. }
  destruct Hj as [-> Hne].
  exact (proj2 (proj2 (proj2
           (table_ends_at_first_non_row lines 0 _ m1 t 4 eq_refl E1 Eh Hne)))
           _ m2 eq_refl E2).
Defined.

(** ** The patterns, read directly *)

Section Patterns.

Lemma run_star r s k g :
  Re.run (Re.Star r) s k g = star_loop (Re.run r) k (String.length s) s g.
Proof. reflexivity. Qed.

(** A star over a character class takes every leading character of the
    class when what follows cannot begin with one: giving one back never
    helps. *)
Lemma star_loop_class p k :
  (forall a s g, p a = true -> k (String a s) g = None) ->
  forall n s g, String.length s <= n ->
    star_loop (Re.run (Re.Chr p)) k n s g = k (drop_while p s) g.
Proof.
  intros Hk. induction n as [|n IH]; intros s g Hn.
  - destruct s; [reflexivity | simpl in Hn; lia].
  - destruct s as [|a s]; [reflexivity|].
    cbn [star_loop Re.run drop_while]. fold (star_loop (Re.run (Re.Chr p)) k).
    destruct (p a) eqn:Ea.
    + assert (Hlt : Nat.ltb (String.length s) (String.length (String a s)) = true)
        by (apply Nat.ltb_lt; simpl; lia).
      rewrite Hlt, IH by (simpl in Hn; lia).
      destruct (k (drop_while p s) g); auto.
    + reflexivity.
Qed.

Lemma run_star_class p k s g :
  (forall a s g, p a = true -> k (String a s) g = None) ->
  Re.run (Re.Star (Re.Chr p)) s k g = k (drop_while p s) g.
Proof. intros Hk. rewrite run_star. now apply star_loop_class. Qed.

Lemma run_plus_class p k s g :
  (forall a s g, p a = true -> k (String a s) g = None) ->
  Re.run (Re.Plus (Re.Chr p)) s k g =
  match s with
  | String a s' => if p a then k (drop_while p s') g else None
  | EmptyString => None
  end.
Proof.
  intros Hk. unfold Re.Plus. cbn [Re.run].
  destruct s as [|a s']; [reflexivity|].
  destruct (p a); [|reflexivity]. now apply run_star_class.
Qed.

Lemma drop_while_app p s1 s2 :
  all_of p s1 = true ->
  drop_while p (s1 ++ s2) = drop_while p s2.
Proof.
  induction s1 as [|a s1 IH]; simpl; auto.
  intros H. apply andb_true_iff in H as [Ha H]. rewrite Ha. auto.
Qed.

End Patterns.

Lemma separator_cell_shape c :
  match Re.match_ SEPARATOR_CELL_RE c with
  | Some _ => true
  | None => false
  end = separator_shape c.
Proof.
  unfold Re.match_, SEPARATOR_CELL_RE, separator_shape.
  cbn [Re.seqs].
  set (tail := Re.Seq (Re.Opt (Re.chr ":")) Re.Eos).
  assert (Htail : forall s g,
    match Re.run tail s (fun _ g0 => Some g0) g with
    | Some _ => true | None => false end = at_end (drop_colon s)).
  { intros s g. unfold tail, Re.chr.
    destruct s as [|a s]; [reflexivity|]. cbn [drop_colon].
    destruct (Ascii.eqb ":" a) eqn:Ea.
    - apply Ascii.eqb_eq in Ea. subst a.
      destruct s as [|b [|b' s']]; try reflexivity.
      cbn. destruct (Ascii.eqb b "010"); reflexivity.
    - cbn [Re.run]. rewrite Ea.
      destruct s as [|b s']; [|reflexivity].
      cbn. destruct (Ascii.eqb a "010"); reflexivity. }
  assert (Hdash : forall a s g, Ascii.eqb "-" a = true ->
    Re.run tail (String a s) (fun _ g0 => Some g0) g = None).
  { intros a s g Ha. apply Ascii.eqb_eq in Ha. subst a.
    unfold tail, Re.chr. cbn [Re.run]. simpl. now destruct s. }
  assert (Hbody : forall s g,
    match Re.run (Re.Seq (Re.Plus (Re.chr "-")) tail) s
            (fun _ g0 => Some g0) g with
    | Some _ => true | None => false end =
    match s with
    | String a s' =>
        Ascii.eqb "-" a && at_end (drop_colon (drop_while (Ascii.eqb "-") s'))
    | EmptyString => false
    end).
  { intros s g. cbn [Re.run]. unfold Re.chr at 1.
    rewrite run_plus_class by exact Hdash.
    destruct s as [|a s']; [reflexivity|].
    destruct (Ascii.eqb "-" a); [apply Htail | reflexivity]. }
  cbn [Re.run]. unfold Re.chr at 1. cbn [Re.run].
  destruct c as [|a s]; [apply Hbody|]. cbn [drop_colon].
  destruct (Ascii.eqb ":" a) eqn:Ea; [|apply Hbody].
  apply Ascii.eqb_eq in Ea. subst a.
  assert (Hcolon :
    match Re.run (Re.Seq (Re.Plus (Re.chr "-")) tail) (String ":" s)
            (fun _ g0 => Some g0) Re.no_groups with
    | Some _ => true | None => false end = false)
    by (rewrite Hbody; reflexivity).
  rewrite <- (Hbody s Re.no_groups).
  cbn [Re.run] in Hcolon |- *.
  destruct (Re.run (Re.Plus (Re.chr "-")) s
              (fun s1 g1 => Re.run tail s1 (fun _ g => Some g) g1)
              Re.no_groups); [reflexivity|].
  exact Hcolon.
Qed.

(** X16: [is_separator_row] accepts exactly the cell lists in which every cell
    is, from left to right, an optional colon, one dash or more, an
    optional colon and nothing else (but a final newline). *)
Theorem is_separator_row_shape cells :
  is_separator_row cells = forallb separator_shape cells.
Proof.
  unfold is_separator_row.
  induction cells as [|c cs IH]; [reflexivity|].
  cbn [forallb]. now rewrite separator_cell_shape, IH.
Qed.

(** ** The heading pattern on round headings *)

Section RoundHeadings.

Lemma run_lit_i lit : forall s k g,
  Re.run (Re.lit_i lit) (lit ++ s) k g = k s g.
Proof.
  induction lit as [|c lit IH]; intros s k g; [reflexivity|].
  destruct lit as [|c' lit'].
  - cbn [Re.lit_i Re.chr_i Re.run append]. now rewrite Ascii.eqb_refl.
  - change (Re.lit_i (String c (String c' lit')))
      with (Re.Seq (Re.chr_i c) (Re.lit_i (String c' lit'))).
    cbn [Re.run Re.chr_i]. change (String c (String c' lit') ++ s)
      with (String c (String c' lit' ++ s)).
    cbn [Re.run]. rewrite Ascii.eqb_refl. apply IH.
Qed.

Lemma run_opt_none r s k g :
  Re.run r s k g = None -> Re.run (Re.Opt r) s k g = k s g.
Proof. intros H. cbn [Re.run]. now rewrite H. Qed.

Lemma run_opt_some r s k g m :
  Re.run r s k g = Some m -> Re.run (Re.Opt r) s k g = Some m.
Proof. intros H. cbn [Re.run]. now rewrite H. Qed.

Lemma space_not_digit a : Str.is_space a = true -> Str.is_digit a = false.
Proof.
  destruct a as [[] [] [] [] [] [] [] []]; vm_compute; congruence.
Qed.

Lemma digit_not_space a : Str.is_digit a = true -> Str.is_space a = false.
Proof.
  destruct a as [[] [] [] [] [] [] [] []]; vm_compute; congruence.
Qed.

Lemma space_not_r a :
  Str.is_space a = true ->
  Ascii.eqb (Str.lower_char a) (Str.lower_char "R") = false.
Proof.
  destruct a as [[] [] [] [] [] [] [] []]; vm_compute; congruence.
Qed.

Lemma consumed_app d r : Re.consumed (d ++ r) r = d.
Proof.
  unfold Re.consumed.
  assert (Hlen : String.length (d ++ r) - String.length r = String.length d).
  { assert (H : String.length (d ++ r) = String.length d + String.length r)
      by (induction d as [|a d IH]; simpl; lia).
    lia. }
  rewrite Hlen. clear Hlen.
  induction d as [|a d IH]; simpl.
  - now destruct r.
  - now rewrite IH.
Qed.


Lemma run_seq r1 r2 s k g :
  Re.run (Re.Seq r1 r2) s k g = Re.run r1 s (fun s1 g1 => Re.run r2 s1 k g1) g.
Proof. reflexivity. Qed.

Lemma run_group n r s k g :
  Re.run (Re.Group n r) s k g =
  Re.run r s (fun s1 g1 => k s1 (Re.set_group n (Re.consumed s s1) g1)) g.
Proof. reflexivity. Qed.

Lemma run_plus_space k s g :
  (forall a s g, Str.is_space a = true -> k (String a s) g = None) ->
  Re.run (Re.Plus Re.space) s k g =
  match s with
  | String a s' => if Str.is_space a then k (drop_while Str.is_space s') g else None
  | EmptyString => None
  end.
Proof. apply run_plus_class. Qed.

Lemma run_plus_digit k s g :
  (forall a s g, Str.is_digit a = true -> k (String a s) g = None) ->
  Re.run (Re.Plus Re.digit) s k g =
  match s with
  | String a s' => if Str.is_digit a then k (drop_while Str.is_digit s') g else None
  | EmptyString => None
  end.
Proof. apply run_plus_class. Qed.

Lemma run_lit_i_cons c lit a s k g :
  Ascii.eqb (Str.lower_char a) (Str.lower_char c) = false ->
  Re.run (Re.lit_i (String c lit)) (String a s) k g = None.
Proof.
  intros H. destruct lit as [|c' lit'].
  - cbn [Re.lit_i Re.chr_i Re.run]. now rewrite H.
  - change (Re.lit_i (String c (String c' lit')))
      with (Re.Seq (Re.chr_i c) (Re.lit_i (String c' lit'))).
    cbn [Re.run Re.chr_i]. now rewrite H.
Qed.

(** [Review Disposition], then what follows. *)
Lemma run_review_disposition s k g :
  Re.run review_disposition ("Review Disposition" ++ s) k g = k s g.
Proof.
  change review_disposition
    with (Re.Seq (Re.lit_i "Review")
            (Re.Seq (Re.Plus Re.space) (Re.lit_i "Disposition"))).
  change ("Review Disposition" ++ s)
    with ("Review" ++ String " " ("Disposition" ++ s)).
  rewrite run_seq, run_lit_i, run_seq, run_plus_space.
  - change (Str.is_space " ") with true. cbv iota.
    change (drop_while Str.is_space ("Disposition" ++ s))
      with ("Disposition" ++ s).
    apply run_lit_i.
  - intros a s0 g0 Ha. apply run_lit_i_cons.
    revert Ha. clear.
    destruct a as [[] [] [] [] [] [] [] []]; vm_compute; congruence.
Qed.


Ltac class_vs_char :=
  let a := fresh "a" in
  intros a; destruct a as [[] [] [] [] [] [] [] []]; vm_compute; congruence.

Lemma digit_not_r a :
  Str.is_digit a = true ->
  Ascii.eqb (Str.lower_char a) (Str.lower_char "R") = false.
Proof. revert a. class_vs_char. Qed.

(** The part [Round N ] of a heading: group 1 takes the digits. *)
Lemma run_round_part d ds s k g :
  Str.is_digit d = true -> all_of Str.is_digit ds = true ->
  (forall a s g, Str.is_space a = true -> k (String a s) g = None) ->
  Re.run (Re.seqs [Re.lit_i "Round"; Re.Plus Re.space;
                   Re.Group 1 (Re.Plus Re.digit); Re.Plus Re.space])
         ("Round " ++ String d ds ++ String " " s) k g =
  k (drop_while Str.is_space s)
    (Re.set_group 1 (String d ds) g).
Proof.
  intros Hd Hds Hk.
  change (Re.seqs [Re.lit_i "Round"; Re.Plus Re.space;
                   Re.Group 1 (Re.Plus Re.digit); Re.Plus Re.space])
    with (Re.Seq (Re.lit_i "Round")
            (Re.Seq (Re.Plus Re.space)
               (Re.Seq (Re.Group 1 (Re.Plus Re.digit)) (Re.Plus Re.space)))).
  change ("Round " ++ String d ds ++ String " " s)
    with ("Round" ++ String " " (String d (ds ++ String " " s))).
  rewrite run_seq, run_lit_i, run_seq, run_plus_space.
  - change (Str.is_space " ") with true. cbv iota.
    cbn [drop_while]. rewrite (digit_not_space d Hd).
    rewrite run_seq, run_group, run_plus_digit.
    + rewrite Hd, drop_while_app by assumption.
      change (drop_while Str.is_digit (String " " s)) with (String " " s).
      rewrite run_plus_space by exact Hk.
      change (Str.is_space " ") with true. cbv iota.
      change (String d (ds ++ String " " s))
        with (String d ds ++ String " " s).
      now rewrite consumed_app.
    + intros a s0 g0 Ha. rewrite run_plus_space by exact Hk.
      now rewrite (digit_not_space a Ha).
  - intros a s0 g0 Ha. rewrite run_seq, run_group.
    unfold Re.Plus at 1. rewrite run_seq. cbn [Re.run Re.digit].
    now rewrite (space_not_digit a Ha).
Qed.


Lemma digit_not_o a :
  Str.is_digit a = true ->
  Ascii.eqb (Str.lower_char a) (Str.lower_char "o") = false.
Proof. revert a. class_vs_char. Qed.

Lemma digit_not_e a :
  Str.is_digit a = true ->
  Ascii.eqb (Str.lower_char a) (Str.lower_char "e") = false.
Proof. revert a. class_vs_char. Qed.

Lemma review_not_space k a s g :
  Str.is_space a = true ->
  Re.run review_disposition (String a s) k g = None.
Proof.
  intros Ha.
  change review_disposition
    with (Re.Seq (Re.lit_i "Review")
            (Re.Seq (Re.Plus Re.space) (Re.lit_i "Disposition"))).
  rewrite run_seq. apply run_lit_i_cons. now apply space_not_r.
Qed.

(** The part [RN ] of a heading: group 2 takes the digits. *)
Lemma run_short_round_part d ds s k g :
  Str.is_digit d = true -> all_of Str.is_digit ds = true ->
  Re.run (Re.seqs [Re.lit_i "R"; Re.Group 2 (Re.Plus Re.digit);
                   Re.Plus Re.space; review_disposition])
         ("R" ++ String d ds ++ " Review Disposition" ++ s) k g =
  k s (Re.set_group 2 (String d ds) g).
Proof.
  intros Hd Hds.
  change (Re.seqs [Re.lit_i "R"; Re.Group 2 (Re.Plus Re.digit);
                   Re.Plus Re.space; review_disposition])
    with (Re.Seq (Re.lit_i "R")
            (Re.Seq (Re.Group 2 (Re.Plus Re.digit))
               (Re.Seq (Re.Plus Re.space) review_disposition))).
  change ("R" ++ String d ds ++ " Review Disposition" ++ s)
    with ("R" ++ String d (ds ++ String " " ("Review Disposition" ++ s))).
  rewrite run_seq, run_lit_i, run_seq, run_group, run_plus_digit.
  - rewrite Hd, drop_while_app by assumption.
    change (drop_while Str.is_digit (String " " ("Review Disposition" ++ s)))
      with (String " " ("Review Disposition" ++ s)).
    rewrite run_seq, run_plus_space.
    + change (Str.is_space " ") with true. cbv iota.
      change (drop_while Str.is_space ("Review Disposition" ++ s))
        with ("Review Disposition" ++ s).
      rewrite run_review_disposition.
      change (String d (ds ++ String " " ("Review Disposition" ++ s)))
        with (String d ds ++ String " " ("Review Disposition" ++ s)).
      now rewrite consumed_app.
    + intros a s0 g0 Ha. now apply review_not_space.
  - intros a s0 g0 Ha. rewrite run_seq, run_plus_space.
    + now rewrite (digit_not_space a Ha).
    + intros a' s1 g1 Ha'. now apply review_not_space.
Qed.


Lemma header_re_unfold :
  DISPOSITION_HEADER_RE =
  Re.Seq (Re.lit_i "##")
    (Re.Seq (Re.Plus Re.space)
       (Re.Seq
          (Re.Opt (Re.seqs [ Re.Plus Re.digit; Re.Opt Re.letter_i;
                        Re.Chr (fun a => Ascii.eqb a "."%char || Ascii.eqb a ")"%char);
                        Re.Star Re.space ]))
          (Re.Seq
             (Re.Alt
                (Re.Seq
                   (Re.Opt (Re.seqs [ Re.lit_i "Round"; Re.Plus Re.space;
                              Re.Group 1 (Re.Plus Re.digit); Re.Plus Re.space ]))
                   review_disposition)
                (Re.seqs [ Re.lit_i "R"; Re.Group 2 (Re.Plus Re.digit);
                   Re.Plus Re.space; review_disposition ]))
             (Re.Seq (Re.Star Re.space) Re.Eos)))).
Proof. reflexivity. Qed.

(** What follows the heading's first spaces cannot begin with a space. *)
Lemma after_spaces_not_space a s g :
  Str.is_space a = true ->
  Re.run
    (Re.Seq
          (Re.Opt (Re.seqs [ Re.Plus Re.digit; Re.Opt Re.letter_i;
                        Re.Chr (fun a => Ascii.eqb a "."%char || Ascii.eqb a ")"%char);
                        Re.Star Re.space ]))
          (Re.Seq
             (Re.Alt
                (Re.Seq
                   (Re.Opt (Re.seqs [ Re.lit_i "Round"; Re.Plus Re.space;
                              Re.Group 1 (Re.Plus Re.digit); Re.Plus Re.space ]))
                   review_disposition)
                (Re.seqs [ Re.lit_i "R"; Re.Group 2 (Re.Plus Re.digit);
                   Re.Plus Re.space; review_disposition ]))
             (Re.Seq (Re.Star Re.space) Re.Eos)))
    (String a s) (fun _ g0 => Some g0) g = None.
Proof.
  intros Ha.
  pose proof (space_not_digit a Ha) as Hd.
  pose proof (space_not_r a Ha) as Hr.
  cbn [Re.run Re.seqs Re.lit_i Re.Plus Re.digit Re.chr_i].
  rewrite Hd, Hr. 
  unfold review_disposition. cbn [Re.run Re.seqs Re.lit_i Re.chr_i].
  rewrite Hr. reflexivity.
Qed.


Lemma run_alt_some r1 r2 s k g m :
  Re.run r1 s k g = Some m -> Re.run (Re.Alt r1 r2) s k g = Some m.
Proof. intros H. cbn [Re.run]. now rewrite H. Qed.

Lemma run_alt_none r1 r2 s k g :
  Re.run r1 s k g = None -> Re.run (Re.Alt r1 r2) s k g = Re.run r2 s k g.
Proof. intros H. cbn [Re.run]. now rewrite H. Qed.

Lemma round_part_not_short d s k g :
  Str.is_digit d = true ->
  Re.run (Re.seqs [Re.lit_i "Round"; Re.Plus Re.space;
                   Re.Group 1 (Re.Plus Re.digit); Re.Plus Re.space])
         (String "R" (String d s)) k g = None /\
  Re.run review_disposition (String "R" (String d s)) k g = None.
Proof.
  intros Hd. split.
  - cbn [Re.seqs Re.lit_i Re.run Re.chr_i].
    change (Ascii.eqb (Str.lower_char "R") (Str.lower_char "R")) with true.
    cbv iota. now rewrite (digit_not_o d Hd).
  - unfold review_disposition. cbn [Re.seqs Re.lit_i Re.run Re.chr_i].
    change (Ascii.eqb (Str.lower_char "R") (Str.lower_char "R")) with true.
    cbv iota. now rewrite (digit_not_e d Hd).
Qed.

End RoundHeadings.

(** X17: for every non-empty string of at most 4300 decimal digits, the
    length up to which [int] converts a string under every version of
    CPython, the headings [## Round N Review Disposition] and
    [## RN Review Disposition] match the heading pattern, and the round
    number extracted from the match is the value of the digits. *)
Theorem round_heading_matches digits :
  digits <> "" -> all_of Str.is_digit digits = true ->
  String.length digits <= 4300 ->
  (exists m, Re.match_ DISPOSITION_HEADER_RE (round_heading digits) = Some m /\
             extract_round_number m = Some (Str.int digits)) /\
  (exists m, Re.match_ DISPOSITION_HEADER_RE (short_round_heading digits) = Some m /\
             extract_round_number m = Some (Str.int digits)).
Proof.
  intros Hne Hall _. destruct digits as [|d ds]; [congruence|].
  cbn [all_of] in Hall. apply andb_true_iff in Hall as [Hd Hds].
  unfold Re.match_. rewrite header_re_unfold. split.
  - exists (Re.set_group 1 (String d ds) Re.no_groups). split; [|reflexivity].
    unfold round_heading.
    change ("## Round " ++ String d ds ++ " Review Disposition")
      with ("##" ++ String " "
              ("Round " ++ String d ds ++ String " " "Review Disposition")).
    rewrite run_seq, run_lit_i, run_seq, run_plus_space
      by (intros a s g Ha; now apply after_spaces_not_space).
    change (Str.is_space " ") with true. cbv iota.
    change (drop_while Str.is_space
              ("Round " ++ String d ds ++ String " " "Review Disposition"))
      with ("Round " ++ String d ds ++ String " " "Review Disposition").
    rewrite run_seq, run_opt_none by reflexivity.
    rewrite run_seq. apply run_alt_some.
    rewrite run_seq. apply run_opt_some.
    rewrite run_round_part;
      [ | assumption | assumption
        | intros a s g Ha; now apply review_not_space ].
    cbv beta.
    change (drop_while Str.is_space "Review Disposition")
      with ("Review Disposition" ++ "").
    rewrite run_review_disposition. reflexivity.
  - exists (Re.set_group 2 (String d ds) Re.no_groups). split; [|reflexivity].
    unfold short_round_heading.
    change ("## R" ++ String d ds ++ " Review Disposition")
      with ("##" ++ String " "
              (String "R" (String d (ds ++ " Review Disposition")))).
    rewrite run_seq, run_lit_i, run_seq, run_plus_space
      by (intros a s g Ha; now apply after_spaces_not_space).
    change (Str.is_space " ") with true. cbv iota.
    change (drop_while Str.is_space
              (String "R" (String d (ds ++ " Review Disposition"))))
      with (String "R" (String d (ds ++ " Review Disposition"))).
    rewrite run_seq, run_opt_none by reflexivity.
    rewrite run_seq.
    destruct (round_part_not_short d (ds ++ " Review Disposition")
                (fun s1 g1 =>
                   Re.run review_disposition s1
                     (fun s2 g2 =>
                        Re.run (Re.Seq (Re.Star Re.space) Re.Eos) s2
                          (fun _ g0 => Some g0) g2) g1)
                Re.no_groups Hd) as [Hround _].
    rewrite run_alt_none.
    + change (String "R" (String d (ds ++ " Review Disposition")))
        with ("R" ++ String d ds ++ " Review Disposition" ++ "").
      rewrite run_short_round_part by assumption. reflexivity.
    + rewrite run_seq, run_opt_none by exact Hround.
      apply round_part_not_short. exact Hd.
Qed.


Lemma round_heading_matches_witness :
  (exists m, Re.match_ DISPOSITION_HEADER_RE "## Round 012 Review Disposition"
             = Some m /\ extract_round_number m = Some 12%Z) /\
  (exists m, Re.match_ DISPOSITION_HEADER_RE "## R7 Review Disposition"
             = Some m /\ extract_round_number m = Some 7%Z).
Proof.
  split.
  - exact (proj1 (round_heading_matches "012" ltac:(discriminate) eq_refl
                    ltac:(simpl; lia))).
  - exact (proj2 (round_heading_matches "7" ltac:(discriminate) eq_refl
                    ltac:(simpl; lia))).
Defined.

(** X18: a line matches the heading pattern only if it begins with two hash
    signs followed by a whitespace character: deeper headings and headings
    without a space are not disposition headings. *)
Theorem heading_begins_with_two_hashes l m :
  Re.match_ DISPOSITION_HEADER_RE l = Some m ->
  exists a rest, l = String "#" (String "#" (String a rest)) /\
                 Str.is_space a = true.
Proof.
  unfold Re.match_. rewrite header_re_unfold.
  cbn [Re.lit_i Re.run Re.chr_i Re.Plus Re.space].
  destruct l as [|a1 [|a2 [|a3 rest]]];
    try discriminate;
    try (destruct (Ascii.eqb (Str.lower_char a1) (Str.lower_char "#"));
         discriminate);
    try (destruct (Ascii.eqb (Str.lower_char a1) (Str.lower_char "#"));
         [destruct (Ascii.eqb (Str.lower_char a2) (Str.lower_char "#"))|];
         discriminate).
  destruct (Ascii.eqb (Str.lower_char a1) (Str.lower_char "#")) eqn:E1;
    [|discriminate].
  destruct (Ascii.eqb (Str.lower_char a2) (Str.lower_char "#")) eqn:E2;
    [|discriminate].
  destruct (Str.is_space a3) eqn:E3; [|discriminate].
  intros _. apply lower_char_hash in E1, E2. subst. eauto.
Qed.

Lemma heading_begins_with_two_hashes_witness :
  exists a rest,
    "## 3) Review Disposition" = String "#" (String "#" (String a rest)) /\
    Str.is_space a = true.
Proof.
  destruct (Re.match_ DISPOSITION_HEADER_RE "## 3) Review Disposition")
    as [m|] eqn:E; [|discriminate E].
  exact (heading_begins_with_two_hashes _ m E).
Defined.

(** ** What the error messages point at *)

Section ErrorLines.

Import Validator.

Lemma check_row_errors label cc s d row errs :
  check_row label cc s d row = Some errs ->
  Forall (fun e => error_label e = label /\ structural e = false /\
                   error_line e = line row + 1) errs /\
  List.length errs <= 2.
Proof.
  unfold check_row.
  destruct (negb (Nat.eqb (List.length (cells row)) cc)).
  - intros H. injection H as <-. split; [repeat constructor | simpl; lia].
  - destruct (nth_error (cells row) s) as [sv|]; [|discriminate]. simpl.
    destruct (nth_error (cells row) d) as [dv|]; [|discriminate]. simpl.
    intros H. injection H as <-.
    destruct (fst (classify_severity sv)), (fst (classify_disposition dv));
      split; simpl; repeat constructor.
Qed.

Lemma check_rows_errors label cc s d rows errs :
  check_rows label cc s d rows = Some errs ->
  Forall (fun e => error_label e = label /\ structural e = false /\
                   exists row, In row rows /\ error_line e = line row + 1)
         errs /\
  List.length errs <= 2 * List.length rows.
Proof.
  unfold check_rows. revert errs.
  induction rows as [|row rows IH]; intros errs H; simpl in H.
  - injection H as <-. split; [constructor | simpl; lia].
  - destruct (check_row label cc s d row) as [e1|] eqn:E1; [|discriminate].
    simpl in H.
    destruct (for_each (check_row label cc s d) rows) as [e2|] eqn:E2;
      [|discriminate].
    simpl in H. injection H as <-.
    apply check_row_errors in E1 as [HF1 Hl1].
    destruct (IH e2 eq_refl) as [HF2 Hl2]. split.
    + apply Forall_app. split.
      * eapply Forall_impl; [|exact HF1]. simpl.
        intros e (H1 & H2 & H3). split; [exact H1|]. split; [exact H2|].
        exists row. split; [now left | exact H3].
      * eapply Forall_impl; [|exact HF2]. simpl.
        intros e (H1 & H2 & r & Hr & H3). split; [exact H1|].
        split; [exact H2|]. exists r. split; [now right | exact H3].
    + rewrite length_app. cbn [List.length]. lia.
Qed.

(** The errors of the row loop, row by row. *)
Lemma check_rows_per_row label cc s d rows errs :
  check_rows label cc s d rows = Some errs ->
  exists per_row,
    errs = concat per_row /\
    Forall2 (fun row es =>
               List.length es <= 2 /\
               Forall (fun e => error_label e = label /\
                                structural e = false /\
                                error_line e = line row + 1) es)
            rows per_row.
Proof.
  unfold check_rows. revert errs.
  induction rows as [|row rows IH]; intros errs H; simpl in H.
  - injection H as <-. exists []. split; [reflexivity|constructor].
  - destruct (check_row label cc s d row) as [e1|] eqn:E1; [|discriminate].
    simpl in H.
    destruct (for_each (check_row label cc s d) rows) as [e2|] eqn:E2;
      [|discriminate].
    simpl in H. injection H as <-.
    apply check_row_errors in E1 as [HF1 Hl1].
    destruct (IH e2 eq_refl) as (per_row & -> & HF2).
    exists (e1 :: per_row). split; [reflexivity|].
    constructor; [split; assumption|exact HF2].
Qed.

Lemma no_row_errors (rows : list Row) :
  exists per_row : list (list Error),
    [] = concat per_row /\
    Forall2 (fun row es =>
               List.length es <= 2 /\
               Forall (fun e => structural e = false /\
                                error_line e = line row + 1) es)
            rows per_row.
Proof.
  induction rows as [|row rows (per_row & Hc & HF)].
  - exists []. split; [reflexivity|constructor].
  - exists ([] :: per_row). split; [exact Hc|].
    constructor; [split; [simpl; lia|constructor]|exact HF].
Qed.

Lemma filter_none {A} (p : A -> bool) l :
  Forall (fun x => p x = false) l -> filter p l = [].
Proof.
  induction 1 as [|x l Hx _ IH]; [reflexivity|]. simpl. now rewrite Hx.
Qed.

Lemma filter_all {A} (p : A -> bool) l :
  Forall (fun x => p x = true) l -> filter p l = l.
Proof.
  induction 1 as [|x l Hx _ IH]; [reflexivity|]. simpl. now rewrite Hx, IH.
Qed.

End ErrorLines.

(** X19: every error of [validate_table] carries the label of the table.  A
    structural error names the line of the section heading and a table has at
    most two of them.  Every other error names the line of a row of the
    table: taken in order, the errors that are not structural are those of
    the first row, then those of the second, and so on, at most two for each
    row.  The two kinds never come together: errors of rows come only when
    both mandatory columns resolve.  Line numbers in messages count from
    1. *)
Theorem validate_table_errors_located t errs :
  Validator.validate_table t = Some errs ->
  Forall (fun e =>
            Validator.error_label e = Validator.round_label t /\
            if Validator.structural e
            then Validator.error_line e = section_header_line t + 1
            else exists row, In row (rows t) /\
                             Validator.error_line e = line row + 1)
         errs /\
  List.length (filter Validator.structural errs) <= 2 /\
  (Forall (fun e => Validator.structural e = true) errs \/
   Forall (fun e => Validator.structural e = false) errs) /\
  (forall e, In e errs -> Validator.structural e = false ->
             find_column_index (header_cells t) ["severity"] <> None /\
             find_column_index (header_cells t) ["disposition"] <> None) /\
  exists per_row,
    filter (fun e => negb (Validator.structural e)) errs = concat per_row /\
    Forall2 (fun row es =>
               List.length es <= 2 /\
               Forall (fun e => Validator.structural e = false /\
                                Validator.error_line e = line row + 1) es)
            (rows t) per_row.
Proof.
  unfold Validator.validate_table.
  destruct (header_cells t) as [|h hs].
  { intros H. injection H as <-.
    split; [constructor|]. split; [simpl; lia|]. split; [left; constructor|].
    split; [intros e []|]. apply no_row_errors. }
  destruct (find_column_index (h :: hs) ["severity"]) as [s|];
    destruct (find_column_index (h :: hs) ["disposition"]) as [d|];
    try (intros H; cbn [app] in H; injection H as <-;
         split; [repeat (apply Forall_cons; [split; reflexivity|]);
                 apply Forall_nil|];
         split; [cbn; lia|];
         split; [left; repeat (apply Forall_cons; [reflexivity|]);
                 apply Forall_nil|];
         split; [intros e He Hs; cbn [In] in He;
                 repeat (destruct He as [<-|He]; [discriminate Hs|]);
                 destruct He|];
         apply no_row_errors).
  intros H.
  pose proof (check_rows_errors _ _ _ _ _ _ H) as [HF Hl].
  apply check_rows_per_row in H as (per_row & Hc & HF2).
  assert (Hns : Forall (fun e => Validator.structural e = false) errs).
  { eapply Forall_impl; [|exact HF]. simpl. tauto. }
  split.
  { eapply Forall_impl; [|exact HF]. simpl.
    intros e (H1 & H2 & H3). rewrite H2. auto. }
  split; [rewrite (filter_none _ _ Hns); simpl; lia|].
  split; [right; exact Hns|].
  split; [intros e _ _; split; discriminate|].
  exists per_row. split.
  - rewrite filter_all; [exact Hc|].
    eapply Forall_impl; [|exact Hns]. simpl. intros e ->. reflexivity.
  - eapply Forall2_impl; [|exact HF2]. simpl.
    intros row es [Hlen Hes]. split; [exact Hlen|].
    eapply Forall_impl; [|exact Hes]. simpl. tauto.
Qed.

Lemma validate_table_errors_located_witness :
  let t := {| round := Some 2%Z; header_line := 11; section_header_line := 10;
              header_cells := ["Severity"; "Disposition"];
              separator_line := Some 12;
              rows := [ {| line := 13; cells := ["urgent"; "maybe"] |} ];
              col_count := 2 |} in
  exists errs, Validator.validate_table t = Some errs /\
               map Validator.error_line errs = [14; 14] /\
               List.length (filter Validator.structural errs) <= 2 /\
               exists per_row,
                 filter (fun e => negb (Validator.structural e)) errs =
                   concat per_row /\
                 Forall2 (fun row es =>
                            List.length es <= 2 /\
                            Forall (fun e =>
                                      Validator.structural e = false /\
                                      Validator.error_line e = line row + 1) es)
                         (rows t) per_row.
Proof.
  intros t. eexists. split; [reflexivity|]. split; [reflexivity|].
  destruct (validate_table_errors_located t _ eq_refl)
    as (_ & Hstructural & _ & _ & Hrows).
  split; [exact Hstructural|exact Hrows].
Defined.
